(** * split_client_side: the SQL-backed storage layer

    A shallow embedding of [split_client_side/storage/adapters/sql.py] (the
    record models and [DbClient]) and of [split_client_side/storage/sql.py]
    (the split, segment, my-segments, impression, event and telemetry
    storages), followed by the properties of the storage contract.

    Tables are lists of rows in primary-key order.  Every storage method is a
    computation in a small state-and-exception monad over a [World]: the
    database, the wall clock that stamps queued rows, the log of overflow-hook
    invocations and the split storage's lock. *)

From stdpp Require Import base gmap strings list fin_maps sorting.
From Stdlib Require Import ZArith Lia.

Local Open Scope Z_scope.

(** ** Python-level values and outcomes *)

(** The exceptions the modelled code can raise. *)
Inductive exn : Type :=
  | MultipleResultsFound   (* sqlalchemy: [one_or_none]/[one] saw several rows *)
  | NoResultFound          (* sqlalchemy: [one] saw no row *)
  | TypeError.             (* calling an object that is not callable *)

(** How a call ends: it returns, it raises, or it never returns because it
    waits for a lock that nobody will release. *)
Inductive result (A : Type) : Type :=
  | Returned (a : A)
  | Raised (e : exn)
  | Blocked.
Arguments Returned {A} a.
Arguments Raised {A} e.
Arguments Blocked {A}.

(** The values a caller may hand to [set_table_full_hook]. *)
Inductive pyobject : Type :=
  | PyNone
  | PyInt (z : Z)
  | PyStr (s : string)
  | PyFunction (f : string).

(** Python's builtin [callable]. *)
Definition callable (o : pyobject) : bool :=
  match o with
  | PyFunction _ => true
  | _ => false
  end.

(** ** Record models (adapters/sql.py) *)

(** Every model but [MetadataModel] has an integer primary key [id]. *)
Class Model (R : Type) := pk : R -> Z.

Module SplitModel.
Record t := mk { id : Z; name : string; traffic_type_name : string; json_data : string }.
End SplitModel.

(** A member row of a segment.  The model keeps the rows of a segment as the
    child collection [SegmentModel.keys], the way the ORM relationship
    presents them; the row's own [id] and [model_id] are the engine's. *)
Module SegmentKeyModel.
Record t := mk { name : string }.
End SegmentKeyModel.

Module SegmentModel.
Record t := mk { id : Z; name : string; change_number : option Z;
                 keys : list SegmentKeyModel.t }.
Definition set_keys (ks : list SegmentKeyModel.t) (r : t) : t :=
  mk (id r) (name r) (change_number r) ks.
Definition set_change_number (n : option Z) (r : t) : t :=
  mk (id r) (name r) n (keys r).
End SegmentModel.

Module MySegmentModel.
Record t := mk { id : Z; traffic_key : string; segment_name : string }.

(** [getattr(record, attribute)] for the data of a record: the model declares
    the three columns [id], [traffic_key] and [segment_name], and defines no
    other attribute that holds data, [name] in particular.  [None] stands for
    the [AttributeError] that reading a missing attribute raises. *)
Definition getattr (attribute : string) (self : t) : option pyobject :=
  if String.eqb attribute "id" then Some (PyInt (id self))
  else if String.eqb attribute "traffic_key" then Some (PyStr (traffic_key self))
  else if String.eqb attribute "segment_name" then Some (PyStr (segment_name self))
  else None.
End MySegmentModel.

(** [status] is never written by the storages and is left out. *)
Module ImpressionModel.
Record t := mk { id : Z; created_at : Z; json_data : string }.
End ImpressionModel.

Module EventModel.
Record t := mk { id : Z; created_at : Z; json_data : string; size : Z }.
End EventModel.

Module LatencyModel.
Record t := mk {
  id : Z; name : string;
  bucket_0 : Z; bucket_1 : Z; bucket_2 : Z; bucket_3 : Z; bucket_4 : Z;
  bucket_5 : Z; bucket_6 : Z; bucket_7 : Z; bucket_8 : Z; bucket_9 : Z;
  bucket_10 : Z; bucket_11 : Z; bucket_12 : Z; bucket_13 : Z; bucket_14 : Z;
  bucket_15 : Z; bucket_16 : Z; bucket_17 : Z; bucket_18 : Z; bucket_19 : Z;
  bucket_20 : Z; bucket_21 : Z }.

(** The [buckets] property. *)
Definition buckets (self : t) : list Z :=
  [ bucket_0 self; bucket_1 self; bucket_2 self; bucket_3 self;
    bucket_4 self; bucket_5 self; bucket_6 self; bucket_7 self;
    bucket_8 self; bucket_9 self; bucket_10 self; bucket_11 self;
    bucket_12 self; bucket_13 self; bucket_14 self; bucket_15 self;
    bucket_16 self; bucket_17 self; bucket_18 self; bucket_19 self;
    bucket_20 self; bucket_21 self ].

(** [LatencyModel(name=name)] once inserted: every bucket column takes its
    default 0. *)
Definition create (name : string) (id : Z) : t :=
  mk id name 0 0 0 0 0 0 0 0 0 0 0 0 0 0 0 0 0 0 0 0 0 0.

(** [setattr(record, 'bucket_<b>', column + 1)] for the column
    [getattr(LatencyModel, f'bucket_{b}')]: the one column whose number is
    [b] is incremented, the others are kept. *)
Definition increment_bucket (b : Z) (r : t) : t :=
  let col (i v : Z) := if (i =? b) then v + 1 else v in
  mk (id r) (name r)
     (col 0 (bucket_0 r)) (col 1 (bucket_1 r)) (col 2 (bucket_2 r))
     (col 3 (bucket_3 r)) (col 4 (bucket_4 r)) (col 5 (bucket_5 r))
     (col 6 (bucket_6 r)) (col 7 (bucket_7 r)) (col 8 (bucket_8 r))
     (col 9 (bucket_9 r)) (col 10 (bucket_10 r)) (col 11 (bucket_11 r))
     (col 12 (bucket_12 r)) (col 13 (bucket_13 r)) (col 14 (bucket_14 r))
     (col 15 (bucket_15 r)) (col 16 (bucket_16 r)) (col 17 (bucket_17 r))
     (col 18 (bucket_18 r)) (col 19 (bucket_19 r)) (col 20 (bucket_20 r))
     (col 21 (bucket_21 r)).
End LatencyModel.

Module CounterModel.
Record t := mk { id : Z; name : string; value : Z }.
(** [CounterModel(name=name)] once inserted: [value] takes its default 0. *)
Definition create (name : string) (id : Z) : t := mk id name 0.
(** [setattr(record, 'value', CounterModel.value + 1)]. *)
Definition increment_value (r : t) : t := mk (id r) (name r) (value r + 1).
End CounterModel.

Module GaugeModel.
Record t := mk { id : Z; name : string; value : Z }.
(** [setattr(existing_record, 'value', value)]. *)
Definition set_value (v : Z) (r : t) : t := mk (id r) (name r) v.
End GaugeModel.

#[global] Instance SplitModel_pk : Model SplitModel.t := SplitModel.id.
#[global] Instance SegmentModel_pk : Model SegmentModel.t := SegmentModel.id.
#[global] Instance MySegmentModel_pk : Model MySegmentModel.t := MySegmentModel.id.
#[global] Instance ImpressionModel_pk : Model ImpressionModel.t := ImpressionModel.id.
#[global] Instance EventModel_pk : Model EventModel.t := EventModel.id.
#[global] Instance LatencyModel_pk : Model LatencyModel.t := LatencyModel.id.
#[global] Instance CounterModel_pk : Model CounterModel.t := CounterModel.id.
#[global] Instance GaugeModel_pk : Model GaugeModel.t := GaugeModel.id.

(** ** The database and the world around it *)

(** One field per table.  [split_metadata] is keyed by its primary key
    [name], the other tables are lists of rows. *)
Record Db := mkDb {
  split_splits : list SplitModel.t;
  split_metadata : gmap string Z;
  split_segments : list SegmentModel.t;
  split_my_segments : list MySegmentModel.t;
  split_impressions : list ImpressionModel.t;
  split_events : list EventModel.t;
  split_latencies : list LatencyModel.t;
  split_counters : list CounterModel.t;
  split_gauges : list GaugeModel.t }.

Definition empty_db : Db := mkDb [] ∅ [] [] [] [] [] [] [].

Definition set_split_splits (v : list SplitModel.t) (d : Db) : Db :=
  mkDb v (split_metadata d) (split_segments d) (split_my_segments d)
       (split_impressions d) (split_events d) (split_latencies d)
       (split_counters d) (split_gauges d).
Definition set_split_segments (v : list SegmentModel.t) (d : Db) : Db :=
  mkDb (split_splits d) (split_metadata d) v (split_my_segments d)
       (split_impressions d) (split_events d) (split_latencies d)
       (split_counters d) (split_gauges d).
Definition set_split_impressions (v : list ImpressionModel.t) (d : Db) : Db :=
  mkDb (split_splits d) (split_metadata d) (split_segments d)
       (split_my_segments d) v (split_events d) (split_latencies d)
       (split_counters d) (split_gauges d).
Definition set_split_events (v : list EventModel.t) (d : Db) : Db :=
  mkDb (split_splits d) (split_metadata d) (split_segments d)
       (split_my_segments d) (split_impressions d) v (split_latencies d)
       (split_counters d) (split_gauges d).
Definition set_split_latencies (v : list LatencyModel.t) (d : Db) : Db :=
  mkDb (split_splits d) (split_metadata d) (split_segments d)
       (split_my_segments d) (split_impressions d) (split_events d) v
       (split_counters d) (split_gauges d).
Definition set_split_counters (v : list CounterModel.t) (d : Db) : Db :=
  mkDb (split_splits d) (split_metadata d) (split_segments d)
       (split_my_segments d) (split_impressions d) (split_events d)
       (split_latencies d) v (split_gauges d).
Definition set_split_my_segments (v : list MySegmentModel.t) (d : Db) : Db :=
  mkDb (split_splits d) (split_metadata d) (split_segments d) v
       (split_impressions d) (split_events d) (split_latencies d)
       (split_counters d) (split_gauges d).
Definition set_split_gauges (v : list GaugeModel.t) (d : Db) : Db :=
  mkDb (split_splits d) (split_metadata d) (split_segments d)
       (split_my_segments d) (split_impressions d) (split_events d)
       (split_latencies d) (split_counters d) v.

(** The state a storage call runs in.
    - [wall_clock i] is what the [i]-th call of [datetime.datetime.now]
      returns in this execution, [clock_calls] how many calls were made;
    - [hook_calls] logs the overflow hooks invoked so far, oldest first;
    - [lock_held] is the state of [SqlSplitStorage._lock], a
      [threading.Lock]. *)
Record World := mkWorld {
  db : Db;
  wall_clock : nat -> Z;
  clock_calls : nat;
  hook_calls : list string;
  lock_held : bool }.

Definition set_db (d : Db) (w : World) : World :=
  mkWorld d (wall_clock w) (clock_calls w) (hook_calls w) (lock_held w).
Definition set_lock_held (b : bool) (w : World) : World :=
  mkWorld (db w) (wall_clock w) (clock_calls w) (hook_calls w) b.

(** A world with an empty database, as [DbClient()] creates it. *)
Definition new_world (clock : nat -> Z) : World := mkWorld empty_db clock 0 [] false.

(** ** The monad of storage calls *)

Definition M (A : Type) : Type := World -> result A * World.

#[global] Instance M_ret : MRet M := λ A a w, (Returned a, w).
#[global] Instance M_bind : MBind M := λ A B f m w,
  match m w with
  | (Returned a, w') => f a w'
  | (Raised e, w') => (Raised e, w')
  | (Blocked, w') => (Blocked, w')
  end.

Definition raise {A} (e : exn) : M A := λ w, (Raised e, w).
Definition gets {A} (f : Db -> A) : M A := λ w, (Returned (f (db w)), w).
Definition modify (f : Db -> Db) : M unit := λ w, (Returned tt, set_db (f (db w)) w).
Definition lift {A} (r : result A) : M A := λ w, (r, w).

(** [datetime.datetime.now()]. *)
Definition now : M Z := λ w,
  (Returned (wall_clock w (clock_calls w)),
   mkWorld (db w) (wall_clock w) (S (clock_calls w)) (hook_calls w) (lock_held w)).

(** Calling the object stored as a hook: a function is invoked, which the
    log records, and anything else is not callable.  What the hook does is its
    own business (the factory registers the flush of a synchronisation task);
    it is taken to return. *)
Definition call (o : pyobject) : M unit := λ w,
  match o with
  | PyFunction f =>
      (Returned tt,
       mkWorld (db w) (wall_clock w) (clock_calls w) (hook_calls w ++ [f]) (lock_held w))
  | _ => (Raised TypeError, w)
  end.

(** [with self._lock: body].  A [threading.Lock] is not reentrant: acquiring
    it while it is held waits until it is released, which in a sequential
    execution never happens.  The lock is released however the body ends. *)
Definition with_lock {A} (body : M A) : M A := λ w,
  if lock_held w then (Blocked, w)
  else match body (set_lock_held true w) with
       | (Blocked, w') => (Blocked, w')
       | (r, w') => (r, set_lock_held false w')
       end.

(** [for x in xs: body(x)]. *)
Fixpoint for_each {A} (xs : list A) (body : A -> M unit) : M unit :=
  match xs with
  | [] => mret tt
  | x :: xs' => body x ;; for_each xs' body
  end.

(** [n] successive calls of [m]. *)
Fixpoint repeat_call (n : nat) (m : M unit) : M unit :=
  match n with
  | O => mret tt
  | S n' => m ;; repeat_call n' m
  end.

(** ** DbClient (adapters/sql.py)

    The primitives act on one table.  [db_session] serialises them: each runs
    alone, from its query to its commit. *)
Module DbClient.
Section Table.
Context {R : Type} `{Model R}.

Definition get_all (filters : R -> bool) (rows : list R) : list R :=
  List.filter filters rows.

Definition get_count (filters : R -> bool) (rows : list R) : Z :=
  Z.of_nat (length (List.filter filters rows)).

(** [Query.one_or_none]. *)
Definition one_or_none (found : list R) : result (option R) :=
  match found with
  | [] => Returned None
  | [r] => Returned (Some r)
  | _ => Raised MultipleResultsFound
  end.

(** [Query.one]. *)
Definition one (found : list R) : result R :=
  match found with
  | [] => Raised NoResultFound
  | [r] => Returned r
  | _ => Raised MultipleResultsFound
  end.

Definition get_one_or_none (filters : R -> bool) (rows : list R) : result (option R) :=
  one_or_none (List.filter filters rows).

Definition get_first (filters : R -> bool) (rows : list R) : option R :=
  head (List.filter filters rows).

(** The key the engine gives to a new row: one more than the largest key
    in the table (1 in an empty table). *)
Definition fresh_pk (rows : list R) : Z := 1 + foldr Z.max 0 (map pk rows).

(** [session.add(record); session.commit()] for a new record, whose
    remaining columns are known once the key is. *)
Definition add (create : Z -> R) (rows : list R) : list R :=
  rows ++ [create (fresh_pk rows)].

(** Writing back the row with key [k]. *)
Definition update_where_pk (k : Z) (f : R -> R) (rows : list R) : list R :=
  map (λ r, if pk r =? k then f r else r) rows.

(** [session.merge(record); session.commit()] for a record that was read
    from the table: its state replaces the row with its key. *)
Definition merge (record : R) (rows : list R) : list R :=
  update_where_pk (pk record) (λ _, record) rows.

Definition delete_all (filters : R -> bool) (rows : list R) : list R :=
  List.filter (λ r, negb (filters r)) rows.

(** [column.asc()]: the order of an ascending [ORDER BY column]. *)
Definition asc (column : R -> Z) : relation R := λ a b, column a ≤ column b.

#[global] Instance asc_dec (column : R -> Z) (a b : R) : Decision (asc column a b) :=
  decide (column a ≤ column b).

(** The place of [r] among rows that are in ascending order already: before
    the first row whose value is not smaller. *)
Fixpoint ordered_insert (column : R -> Z) (r : R) (sorted : list R) : list R :=
  match sorted with
  | [] => [r]
  | x :: sorted' =>
      if decide (asc column r x) then r :: sorted
      else x :: ordered_insert column r sorted'
  end.

(** [Query.order_by(column.asc())]: the rows by ascending value of [column].
    Rows of equal value stay in the order the table has them, which is how
    the default engine, SQLite, returns them. *)
Definition order_by_asc (column : R -> Z) (rows : list R) : list R :=
  foldr (ordered_insert column) [] rows.

(** [pop]: the matching rows, ordered by the column [order_by] (ascending)
    when one is given and cut to [limit] rows (a number of rows, so a natural
    number) when one is given; each of them is deleted by its key.  Returns
    the rows and the table left. *)
Definition pop (limit : option nat) (filters : R -> bool)
    (order_by : option (R -> Z)) (rows : list R) : list R * list R :=
  let query := List.filter filters rows in
  let query := match order_by with
               | Some column => order_by_asc column query
               | None => query
               end in
  let query := match limit with
               | Some n => take n query
               | None => query
               end in
  (query, List.filter (λ r, negb (bool_decide (pk r ∈ map pk query))) rows).

(** [increment_or_create], with [plus_1] the effect of
    [setattr(record, column.name, column + 1)] on a row.  No table of the
    schema constrains the filtered column, so the insert of a new row does
    not fail and the [except] branch is not entered.  ([Racing] below
    follows the method through that branch, on an engine that may refuse
    the insert.) *)
Definition increment_or_create (plus_1 : R -> R) (filters : R -> bool)
    (create : Z -> R) (rows : list R) : result (list R) :=
  match one_or_none (List.filter filters rows) with
  | Returned (Some record) => Returned (update_where_pk (pk record) plus_1 rows)
  | Returned None =>
      let record := create (fresh_pk rows) in
      Returned (update_where_pk (pk record) plus_1 (rows ++ [record]))
  | Raised e => Raised e
  | Blocked => Blocked
  end.

(** [update_or_insert]: [filter_by] is the query [filter_by( **filter_kwargs)],
    [create] the record [model( **filter_kwargs)] built after
    [filter_kwargs.update(update_kwargs)], and [update] the [setattr] of every
    item of [update_kwargs] on the record that was found. *)
Definition update_or_insert (filter_by : R -> bool) (create : Z -> R)
    (update : R -> R) (rows : list R) : result (list R) :=
  match one_or_none (List.filter filter_by rows) with
  | Returned None => Returned (add create rows)
  | Returned (Some existing_record) =>
      Returned (update_where_pk (pk existing_record) update rows)
  | Raised e => Raised e
  | Blocked => Blocked
  end.

(** [Query.group_by(column)] on the rows of a query: one row for each value
    of the column.  Which row of a group comes back is the engine's choice
    (the first one here), and so is the order of the groups; the caller,
    [fetch_many], builds a dict from the rows. *)
Fixpoint group_by (column : R -> string) (rows : list R) : list R :=
  match rows with
  | [] => []
  | r :: rows' =>
      r :: List.filter (λ x, negb (String.eqb (column x) (column r)))
             (group_by column rows')
  end.
End Table.
End DbClient.

(** ** SqlTelemetryStorage (storage/sql.py) *)
Module SqlTelemetryStorage.

Definition inc_latency (name : string) (bucket : Z) : M unit :=
  if (0 <=? bucket) && (bucket <=? 21) then
    rows ← gets split_latencies;
    rows' ← lift (DbClient.increment_or_create
                    (LatencyModel.increment_bucket bucket)
                    (λ r, String.eqb (LatencyModel.name r) name)
                    (LatencyModel.create name) rows);
    modify (set_split_latencies rows')
  else mret tt.

Definition inc_counter (name : string) : M unit :=
  rows ← gets split_counters;
  rows' ← lift (DbClient.increment_or_create
                  CounterModel.increment_value
                  (λ r, String.eqb (CounterModel.name r) name)
                  (CounterModel.create name) rows);
  modify (set_split_counters rows').

(** [{counter.name: counter.value for counter in pop(CounterModel)}]: a
    later row of the same name overwrites an earlier one. *)
Definition counters_dict (rows : list CounterModel.t) : gmap string Z :=
  foldl (λ m r, <[CounterModel.name r := CounterModel.value r]> m) ∅ rows.

Definition pop_counters : M (gmap string Z) :=
  rows ← gets split_counters;
  let '(popped, rest) := DbClient.pop None (λ _, true) None rows in
  modify (set_split_counters rest);;
  mret (counters_dict popped).

Definition latencies_dict (rows : list LatencyModel.t) : gmap string (list Z) :=
  foldl (λ m r, <[LatencyModel.name r := LatencyModel.buckets r]> m) ∅ rows.

Definition pop_latencies : M (gmap string (list Z)) :=
  rows ← gets split_latencies;
  let '(popped, rest) := DbClient.pop None (λ _, true) None rows in
  modify (set_split_latencies rest);;
  mret (latencies_dict popped).

(** [update_or_insert(GaugeModel, dict(name=name), dict(value=value))]. *)
Definition put_gauge (name : string) (value : Z) : M unit :=
  rows ← gets split_gauges;
  rows' ← lift (DbClient.update_or_insert
                  (λ r, String.eqb (GaugeModel.name r) name)
                  (λ id, GaugeModel.mk id name value)
                  (GaugeModel.set_value value) rows);
  modify (set_split_gauges rows').

(** [{gauge.name: gauge.value for gauge in pop(GaugeModel)}]. *)
Definition gauges_dict (rows : list GaugeModel.t) : gmap string Z :=
  foldl (λ m r, <[GaugeModel.name r := GaugeModel.value r]> m) ∅ rows.

Definition pop_gauges : M (gmap string Z) :=
  rows ← gets split_gauges;
  let '(popped, rest) := DbClient.pop None (λ _, true) None rows in
  modify (set_split_gauges rest);;
  mret (gauges_dict popped).

Definition clear : M unit :=
  modify (λ d, set_split_latencies
                 (DbClient.delete_all (λ _, true) (split_latencies d)) d);;
  modify (λ d, set_split_counters
                 (DbClient.delete_all (λ _, true) (split_counters d)) d);;
  modify (λ d, set_split_gauges
                 (DbClient.delete_all (λ _, true) (split_gauges d)) d).

End SqlTelemetryStorage.

(** ** SqlSplitStorage (storage/sql.py)

    The storage reads and writes [splitio.models.splits.Split] objects, a
    class of the splitio client library.  What the storage uses of it is
    taken as given: the attributes [name] and [traffic_type_name], the
    serialisation [json.dumps(split.to_json())], its inverse
    [splits.from_raw(json.loads(text))], and the method [local_kill]. *)
Module SqlSplitStorage.
Section Splits.
Context {Split : Type}.
Variable split_name : Split -> string.
Variable split_traffic_type_name : Split -> string.
Variable dumps_to_json : Split -> string.
Variable from_raw_loads : string -> Split.
Variable local_kill : string -> Z -> Split -> Split.
(** [spl.get_segment_names()], of the same class. *)
Variable split_get_segment_names : Split -> list string.

Definition _get_split_record (name : string) : M (option SplitModel.t) :=
  rows ← gets split_splits;
  lift (DbClient.get_one_or_none (λ r, String.eqb (SplitModel.name r) name) rows).

Definition _get_split_from_record (split_record : SplitModel.t) : Split :=
  from_raw_loads (SplitModel.json_data split_record).

Definition get (name : string) : M (option Split) :=
  record ← _get_split_record name;
  match record with
  | None => mret None
  | Some r => mret (Some (_get_split_from_record r))
  end.

Definition put (split : Split) : M unit :=
  with_lock (
    existing_split_record ← _get_split_record (split_name split);
    match existing_split_record with
    | None =>
        modify (λ d, set_split_splits
          (DbClient.add (λ id, SplitModel.mk id (split_name split)
                                 (split_traffic_type_name split)
                                 (dumps_to_json split))
                        (split_splits d)) d)
    | Some r =>
        modify (λ d, set_split_splits
          (DbClient.merge (SplitModel.mk (SplitModel.id r) (SplitModel.name r)
                                         (split_traffic_type_name split)
                                         (dumps_to_json split))
                          (split_splits d)) d)
    end).

Definition remove (name : string) : M bool :=
  with_lock (
    existing_split ← get name;
    match existing_split with
    | None => mret false
    | Some _ =>
        modify (λ d, set_split_splits
          (DbClient.delete_all (λ r, String.eqb (SplitModel.name r) name)
                               (split_splits d)) d);;
        mret true
    end).

Definition get_change_number : M Z :=
  gets (λ d, match split_metadata d !! "change_number"%string with
             | Some number => number
             | None => 0
             end).

(** [update_or_insert(MetadataModel, dict(name='change_number'),
    dict(number=new_change_number))]. *)
Definition set_change_number (new_change_number : Z) : M unit :=
  modify (λ d, mkDb (split_splits d)
                    (<["change_number"%string := new_change_number]> (split_metadata d))
                    (split_segments d) (split_my_segments d)
                    (split_impressions d) (split_events d)
                    (split_latencies d) (split_counters d) (split_gauges d)).

Definition kill_locally (name default_treatment : string) (change_number : Z) : M unit :=
  with_lock (
    stored ← get_change_number;
    if stored >? change_number then mret tt
    else
      split ← get name;
      match split with
      | None => mret tt
      | Some s => put (local_kill default_treatment change_number s)
      end).

(** The dict starts as [{name: None for name in split_names}]; every record
    of the grouped query then sets the entry of its name. *)
Definition fetch_many (split_names : list string) : M (gmap string (option Split)) :=
  records ← gets (λ d,
    DbClient.group_by SplitModel.name
      (DbClient.get_all (λ r, bool_decide (SplitModel.name r ∈ split_names))
                        (split_splits d)));
  let split_dict : gmap string (option Split) :=
    foldl (λ m name, <[name := None]> m) ∅ split_names in
  mret (foldl (λ m record,
                 <[SplitModel.name record := Some (_get_split_from_record record)]> m)
              split_dict records).

(** [list(set(record.name for record in records))]: the names without
    repetition, in the order the set gives them. *)
Definition get_split_names : M (list string) :=
  records ← gets (λ d, DbClient.get_all (λ _, true) (split_splits d));
  mret (elements (list_to_set (map SplitModel.name records) : gset string)).

Definition get_all_splits : M (list Split) :=
  records ← gets (λ d, DbClient.get_all (λ _, true) (split_splits d));
  mret (map (λ record, from_raw_loads (SplitModel.json_data record)) records).

Definition is_valid_traffic_type (traffic_type_name : string) : M bool :=
  record ← gets (λ d,
    DbClient.get_first
      (λ r, String.eqb (SplitModel.traffic_type_name r) traffic_type_name)
      (split_splits d));
  mret (match record with Some _ => true | None => false end).

(** [{name for spl in self.get_all_splits() for name in spl.get_segment_names()}]. *)
Definition get_segment_names : M (gset string) :=
  all_splits ← get_all_splits;
  mret (list_to_set (concat (map split_get_segment_names all_splits))).
End Splits.
End SqlSplitStorage.

(** ** SqlSegmentStorage (storage/sql.py) *)
Module SqlSegmentStorage.

(** [segments.Segment(name, keys, change_number)], a class of the splitio
    client library, by the arguments it is built from. *)
Record Segment := mkSegment {
  name : string; keys : list string; change_number : option Z }.

(** What the attribute [segment.keys] reads: the class keeps [set(keys)]
    (the tests call [segment.keys.add] and [segment.keys.remove]), in which
    a key given several times is held once. *)
Definition _keys (segment : Segment) : gset string := list_to_set (keys segment).

Definition named (segment_name : string) (r : SegmentModel.t) : bool :=
  String.eqb (SegmentModel.name r) segment_name.

Definition get (segment_name : string) : M (option Segment) :=
  rows ← gets split_segments;
  record ← lift (DbClient.get_one_or_none (named segment_name) rows);
  match record with
  | Some r =>
      mret (Some (mkSegment segment_name
                    (map SegmentKeyModel.name (SegmentModel.keys r))
                    (SegmentModel.change_number r)))
  | None => mret None
  end.

(** [[SegmentKeyModel(name=key) for key in segment.keys]] iterates over the
    set: one member row for each key, in an order of the set's choosing. *)
Definition put (segment : Segment) : M unit :=
  rows ← gets split_segments;
  record ← lift (DbClient.get_one_or_none (named (name segment)) rows);
  let new_keys := map SegmentKeyModel.mk (elements (_keys segment)) in
  match record with
  | None =>
      modify (set_split_segments
        (DbClient.add (λ id, SegmentModel.mk id (name segment)
                               (change_number segment) new_keys) rows))
  | Some r =>
      modify (set_split_segments
        (DbClient.merge (SegmentModel.set_keys new_keys r) rows))
  end.

(** The body of [update] once [record] is at hand: the kept keys, the
    appended keys, then the change number when one is given. *)
Definition updated (to_add to_remove : list string) (change_number : option Z)
    (record : SegmentModel.t) : SegmentModel.t :=
  let kept := List.filter
                (λ key, negb (bool_decide (SegmentKeyModel.name key ∈ to_remove)))
                (SegmentModel.keys record) in
  let record := SegmentModel.set_keys (kept ++ map SegmentKeyModel.mk to_add) record in
  match change_number with
  | Some n => SegmentModel.set_change_number (Some n) record
  | None => record
  end.

Definition update (segment_name : string) (to_add to_remove : list string)
    (change_number : option Z) : M unit :=
  rows ← gets split_segments;
  record ← lift (DbClient.get_one_or_none (named segment_name) rows);
  match record with
  | None =>
      modify (set_split_segments
        (DbClient.add (λ id, updated to_add to_remove change_number
                               (SegmentModel.mk id segment_name change_number []))
                      rows))
  | Some r =>
      modify (set_split_segments
        (DbClient.merge (updated to_add to_remove change_number r) rows))
  end.

Definition get_change_number (segment_name : string) : M (option Z) :=
  segment ← get segment_name;
  match segment with
  | None => mret None
  | Some s => mret (change_number s)
  end.

Definition set_change_number (segment_name : string) (new_change_number : Z) : M unit :=
  rows ← gets split_segments;
  record ← lift (DbClient.get_one_or_none (named segment_name) rows);
  match record with
  | Some r =>
      modify (set_split_segments
        (DbClient.merge (SegmentModel.set_change_number (Some new_change_number) r) rows))
  | None => mret tt
  end.

(** The member rows whose segment is named [segment_name] and whose own
    name is [key]; [one_or_none] of them. *)
Definition segment_contains (segment_name key : string) : M bool :=
  rows ← gets split_segments;
  let members := concat (map SegmentModel.keys (List.filter (named segment_name) rows)) in
  found ← lift (DbClient.one_or_none
                  (List.filter (λ k, String.eqb (SegmentKeyModel.name k) key) members));
  mret (match found with Some _ => true | None => false end).

End SqlSegmentStorage.

(** ** SqlMySegmentsStorage (storage/sql.py) *)
Module SqlMySegmentsStorage.

(** How a call that reads attributes ends. *)
Inductive outcome (A : Type) : Type :=
  | Value (a : A)
  | AttributeError (attribute : string).
Arguments Value {A} a.
Arguments AttributeError {A} attribute.

(** [[record.<attribute> for record in records]]: the first access that
    fails ends the comprehension. *)
Fixpoint attributes (attribute : string) (records : list MySegmentModel.t)
    : outcome (list pyobject) :=
  match records with
  | [] => Value []
  | record :: records' =>
      match MySegmentModel.getattr attribute record with
      | None => AttributeError attribute
      | Some v =>
          match attributes attribute records' with
          | Value vs => Value (v :: vs)
          | AttributeError a => AttributeError a
          end
      end
  end.

(** [get] reads the database and writes nothing: its outcome is a function
    of the database. *)
Definition get (traffic_key : string) (d : Db) : outcome (list pyobject) :=
  attributes "name"
    (DbClient.get_all (λ r, String.eqb (MySegmentModel.traffic_key r) traffic_key)
                      (split_my_segments d)).

Definition put (traffic_key : string) (segment_names : list string) : M unit :=
  modify (λ d, set_split_my_segments
    (DbClient.delete_all (λ r, String.eqb (MySegmentModel.traffic_key r) traffic_key)
                         (split_my_segments d)) d);;
  for_each segment_names (λ segment_name,
    modify (λ d, set_split_my_segments
      (DbClient.add (λ id, MySegmentModel.mk id traffic_key segment_name)
                    (split_my_segments d)) d)).

Definition segment_contains (segment_name key : string) : M bool :=
  count ← gets (λ d,
    DbClient.get_count
      (λ r, String.eqb (MySegmentModel.traffic_key r) key
            && String.eqb (MySegmentModel.segment_name r) segment_name)
      (split_my_segments d));
  mret (count >? 0).

Definition clear : M unit :=
  modify (λ d, set_split_my_segments
                 (DbClient.delete_all (λ _, true) (split_my_segments d)) d).

End SqlMySegmentsStorage.

(** ** SqlImpressionStorage (storage/sql.py) *)
Module SqlImpressionStorage.

Record t := mk { _queue_size : Z; _table_full_hook : pyobject }.

Definition __init__ (queue_size : Z) : t := mk queue_size PyNone.

Definition set_table_full_hook (self : t) (hook : pyobject) : t :=
  if callable hook then mk (_queue_size self) hook else self.

Section Codec.
(** [json.dumps(impression)] and [Impression( *json.loads(text))]. *)
Context {Impression : Type}.
Variable dumps : Impression -> string.
Variable loads : string -> Impression.

(** The insert of one [ImpressionModel(json_data=...)]: [created_at] takes
    its default, the clock's reading at the insert. *)
Definition insert (json_data : string) : M unit :=
  created_at ← now;
  modify (λ d, set_split_impressions
    (DbClient.add (λ id, ImpressionModel.mk id created_at json_data)
                  (split_impressions d)) d).

Definition put (self : t) (impressions : list Impression) : M bool :=
  for_each impressions (λ impression, insert (dumps impression));;
  count ← gets (λ d, DbClient.get_count (λ _, true) (split_impressions d));
  (if count >? _queue_size self then call (_table_full_hook self) else mret tt);;
  mret true.

Definition pop_many (count : nat) : M (list Impression) :=
  rows ← gets split_impressions;
  let '(records, rest) :=
    DbClient.pop (Some count) (λ _, true) (Some ImpressionModel.created_at) rows in
  modify (set_split_impressions rest);;
  mret (map (λ record, loads (ImpressionModel.json_data record)) records).

Definition clear : M unit :=
  modify (λ d, set_split_impressions
                 (DbClient.delete_all (λ _, true) (split_impressions d)) d).
End Codec.
End SqlImpressionStorage.

(** ** SqlEventStorage (storage/sql.py) *)
Module SqlEventStorage.

Definition MAX_SIZE_BYTES : Z := 5 * 1024 * 1024.

Record t := mk { _queue_size : Z; _table_full_hook : pyobject }.

Definition __init__ (queue_size : Z) : t := mk queue_size PyNone.

Definition set_table_full_hook (self : t) (hook : pyobject) : t :=
  if callable hook then mk (_queue_size self) hook else self.

Section Codec.
(** [json.dumps(event.event)] and [Event( *json.loads(text))]; an
    [EventWrapper] is the pair of an event and its size. *)
Context {Event : Type}.
Variable dumps : Event -> string.
Variable loads : string -> Event.

Definition insert (json_data : string) (size : Z) : M unit :=
  created_at ← now;
  modify (λ d, set_split_events
    (DbClient.add (λ id, EventModel.mk id created_at json_data size)
                  (split_events d)) d).

(** [sum(event.size for event in get_all(EventModel))]. *)
Definition total_size (rows : list EventModel.t) : Z :=
  foldr Z.add 0 (map EventModel.size (DbClient.get_all (λ _, true) rows)).

Definition put (self : t) (events : list (Event * Z)) : M bool :=
  for_each events (λ event, insert (dumps (fst event)) (snd event));;
  count ← gets (λ d, DbClient.get_count (λ _, true) (split_events d));
  total ← gets (λ d, total_size (split_events d));
  (if (count >? _queue_size self) || (total >=? MAX_SIZE_BYTES)
   then call (_table_full_hook self) else mret tt);;
  mret true.

Definition pop_many (count : nat) : M (list Event) :=
  rows ← gets split_events;
  let '(records, rest) :=
    DbClient.pop (Some count) (λ _, true) (Some EventModel.created_at) rows in
  modify (set_split_events rest);;
  mret (map (λ record, loads (EventModel.json_data record)) records).

Definition clear : M unit :=
  modify (λ d, set_split_events
                 (DbClient.delete_all (λ _, true) (split_events d)) d).
End Codec.
End SqlEventStorage.

(** ** Sequential histories of queue calls

    A caller issues [put] and [pop_many] calls one after the other; the
    reference behaviour is that of a first-in first-out queue. *)
Inductive queue_call (X : Type) : Type :=
  | Put (items : list X)
  | PopMany (count : nat).
Arguments Put {X} items.
Arguments PopMany {X} count.

(** What each [PopMany] of a history returns when the store is a FIFO queue
    holding [queue], oldest first; [payload] is the part of a stored entry
    that a pop gives back. *)
Fixpoint fifo {X A} (payload : X -> A) (queue : list A)
    (history : list (queue_call X)) : list (list A) :=
  match history with
  | [] => []
  | Put items :: rest => fifo payload (queue ++ map payload items) rest
  | PopMany count :: rest => take count queue :: fifo payload (drop count queue) rest
  end.

(** The entries put by a history, in order. *)
Fixpoint entries_put {X A} (payload : X -> A) (history : list (queue_call X)) : list A :=
  match history with
  | [] => []
  | Put items :: rest => map payload items ++ entries_put payload rest
  | PopMany _ :: rest => entries_put payload rest
  end.

(** The calls of a history issued one after the other, each on the world the
    previous one left, whatever its outcome; the outcomes of the [pop_many]
    calls are collected. *)
Fixpoint impression_history {A} (dumps : A -> string) (loads : string -> A)
    (self : SqlImpressionStorage.t) (history : list (queue_call A)) (w : World)
    : list (result (list A)) * World :=
  match history with
  | [] => ([], w)
  | Put items :: rest =>
      impression_history dumps loads self rest
        (snd (SqlImpressionStorage.put dumps self items w))
  | PopMany count :: rest =>
      let '(popped, w1) := SqlImpressionStorage.pop_many loads count w in
      let '(later, w2) := impression_history dumps loads self rest w1 in
      (popped :: later, w2)
  end.

Fixpoint event_history {A} (dumps : A -> string) (loads : string -> A)
    (self : SqlEventStorage.t) (history : list (queue_call (A * Z))) (w : World)
    : list (result (list A)) * World :=
  match history with
  | [] => ([], w)
  | Put items :: rest =>
      event_history dumps loads self rest
        (snd (SqlEventStorage.put dumps self items w))
  | PopMany count :: rest =>
      let '(popped, w1) := SqlEventStorage.pop_many loads count w in
      let '(later, w2) := event_history dumps loads self rest w1 in
      (popped :: later, w2)
  end.

(** A wall clock that is never set back: a later reading is not below an
    earlier one (two readings may be equal). *)
Definition never_set_back (clock : nat -> Z) : Prop :=
  ∀ i j : nat, (i <= j)%nat -> clock i <= clock j.

(** ** Sequential histories of storage calls

    A caller of a storage issues its calls one after the other.  A history
    runs in the monad: a call that raises or never returns ends it, so a
    history that returns is one whose every call returned. *)

(** Calls that write to the split storage. *)
Inductive split_call (Split : Type) : Type :=
  | SplitPut (split : Split)
  | SplitRemove (split_name : string)
  | SplitSetChangeNumber (new_change_number : Z).
Arguments SplitPut {Split} split.
Arguments SplitRemove {Split} split_name.
Arguments SplitSetChangeNumber {Split} new_change_number.

Definition split_call_run {Split : Type}
    (split_name split_traffic_type_name dumps_to_json : Split -> string)
    (from_raw_loads : string -> Split) (c : split_call Split) : M unit :=
  match c with
  | SplitPut split =>
      SqlSplitStorage.put split_name split_traffic_type_name dumps_to_json split
  | SplitRemove name => SqlSplitStorage.remove from_raw_loads name;; mret tt
  | SplitSetChangeNumber n => SqlSplitStorage.set_change_number n
  end.

(** Calls that write to the segment storage. *)
Inductive segment_call : Type :=
  | SegmentPut (segment : SqlSegmentStorage.Segment)
  | SegmentUpdate (segment_name : string) (to_add to_remove : list string)
                  (change_number : option Z)
  | SegmentSetChangeNumber (segment_name : string) (new_change_number : Z).

Definition segment_call_run (c : segment_call) : M unit :=
  match c with
  | SegmentPut segment => SqlSegmentStorage.put segment
  | SegmentUpdate segment_name to_add to_remove change_number =>
      SqlSegmentStorage.update segment_name to_add to_remove change_number
  | SegmentSetChangeNumber segment_name new_change_number =>
      SqlSegmentStorage.set_change_number segment_name new_change_number
  end.

(** Calls of the telemetry storage; what a pop returns inside a history is
    dropped. *)
Inductive telemetry_call : Type :=
  | IncLatency (name : string) (bucket : Z)
  | IncCounter (name : string)
  | PutGauge (name : string) (value : Z)
  | PopLatencies
  | PopCounters
  | PopGauges
  | Clear.

Definition telemetry_call_run (c : telemetry_call) : M unit :=
  match c with
  | IncLatency name bucket => SqlTelemetryStorage.inc_latency name bucket
  | IncCounter name => SqlTelemetryStorage.inc_counter name
  | PutGauge name value => SqlTelemetryStorage.put_gauge name value
  | PopLatencies => SqlTelemetryStorage.pop_latencies;; mret tt
  | PopCounters => SqlTelemetryStorage.pop_counters;; mret tt
  | PopGauges => SqlTelemetryStorage.pop_gauges;; mret tt
  | Clear => SqlTelemetryStorage.clear
  end.

(** ** Parallel writers of the split storage

    [put] and [remove] run their body under [self._lock], and every
    [DbClient] method the body calls runs alone under [db_session].  A thread
    calling [put] or [remove] therefore goes through the points below;
    [set_change_number] is one [DbClient] call and takes no storage lock.  The
    threads of a process interleave at these points in any order. *)
Module Writers.

(** Where a thread stands in [put] or [remove]. *)
Inductive pc : Type :=
  | Start                                 (* before [with self._lock] *)
  | Locked                                (* lock taken, before the stored record is queried *)
  | Found (record : option SplitModel.t)  (* the query returned, before the write *)
  | Written                               (* the write is committed, before the lock is released *)
  | Done
  | Failed (e : exn).                     (* the query raised; the lock was released *)

Record system := mkSystem {
  database : Db;
  storage_lock : bool;                    (* [SqlSplitStorage._lock] is held *)
  threads : list pc }.

(** [n] threads about to make their call. *)
Definition init (n : nat) (d : Db) : system := mkSystem d false (replicate n Start).

Definition at_pc (i : nat) (p : pc) (s : system) : list pc := <[i := p]> (threads s).

Section Splits.
Context {Split : Type}.
Variable split_name : Split -> string.
Variable split_traffic_type_name : Split -> string.
Variable dumps_to_json : Split -> string.

(** The name whose record a call queries. *)
Definition queried (c : split_call Split) : string :=
  match c with
  | SplitPut split => split_name split
  | SplitRemove name => name
  | SplitSetChangeNumber _ => ""
  end.

(** One step of thread [i], which makes the [i]-th call of [calls].  A
    thread that cannot move (it waits for the lock, or it is through) leaves
    the system as it is. *)
Definition thread_step (calls : list (split_call Split)) (i : nat) (s : system) : system :=
  match calls !! i, threads s !! i with
  | Some (SplitSetChangeNumber n), Some Start =>
      mkSystem (mkDb (split_splits (database s))
                     (<["change_number"%string := n]> (split_metadata (database s)))
                     (split_segments (database s)) (split_my_segments (database s))
                     (split_impressions (database s)) (split_events (database s))
                     (split_latencies (database s)) (split_counters (database s))
                     (split_gauges (database s)))
               (storage_lock s) (at_pc i Done s)
  | Some (SplitSetChangeNumber _), Some _ => s
  | Some _, Some Start =>
      if storage_lock s then s
      else mkSystem (database s) true (at_pc i Locked s)
  | Some c, Some Locked =>
      match DbClient.get_one_or_none
              (λ r, String.eqb (SplitModel.name r) (queried c))
              (split_splits (database s)) with
      | Returned record => mkSystem (database s) true (at_pc i (Found record) s)
      | Raised e => mkSystem (database s) false (at_pc i (Failed e) s)
      | Blocked => s
      end
  | Some (SplitPut split), Some (Found None) =>
      mkSystem (set_split_splits
                  (DbClient.add (λ id, SplitModel.mk id (split_name split)
                                         (split_traffic_type_name split)
                                         (dumps_to_json split))
                                (split_splits (database s))) (database s))
               true (at_pc i Written s)
  | Some (SplitPut split), Some (Found (Some r)) =>
      mkSystem (set_split_splits
                  (DbClient.merge (SplitModel.mk (SplitModel.id r) (SplitModel.name r)
                                                 (split_traffic_type_name split)
                                                 (dumps_to_json split))
                                  (split_splits (database s))) (database s))
               true (at_pc i Written s)
  | Some (SplitRemove name), Some (Found None) =>
      mkSystem (database s) false (at_pc i Done s)
  | Some (SplitRemove name), Some (Found (Some _)) =>
      mkSystem (set_split_splits
                  (DbClient.delete_all (λ r, String.eqb (SplitModel.name r) name)
                                       (split_splits (database s))) (database s))
               true (at_pc i Written s)
  | Some _, Some Written => mkSystem (database s) false (at_pc i Done s)
  | _, _ => s
  end.

(** The system after the threads moved in the order of [schedule]. *)
Definition run (calls : list (split_call Split)) (schedule : list nat) (s : system)
    : system :=
  foldl (λ s i, thread_step calls i s) s schedule.
End Splits.

Definition all_done (s : system) : Prop := Forall (λ p, p = Done) (threads s).

End Writers.

(** ** Parallel callers of [increment_or_create]

    [db_session] wraps every [DbClient] method: a thread that has no session
    takes the process-wide [_db_session_lock], opens a session, runs the
    method, closes the session and releases the lock.  A thread calling
    [inc_counter] therefore goes through the points below; the threads of a
    process interleave at these points in any order.  The steps between two
    points are those of [DbClient.increment_or_create]: the query, the insert
    of a new row, the increment of the row at hand. *)
Module Parallel.

(** Where a thread stands in [increment_or_create] under [db_session]. *)
Inductive pc : Type :=
  | Start                 (* before [with _db_session_lock] *)
  | Query                 (* lock taken, before [one_or_none] *)
  | Insert                (* [record is None], before [add] and [commit] *)
  | Increment (id : Z)    (* record with key [id] at hand, before [setattr] and [commit] *)
  | Release               (* before the session is closed and the lock released *)
  | Done
  | Failed (e : exn).     (* the method raised; the lock was released *)

Record system := mkSystem {
  counters : list CounterModel.t;     (* the table split_counters *)
  session_lock : bool;                (* [_db_session_lock] is held *)
  threads : list pc }.

(** [n] threads about to call [inc_counter]. *)
Definition init (n : nat) (rows : list CounterModel.t) : system :=
  mkSystem rows false (replicate n Start).

Definition at_pc (i : nat) (p : pc) (s : system) : list pc := <[i := p]> (threads s).

(** One step of thread [i] calling [inc_counter(name)].  A thread that
    cannot move (it waits for the lock, or it is through) leaves the system
    as it is. *)
Definition thread_step (name : string) (i : nat) (s : system) : system :=
  match threads s !! i with
  | Some Start =>
      if session_lock s then s
      else mkSystem (counters s) true (at_pc i Query s)
  | Some Query =>
      match DbClient.get_one_or_none
              (λ r, String.eqb (CounterModel.name r) name) (counters s) with
      | Returned None => mkSystem (counters s) true (at_pc i Insert s)
      | Returned (Some record) =>
          mkSystem (counters s) true (at_pc i (Increment (pk record)) s)
      | Raised e => mkSystem (counters s) false (at_pc i (Failed e) s)
      | Blocked => s
      end
  | Some Insert =>
      mkSystem (DbClient.add (CounterModel.create name) (counters s)) true
               (at_pc i (Increment (DbClient.fresh_pk (counters s))) s)
  | Some (Increment id) =>
      mkSystem (DbClient.update_where_pk id CounterModel.increment_value (counters s))
               true (at_pc i Release s)
  | Some Release => mkSystem (counters s) false (at_pc i Done s)
  | Some Done | Some (Failed _) | None => s
  end.

(** The system after the threads moved in the order of [schedule]. *)
Definition run (name : string) (schedule : list nat) (s : system) : system :=
  foldl (λ s i, thread_step name i s) s schedule.

Definition is_done (p : pc) : bool :=
  match p with Done => true | _ => false end.

Definition all_done (s : system) : Prop := Forall (λ p, p = Done) (threads s).

End Parallel.

(** ** Parallel callers of [increment_or_create], insert by insert

    [increment_or_create] is written for an engine that may refuse the insert
    of the new row because a competing writer has created the row in the
    meantime: it catches the failure and reads the row again.  The machine
    below follows a thread through this branch as well.  [rejects rows record]
    is the engine's verdict on the insert of [record] into the table [rows].
    The points are those of [Parallel], with [Recover] for the [except]
    branch. *)
Module Racing.

(** The engine of the schema as adapters/sql.py declares it: the key of a
    new row is fresh and no other column of [split_counters] is constrained,
    so that no insert is refused. *)
Definition unconstrained : list CounterModel.t -> CounterModel.t -> bool :=
  λ _ _, false.

(** An engine whose table has a uniqueness constraint on [name]. *)
Definition unique_name : list CounterModel.t -> CounterModel.t -> bool :=
  λ rows record, bool_decide (CounterModel.name record ∈ map CounterModel.name rows).

(** Where a thread stands in [increment_or_create] under [db_session]. *)
Inductive pc : Type :=
  | Start                 (* before [with _db_session_lock] *)
  | Query                 (* lock taken, before [one_or_none] *)
  | Insert                (* [record is None], before [add] and [commit] *)
  | Recover               (* the insert raised, before [one] in the [except] branch *)
  | Increment (id : Z)    (* record with key [id] at hand, before [setattr] and [commit] *)
  | Release               (* before the session is closed and the lock released *)
  | Done
  | Failed (e : exn).     (* the method raised; the lock was released *)

Record system := mkSystem {
  counters : list CounterModel.t;     (* the table split_counters *)
  session_lock : bool;                (* [_db_session_lock] is held *)
  threads : list pc }.

(** [n] threads about to call [inc_counter]. *)
Definition init (n : nat) (rows : list CounterModel.t) : system :=
  mkSystem rows false (replicate n Start).

Definition at_pc (i : nat) (p : pc) (s : system) : list pc := <[i := p]> (threads s).

(** One step of thread [i] calling [inc_counter(name)].  A thread that
    cannot move (it waits for the lock, or it is through) leaves the system
    as it is. *)
Definition thread_step (rejects : list CounterModel.t -> CounterModel.t -> bool)
    (name : string) (i : nat) (s : system) : system :=
  match threads s !! i with
  | Some Start =>
      if session_lock s then s
      else mkSystem (counters s) true (at_pc i Query s)
  | Some Query =>
      match DbClient.get_one_or_none
              (λ r, String.eqb (CounterModel.name r) name) (counters s) with
      | Returned None => mkSystem (counters s) true (at_pc i Insert s)
      | Returned (Some record) =>
          mkSystem (counters s) true (at_pc i (Increment (pk record)) s)
      | Raised e => mkSystem (counters s) false (at_pc i (Failed e) s)
      | Blocked => s
      end
  | Some Insert =>
      let record := CounterModel.create name (DbClient.fresh_pk (counters s)) in
      if rejects (counters s) record
      then mkSystem (counters s) true (at_pc i Recover s)
      else mkSystem (DbClient.add (CounterModel.create name) (counters s)) true
                    (at_pc i (Increment (pk record)) s)
  | Some Recover =>
      match DbClient.one
              (List.filter (λ r, String.eqb (CounterModel.name r) name) (counters s)) with
      | Returned record =>
          mkSystem (counters s) true (at_pc i (Increment (pk record)) s)
      | Raised e => mkSystem (counters s) false (at_pc i (Failed e) s)
      | Blocked => s
      end
  | Some (Increment id) =>
      mkSystem (DbClient.update_where_pk id CounterModel.increment_value (counters s))
               true (at_pc i Release s)
  | Some Release => mkSystem (counters s) false (at_pc i Done s)
  | Some Done | Some (Failed _) | None => s
  end.

(** The system after the threads moved in the order of [schedule]. *)
Definition run (rejects : list CounterModel.t -> CounterModel.t -> bool)
    (name : string) (schedule : list nat) (s : system) : system :=
  foldl (λ s i, thread_step rejects name i s) s schedule.

Definition is_done (p : pc) : bool :=
  match p with Done => true | _ => false end.

Definition all_done (s : system) : Prop := Forall (λ p, p = Done) (threads s).

End Racing.

(** * Vocabulary of the properties *)

(** Unfolding the monad. *)
Ltac run_M :=
  unfold mbind, M_bind, mret, M_ret, gets, modify, lift, raise; simpl.

(** ** Worlds that differ from [w] in one table *)

Definition with_counters (rows : list CounterModel.t) (w : World) : World :=
  set_db (set_split_counters rows (db w)) w.

Definition with_latencies (rows : list LatencyModel.t) (w : World) : World :=
  set_db (set_split_latencies rows (db w)) w.

Definition with_impressions (rows : list ImpressionModel.t) (w : World) : World :=
  set_db (set_split_impressions rows (db w)) w.

Definition with_events (rows : list EventModel.t) (w : World) : World :=
  set_db (set_split_events rows (db w)) w.

(** The world after the rows [new] were inserted by [n] inserts, each of
    which read the clock once. *)
Definition impressions_added (new : list ImpressionModel.t) (n : nat) (w : World) : World :=
  mkWorld (set_split_impressions (split_impressions (db w) ++ new) (db w))
          (wall_clock w) (clock_calls w + n) (hook_calls w) (lock_held w).

Definition events_added (new : list EventModel.t) (n : nat) (w : World) : World :=
  mkWorld (set_split_events (split_events (db w) ++ new) (db w))
          (wall_clock w) (clock_calls w + n) (hook_calls w) (lock_held w).

(** The world after the hook [f] ran. *)
Definition hook_called (f : string) (w : World) : World :=
  mkWorld (db w) (wall_clock w) (clock_calls w) (hook_calls w ++ [f]) (lock_held w).

(** ** Filters by name *)

Definition counter_named (name : string) (r : CounterModel.t) : bool :=
  String.eqb (CounterModel.name r) name.

Definition latency_named (name : string) (r : LatencyModel.t) : bool :=
  String.eqb (LatencyModel.name r) name.

Definition split_named (name : string) (r : SplitModel.t) : bool :=
  String.eqb (SplitModel.name r) name.

(** ** Latency buckets *)

(** The bucket numbers [inc_latency] accepts. *)
Definition in_range (b : Z) : bool := (0 <=? b) && (b <=? 21).

(** How often bucket [b] occurs among the calls [bs]. *)
Definition occurrences (b : Z) (bs : list Z) : Z :=
  Z.of_nat (length (List.filter (Z.eqb b) bs)).

(** The row after the increments [bs], in order. *)
Definition incremented (bs : list Z) (r : LatencyModel.t) : LatencyModel.t :=
  foldl (λ r b, LatencyModel.increment_bucket b r) r bs.

(** ** Queue tables *)

(** A queue table in good order at the clock reading [bound]: the stamps do
    not decrease along the table, none is above [bound], and the keys are
    distinct. *)
Definition queue_ok {R : Type} `{Model R} (created_at : R -> Z) (bound : Z)
    (rows : list R) : Prop :=
  StronglySorted (DbClient.asc created_at) rows
  ∧ Forall (λ r, created_at r <= bound) rows
  ∧ NoDup (map pk rows).

(** ** Segment members *)

(** The member names of a segment record, as a set. *)
Definition members (r : SegmentModel.t) : gset string :=
  list_to_set (map SegmentKeyModel.name (SegmentModel.keys r)).

(** ** The invariant of parallel [inc_counter] calls

    [old] is the counter table before the calls, which has no row of [name]. *)

(** An engine that refuses an insert only when the insert lost a race: a row
    of the new record's name is stored already. *)
Definition refuses_only_conflicts
    (rejects : list CounterModel.t -> CounterModel.t -> bool) : Prop :=
  ∀ (rows : list CounterModel.t) (record : CounterModel.t),
    rejects rows record = true ->
    ∃ r : CounterModel.t, r ∈ rows ∧ CounterModel.name r = CounterModel.name record.

(** A thread outside [db_session]. *)
Definition idle (p : Racing.pc) : Prop := p = Racing.Start ∨ p = Racing.Done.

(** The calls that are through. *)
Definition calls_through (ps : list Racing.pc) : nat :=
  length (List.filter Racing.is_done ps).

(** The counter row of [name] once [k] increments are committed. *)
Definition row (old : list CounterModel.t) (name : string) (k : nat) : CounterModel.t :=
  CounterModel.mk (DbClient.fresh_pk old) name (Z.of_nat k).

(** The table once [k] calls are through. *)
Definition table (old : list CounterModel.t) (name : string) (k : nat)
    : list CounterModel.t :=
  match k with
  | O => old
  | S _ => old ++ [row old name k]
  end.

(** Where the thread inside [db_session] stands, and the table it works on,
    when [k] calls are through.  It is never at [Recover]. *)
Inductive critical (old : list CounterModel.t) (name : string) (k : nat)
    : Racing.pc -> list CounterModel.t -> Prop :=
  | critical_query : critical old name k Racing.Query (table old name k)
  | critical_insert : k = O -> critical old name k Racing.Insert old
  | critical_increment :
      critical old name k (Racing.Increment (DbClient.fresh_pk old))
        (old ++ [row old name k])
  | critical_release :
      critical old name k Racing.Release (old ++ [row old name (S k)]).

Definition invariant (old : list CounterModel.t) (name : string)
    (s : Racing.system) : Prop :=
  if Racing.session_lock s
  then ∃ (i : nat) (p : Racing.pc),
         Racing.threads s !! i = Some p
         ∧ critical old name (calls_through (Racing.threads s)) p (Racing.counters s)
         ∧ ∀ (j : nat) (q : Racing.pc),
             j ≠ i -> Racing.threads s !! j = Some q -> idle q
  else Forall idle (Racing.threads s)
       ∧ Racing.counters s = table old name (calls_through (Racing.threads s)).

(** The steps a thread at [p] has left, at most. *)
Definition steps_left (p : Racing.pc) : nat :=
  match p with
  | Racing.Start => 6
  | Racing.Query => 5
  | Racing.Insert => 4
  | Racing.Recover => 3
  | Racing.Increment _ => 2
  | Racing.Release => 1
  | Racing.Done | Racing.Failed _ => 0
  end.

Definition work_left (ps : list Racing.pc) : nat :=
  foldr (λ p n, (steps_left p + n)%nat) O ps.

(** ** Tables keyed by a name

    The split, segment, counter, gauge and latency tables hold one row for
    each name.  [table_of name value rows m] says that [rows] is such a
    table and that [m] maps every name to what [value] reads in its row: the
    rows of a name are the one row of [m]'s entry, or none, and the keys are
    distinct. *)
Definition keyed_by {R : Type} (name : R -> string) (n : string) (r : R) : bool :=
  String.eqb (name r) n.

Definition table_of {R V : Type} `{Model R} (name : R -> string) (value : R -> V)
    (rows : list R) (m : gmap string V) : Prop :=
  NoDup (map pk rows)
  ∧ ∀ n : string, map value (List.filter (keyed_by name n) rows) = option_list (m !! n).

(** ** What a history leaves stored *)

(** The splits stored after a history, by name. *)
Definition split_call_stored {Split : Type} (split_name : Split -> string)
    (m : gmap string Split) (c : split_call Split) : gmap string Split :=
  match c with
  | SplitPut split => <[split_name split := split]> m
  | SplitRemove name => delete name m
  | SplitSetChangeNumber _ => m
  end.

Definition stored_splits {Split : Type} (split_name : Split -> string)
    (calls : list (split_call Split)) : gmap string Split :=
  foldl (split_call_stored split_name) ∅ calls.

(** The change number set last, 0 when none was. *)
Definition last_change_number {Split : Type} (calls : list (split_call Split)) : Z :=
  foldl (λ z c, match c with SplitSetChangeNumber n => n | _ => z end) 0 calls.

(** What the split table keeps of a split. *)
Definition split_row {Split : Type} (split_traffic_type_name dumps_to_json : Split -> string)
    (split : Split) : string * string :=
  (split_traffic_type_name split, dumps_to_json split).

Definition split_value (r : SplitModel.t) : string * string :=
  (SplitModel.traffic_type_name r, SplitModel.json_data r).

(** The split table of [w] holds the splits [m]. *)
Definition splits_of {Split : Type} (split_traffic_type_name dumps_to_json : Split -> string)
    (w : World) (m : gmap string Split) : Prop :=
  table_of SplitModel.name split_value (split_splits (db w))
    (split_row split_traffic_type_name dumps_to_json <$> m).

(** The change number that [get_change_number] reads in [w]. *)
Definition change_number_of (w : World) : Z :=
  match split_metadata (db w) !! "change_number"%string with
  | Some number => number
  | None => 0
  end.

(** The segments stored after a history: the member names, in the order of
    the member rows, and the change number.  [put] stores every key of the
    given segment once. *)
Definition segment_call_stored (m : gmap string (list string * option Z))
    (c : segment_call) : gmap string (list string * option Z) :=
  match c with
  | SegmentPut segment =>
      let n := SqlSegmentStorage.name segment in
      match m !! n with
      | Some (_, stored_change_number) =>
          <[n := (elements (SqlSegmentStorage._keys segment), stored_change_number)]> m
      | None =>
          <[n := (elements (SqlSegmentStorage._keys segment),
                  SqlSegmentStorage.change_number segment)]> m
      end
  | SegmentUpdate n to_add to_remove change_number =>
      let '(keys, stored_change_number) := default ([], change_number) (m !! n) in
      <[n := (List.filter (λ key, negb (bool_decide (key ∈ to_remove))) keys ++ to_add,
              match change_number with
              | Some z => Some z
              | None => stored_change_number
              end)]> m
  | SegmentSetChangeNumber n new_change_number =>
      match m !! n with
      | Some (keys, _) => <[n := (keys, Some new_change_number)]> m
      | None => m
      end
  end.

Definition stored_segments (calls : list segment_call)
    : gmap string (list string * option Z) :=
  foldl segment_call_stored ∅ calls.

Definition segment_value (r : SegmentModel.t) : list string * option Z :=
  (map SegmentKeyModel.name (SegmentModel.keys r), SegmentModel.change_number r).

(** The segment table of [w] holds the segments [m]. *)
Definition segments_of (w : World) (m : gmap string (list string * option Z)) : Prop :=
  table_of SegmentModel.name segment_value (split_segments (db w)) m.

(** The segment that [get] builds from a name and what is stored under it. *)
Definition segment_of (segment_name : string) (stored : list string * option Z)
    : SqlSegmentStorage.Segment :=
  SqlSegmentStorage.mkSegment segment_name (fst stored) (snd stored).

(** How often [key] occurs in a list of member names. *)
Definition multiplicity (key : string) (keys : list string) : nat :=
  length (List.filter (String.eqb key) keys).

(** The counters, gauges and histograms accumulated by a history since the
    last drain: a pop drains its own table, [clear] all three. *)
Definition counted (m : gmap string Z) (c : telemetry_call) : gmap string Z :=
  match c with
  | IncCounter name => <[name := default 0 (m !! name) + 1]> m
  | PopCounters | Clear => ∅
  | _ => m
  end.

Definition gauged (m : gmap string Z) (c : telemetry_call) : gmap string Z :=
  match c with
  | PutGauge name value => <[name := value]> m
  | PopGauges | Clear => ∅
  | _ => m
  end.

Definition timed (m : gmap string (list Z)) (c : telemetry_call) : gmap string (list Z) :=
  match c with
  | IncLatency name bucket =>
      if in_range bucket
      then <[name := alter (λ v, v + 1) (Z.to_nat bucket)
                       (default (replicate 22 0) (m !! name))]> m
      else m
  | PopLatencies | Clear => ∅
  | _ => m
  end.

(** The telemetry tables of [w] hold the counters [c], the gauges [g] and
    the histograms [l]. *)
Definition telemetry_of (w : World) (c g : gmap string Z) (l : gmap string (list Z))
    : Prop :=
  table_of CounterModel.name CounterModel.value (split_counters (db w)) c
  ∧ table_of GaugeModel.name GaugeModel.value (split_gauges (db w)) g
  ∧ table_of LatencyModel.name LatencyModel.buckets (split_latencies (db w)) l.

(** ** Parallel callers seen as sequential ones *)

(** The calls that are through. *)
Definition done_count (ps : list Parallel.pc) : nat :=
  length (List.filter Parallel.is_done ps).

(** A thread inside [db_session]: it holds [_db_session_lock]. *)
Definition in_session (p : Parallel.pc) : bool :=
  match p with
  | Parallel.Query | Parallel.Insert | Parallel.Increment _ | Parallel.Release => true
  | Parallel.Start | Parallel.Done | Parallel.Failed _ => false
  end.

(** [increment_or_create] as [inc_counter name] calls it. *)
Definition counter_increment (name : string) (rows : list CounterModel.t)
    : result (list CounterModel.t) :=
  DbClient.increment_or_create CounterModel.increment_value
    (λ r, String.eqb (CounterModel.name r) name) (CounterModel.create name) rows.

(** The table after one sequential [inc_counter name]: a call that raises
    leaves the table as it is. *)
Definition served (name : string) (rows : list CounterModel.t) : list CounterModel.t :=
  match counter_increment name rows with
  | Returned rows' => rows'
  | _ => rows
  end.

(** Where the thread inside [db_session] stands and the table it works on,
    [before] being the table it found. *)
Inductive in_progress (name : string) (before : list CounterModel.t)
    : Parallel.pc -> list CounterModel.t -> Prop :=
  | at_query : in_progress name before Parallel.Query before
  | at_insert :
      List.filter (λ r, String.eqb (CounterModel.name r) name) before = [] ->
      in_progress name before Parallel.Insert before
  | at_increment (id : Z) (rows : list CounterModel.t) :
      counter_increment name before =
        Returned (DbClient.update_where_pk id CounterModel.increment_value rows) ->
      in_progress name before (Parallel.Increment id) rows
  | at_release (rows : list CounterModel.t) :
      counter_increment name before = Returned rows ->
      in_progress name before Parallel.Release rows.

(** The state of the parallel callers is one that sequential callers reach:
    with [k] calls through, the table is the one that [k] sequential calls
    leave, but for the call of the one thread inside [db_session]. *)
Definition serialised (name : string) (rows : list CounterModel.t)
    (s : Parallel.system) : Prop :=
  let k := done_count (Parallel.threads s) in
  match k with
  | O => True
  | S k' => ∃ rows', counter_increment name (Nat.iter k' (served name) rows) = Returned rows'
  end
  ∧ if Parallel.session_lock s
    then ∃ (i : nat) (p : Parallel.pc),
           Parallel.threads s !! i = Some p
           ∧ in_progress name (Nat.iter k (served name) rows) p (Parallel.counters s)
           ∧ ∀ (j : nat) (q : Parallel.pc),
               j ≠ i -> Parallel.threads s !! j = Some q -> in_session q = false
    else Forall (λ p, in_session p = false) (Parallel.threads s)
         ∧ Parallel.counters s = Nat.iter k (served name) rows.

(** ** Parallel writers seen as sequential ones *)

(** A thread whose call has had its effect on the database. *)
Definition effected (p : Writers.pc) : bool :=
  match p with
  | Writers.Written | Writers.Done => true
  | _ => false
  end.

(** A thread that holds the storage's lock. *)
Definition holding (p : Writers.pc) : bool :=
  match p with
  | Writers.Locked | Writers.Found _ | Writers.Written => true
  | _ => false
  end.

(** The calls of the threads [served], in that order. *)
Definition calls_of {Split : Type} (calls : list (split_call Split)) (served : list nat)
    : list (split_call Split) :=
  omap (λ i, calls !! i) served.

(** The state of the parallel writers is one that sequential callers reach:
    the database is the one left by the calls that had their effect, made one
    after the other in the order [served], and the one thread that holds the
    lock, if any, works on the record it found. *)
Definition linearised {Split : Type}
    (split_name split_traffic_type_name dumps_to_json : Split -> string)
    (from_raw_loads : string -> Split) (calls : list (split_call Split))
    (d0 : Db) (clock : nat -> Z) (s : Writers.system) (served : list nat) : Prop :=
  NoDup served
  ∧ (∀ i : nat, i ∈ served ↔
       ∃ p, Writers.threads s !! i = Some p ∧ effected p = true)
  ∧ for_each (calls_of calls served)
      (split_call_run split_name split_traffic_type_name dumps_to_json from_raw_loads)
      (set_db d0 (new_world clock))
    = (Returned tt, set_db (Writers.database s) (new_world clock))
  ∧ if Writers.storage_lock s
    then ∃ (i : nat) (p : Writers.pc),
           Writers.threads s !! i = Some p
           ∧ holding p = true
           ∧ (∀ (j : nat) (q : Writers.pc),
                j ≠ i -> Writers.threads s !! j = Some q -> holding q = false)
           ∧ ∀ (c : split_call Split) (record : option SplitModel.t),
               calls !! i = Some c -> p = Writers.Found record ->
               DbClient.get_one_or_none
                 (λ r, String.eqb (SplitModel.name r) (Writers.queried split_name c))
                 (split_splits (Writers.database s)) = Returned record
    else Forall (λ p, holding p = false) (Writers.threads s).

(** A call that takes the storage's lock. *)
Definition locks {Split : Type} (c : split_call Split) : bool :=
  match c with
  | SplitSetChangeNumber _ => false
  | _ => true
  end.

(** Every thread has a call, none has failed, and the threads that hold the
    lock make a call that takes it. *)
Definition sound {Split : Type} (calls : list (split_call Split)) (s : Writers.system)
    : Prop :=
  length (Writers.threads s) = length calls
  ∧ Forall (λ p, ∀ e, p ≠ Writers.Failed e) (Writers.threads s)
  ∧ ∀ (i : nat) (p : Writers.pc),
      Writers.threads s !! i = Some p -> holding p = true ->
      ∃ c, calls !! i = Some c ∧ locks c = true.

(** The steps a writer at [p] has left, at most. *)
Definition writer_steps_left (p : Writers.pc) : nat :=
  match p with
  | Writers.Start => 4
  | Writers.Locked => 3
  | Writers.Found _ => 2
  | Writers.Written => 1
  | Writers.Done | Writers.Failed _ => 0
  end.

Definition writers_work_left (ps : list Writers.pc) : nat :=
  foldr (λ p n, (writer_steps_left p + n)%nat) O ps.

(** * Properties *)

(** ** Tables and keys *)
Section TableFacts.
Context {R : Type} `{Model R}.

Lemma filter_all (rows : list R) : List.filter (λ _, true) rows = rows.
Proof. induction rows as [|r rows IH]; simpl; [done | by rewrite IH]. Qed.

Lemma filter_none (f : R -> bool) (rows : list R) :
  Forall (λ r, f r = false) rows -> List.filter f rows = [].
Proof.
  induction 1 as [|r rows Hr _ IH]; simpl; [done | by rewrite Hr].
Qed.

Lemma pk_below_fresh (rows : list R) :
  Forall (λ r, pk r < DbClient.fresh_pk rows) rows.
Proof.
  unfold DbClient.fresh_pk.
  induction rows as [|r rows IH]; simpl; constructor; [lia|].
  eapply Forall_impl; [exact IH | simpl; intros; lia].
Qed.

Lemma update_where_pk_other (k : Z) (f : R -> R) (rows : list R) :
  Forall (λ r, pk r ≠ k) rows -> DbClient.update_where_pk k f rows = rows.
Proof.
  unfold DbClient.update_where_pk.
  induction 1 as [|r rows Hr _ IH]; simpl; [done|].
  rewrite IH. destruct (Z.eqb_spec (pk r) k); [done | reflexivity].
Qed.

Lemma update_where_pk_last (f : R -> R) (rows : list R) (r : R) :
  Forall (λ x, pk x < pk r) rows ->
  DbClient.update_where_pk (pk r) f (rows ++ [r]) = rows ++ [f r].
Proof.
  intros Hlt. unfold DbClient.update_where_pk. rewrite map_app. simpl.
  rewrite Z.eqb_refl. f_equal.
  apply (update_where_pk_other (pk r) f).
  eapply Forall_impl; [exact Hlt | simpl; intros; lia].
Qed.

Lemma pop_everything (rows : list R) :
  DbClient.pop None (λ _, true) None rows = (rows, []).
Proof.
  unfold DbClient.pop. rewrite filter_all. f_equal.
  apply filter_none, Forall_forall. intros r Hr.
  rewrite bool_decide_eq_true_2; [done|].
  apply list_elem_of_fmap. by exists r.
Qed.
End TableFacts.

Section MergeFacts.
Context {R : Type} `{Model R}.

(** Merging a record that was read back into a table with distinct keys: the
    rows a filter selects are the same, with the record in place of the row
    it was read from. *)
Lemma filter_merge (f : R -> bool) (rows : list R) (r r' : R) :
  NoDup (map pk rows) ->
  List.filter f rows = [r] ->
  pk r' = pk r ->
  f r' = true ->
  List.filter f (DbClient.merge r' rows) = [r'].
Proof.
  unfold DbClient.merge. intros Hnodup Hfound Hpk Hf. rewrite Hpk. clear Hpk.
  assert (In r (List.filter f rows)) as Hin by (rewrite Hfound; by left).
  apply filter_In in Hin as [Hin _].
  induction rows as [|x rows IH]; [done|].
  cbn [map] in Hnodup. apply NoDup_cons in Hnodup as [Hx Hnodup].
  cbn [DbClient.update_where_pk map List.filter] in *.
  destruct (Z.eqb_spec (pk x) (pk r)) as [Heq|Hne].
  - assert (x = r) as ->.
    { destruct Hin as [|Hin]; [done|]. destruct Hx. rewrite Heq.
      apply list_elem_of_fmap. exists r. split; [done | by apply list_elem_of_In]. }
    rewrite Hf. f_equal.
    fold (DbClient.update_where_pk (pk r) (λ _, r') rows).
    rewrite update_where_pk_other.
    + destruct (f r); [by injection Hfound | ].
      assert (In r (List.filter f rows)) as Hr by (rewrite Hfound; by left).
      apply filter_In in Hr as [Hr _]. destruct Hx.
      apply list_elem_of_fmap. exists r. split; [done | by apply list_elem_of_In].
    + apply Forall_forall. intros y Hy Hpk. destruct Hx. rewrite <- Hpk.
      apply list_elem_of_fmap. by exists y.
  - destruct Hin as [->|Hin]; [done|].
    destruct (f x) eqn:Hfx.
    + injection Hfound as -> _. done.
    + by apply IH.
Qed.
End MergeFacts.

Lemma bind_Returned {A B} (m : M A) (k : A -> M B) (w w' : World) (a : A) :
  m w = (Returned a, w') -> (m ≫= k) w = k a w'.
Proof. intros Hm. unfold mbind, M_bind. by rewrite Hm. Qed.

(** ** Telemetry: counters *)
Section Counters.
Import SqlTelemetryStorage.

Lemma no_counter_named (name : string) (rows : list CounterModel.t) :
  Forall (λ r, CounterModel.name r ≠ name) rows ->
  List.filter (counter_named name) rows = [].
Proof.
  intros Hno. apply filter_none. eapply Forall_impl; [exact Hno|].
  intros r Hr. by apply String.eqb_neq.
Qed.

Lemma inc_counter_first (w : World) (name : string) :
  Forall (λ r, CounterModel.name r ≠ name) (split_counters (db w)) ->
  inc_counter name w =
    (Returned tt,
     with_counters (split_counters (db w) ++
       [CounterModel.mk (DbClient.fresh_pk (split_counters (db w))) name 1]) w).
Proof.
  intros Hno. unfold inc_counter. run_M.
  unfold DbClient.increment_or_create.
  fold (counter_named name). rewrite (no_counter_named _ _ Hno). simpl.
  rewrite (update_where_pk_last CounterModel.increment_value _
             (CounterModel.create name _)); [done|].
  apply pk_below_fresh.
Qed.

Lemma inc_counter_next (w : World) (name : string) (old : list CounterModel.t) (k : Z) :
  Forall (λ r, CounterModel.name r ≠ name) old ->
  split_counters (db w) = old ++ [CounterModel.mk (DbClient.fresh_pk old) name k] ->
  inc_counter name w =
    (Returned tt,
     with_counters (old ++ [CounterModel.mk (DbClient.fresh_pk old) name (k + 1)]) w).
Proof.
  intros Hno Hrows. unfold inc_counter. run_M. rewrite Hrows.
  unfold DbClient.increment_or_create.
  fold (counter_named name). rewrite List.filter_app, (no_counter_named _ _ Hno).
  simpl. unfold counter_named at 1. simpl. rewrite String.eqb_refl. simpl.
  rewrite (update_where_pk_last CounterModel.increment_value old
             (CounterModel.mk (DbClient.fresh_pk old) name k)); [done|].
  apply pk_below_fresh.
Qed.

Lemma inc_counter_repeat (n : nat) (w : World) (name : string)
    (old : list CounterModel.t) (k : Z) :
  Forall (λ r, CounterModel.name r ≠ name) old ->
  split_counters (db w) = old ++ [CounterModel.mk (DbClient.fresh_pk old) name k] ->
  repeat_call n (inc_counter name) w =
    (Returned tt,
     with_counters (old ++ [CounterModel.mk (DbClient.fresh_pk old) name (k + Z.of_nat n)]) w).
Proof.
  revert w k. induction n as [|n IH]; intros w k Hno Hrows.
  - simpl. run_M. rewrite Z.add_0_r, <- Hrows. by destruct w as [[]].
  - cbn [repeat_call]. unfold mbind, M_bind.
    rewrite (inc_counter_next w name old k Hno Hrows).
    rewrite (IH _ (k + 1) Hno); [|reflexivity].
    replace (k + 1 + Z.of_nat n) with (k + Z.of_nat (S n)) by lia. reflexivity.
Qed.

Lemma inc_counter_repeat_first (n : nat) (w : World) (name : string) :
  Forall (λ r, CounterModel.name r ≠ name) (split_counters (db w)) ->
  repeat_call (S n) (inc_counter name) w =
    (Returned tt,
     with_counters (split_counters (db w) ++
       [CounterModel.mk (DbClient.fresh_pk (split_counters (db w))) name
          (Z.of_nat (S n))]) w).
Proof.
  intros Hno. cbn [repeat_call].
  rewrite (bind_Returned _ _ _ _ _ (inc_counter_first w name Hno)).
  rewrite (inc_counter_repeat n _ name (split_counters (db w)) 1 Hno); [|reflexivity].
  replace (1 + Z.of_nat n) with (Z.of_nat (S n)) by lia. reflexivity.
Qed.

Lemma counters_dict_snoc (rows : list CounterModel.t) (r : CounterModel.t) :
  counters_dict (rows ++ [r]) =
    <[CounterModel.name r := CounterModel.value r]> (counters_dict rows).
Proof. unfold counters_dict. by rewrite foldl_app. Qed.

Lemma counters_dict_absent (name : string) (rows : list CounterModel.t) :
  Forall (λ r, CounterModel.name r ≠ name) rows ->
  counters_dict rows !! name = None.
Proof.
  induction rows as [|r rows IH] using rev_ind; intros Hno; [done|].
  apply Forall_app in Hno as [Hrows Hr]. inversion_clear Hr as [|?? Hr' _].
  rewrite counters_dict_snoc, lookup_insert_ne by done. auto.
Qed.

Lemma counters_dict_empty (rows : list CounterModel.t) :
  counters_dict rows = ∅ ↔ rows = [].
Proof.
  split; [|by intros ->].
  destruct rows as [|r rows _] using rev_ind; [done|].
  rewrite counters_dict_snoc. intros Hempty.
  by apply insert_non_empty in Hempty.
Qed.

Lemma pop_counters_all (w : World) :
  pop_counters w =
    (Returned (counters_dict (split_counters (db w))), with_counters [] w).
Proof.
  unfold pop_counters, mbind, M_bind, gets. cbv beta.
  by rewrite pop_everything.
Qed.
End Counters.

(** C4, as stated, fails.  [pop_counters] drains the whole table: its mapping
    holds every counter that is stored, not only the one just incremented.
    After five [inc_counter "other"] the table has no row of ["c"]; three
    [inc_counter "c"] and [pop_counters] then return [{other: 5, c: 3}],
    which is not [{c: 3}]. *)
Lemma pop_counters_returns_every_counter :
  Forall (λ r, CounterModel.name r ≠ "c"%string)
    (split_counters (db (snd (repeat_call 5 (SqlTelemetryStorage.inc_counter "other")
                                (new_world Z.of_nat)))))
  ∧ fst ((repeat_call 3 (SqlTelemetryStorage.inc_counter "c");;
          first ← SqlTelemetryStorage.pop_counters;
          second ← SqlTelemetryStorage.pop_counters;
          mret (first, second))
           (snd (repeat_call 5 (SqlTelemetryStorage.inc_counter "other")
                   (new_world Z.of_nat))))
    = Returned ({["other"%string := 5; "c"%string := 3]}, ∅)
  ∧ ({["other"%string := 5; "c"%string := 3]} : gmap string Z) ≠ {["c"%string := 3]}.
Proof.
  split; [|split].
  - repeat constructor. discriminate.
  - vm_compute. reflexivity.
  - intros Heq. apply (f_equal (λ m : gmap string Z, m !! "other"%string)) in Heq.
    vm_compute in Heq. discriminate.
Qed.

(** C4 (as amended).  From a state with no counter row of [name], [n >= 1]
    successive [inc_counter name] calls followed by [pop_counters] return
    the mapping of the counters that were stored before, with [name : n]
    added: it holds [name : n], every other name is mapped as [pop_counters]
    would have mapped it before the calls, and it is [{name: n}] exactly
    when no counter was stored.  A second [pop_counters] returns the empty
    mapping, the drain having removed every row. *)
Theorem inc_counter_n_then_pop_counters (w : World) (name : string) (n : nat) :
  (1 <= n)%nat ->
  Forall (λ r, CounterModel.name r ≠ name) (split_counters (db w)) ->
  ∃ (first : gmap string Z) (w' : World),
    (repeat_call n (SqlTelemetryStorage.inc_counter name);;
     first ← SqlTelemetryStorage.pop_counters;
     second ← SqlTelemetryStorage.pop_counters;
     mret (first, second)) w = (Returned (first, ∅), w')
    ∧ first = <[name := Z.of_nat n]>
                (SqlTelemetryStorage.counters_dict (split_counters (db w)))
    ∧ first !! name = Some (Z.of_nat n)
    ∧ (∀ other : string,
         other ≠ name ->
         first !! other =
           SqlTelemetryStorage.counters_dict (split_counters (db w)) !! other)
    ∧ (first = {[name := Z.of_nat n]} ↔ split_counters (db w) = [])
    ∧ split_counters (db w') = [].
Proof.
  intros Hn Hno. destruct n as [|n]; [lia|].
  eexists _, _. split; [|split; [reflexivity|]].
  - rewrite (bind_Returned _ _ _ _ _ (inc_counter_repeat_first n w name Hno)).
    rewrite (bind_Returned _ _ _ _ _ (pop_counters_all _)).
    rewrite (bind_Returned _ _ _ _ _ (pop_counters_all _)).
    simpl. rewrite counters_dict_snoc. reflexivity.
  - split; [apply lookup_insert_eq|].
    split; [intros other Hother; by apply lookup_insert_ne|].
    split; [|done]. split.
    + intros Hsingle. apply counters_dict_empty.
      rewrite <- (delete_insert_id _ name (Z.of_nat (S n)))
        by (by apply counters_dict_absent).
      rewrite Hsingle. apply delete_singleton_eq.
    + intros ->. reflexivity.
Qed.

Lemma inc_counter_n_then_pop_counters_witness :
  (1 <= 3)%nat
  ∧ Forall (λ r, CounterModel.name r ≠ "some_counter_1"%string)
      (split_counters (db (new_world Z.of_nat)))
  ∧ fst ((repeat_call 3 (SqlTelemetryStorage.inc_counter "some_counter_1");;
          first ← SqlTelemetryStorage.pop_counters;
          second ← SqlTelemetryStorage.pop_counters;
          mret (first, second)) (new_world Z.of_nat))
    = Returned ({["some_counter_1"%string := 3]}, ∅).
Proof.
  assert (1 <= 3)%nat as Hn by lia.
  assert (Forall (λ r, CounterModel.name r ≠ "some_counter_1"%string)
            (split_counters (db (new_world Z.of_nat)))) as Hno by constructor.
  split; [exact Hn | split; [exact Hno |]].
  destruct (inc_counter_n_then_pop_counters (new_world Z.of_nat) "some_counter_1" 3
              Hn Hno) as (first & w' & Hrun & _ & _ & _ & Hsingle & _).
  rewrite Hrun. cbn [fst]. by rewrite (proj2 Hsingle eq_refl).
Defined.

(** ** Telemetry: latency histograms *)
Section Latencies.
Import SqlTelemetryStorage.

Lemma buckets_length (r : LatencyModel.t) : length (LatencyModel.buckets r) = 22%nat.
Proof. reflexivity. Qed.

Lemma increment_bucket_lookup_nat (b : Z) (n : nat) (r : LatencyModel.t) :
  (n < 22)%nat ->
  LatencyModel.buckets (LatencyModel.increment_bucket b r) !! n =
    (λ v, if Z.of_nat n =? b then v + 1 else v) <$> LatencyModel.buckets r !! n.
Proof.
  intros Hn. do 22 (destruct n as [|n]; [reflexivity|]). lia.
Qed.

Lemma increment_bucket_lookup (b i : Z) (r : LatencyModel.t) :
  0 <= i <= 21 ->
  LatencyModel.buckets (LatencyModel.increment_bucket b r) !! Z.to_nat i =
    (λ v, if i =? b then v + 1 else v) <$> LatencyModel.buckets r !! Z.to_nat i.
Proof.
  intros Hi. rewrite increment_bucket_lookup_nat by lia.
  by rewrite Z2Nat.id by lia.
Qed.

Lemma increment_bucket_sum (b : Z) (r : LatencyModel.t) :
  0 <= b <= 21 ->
  foldr Z.add 0 (LatencyModel.buckets (LatencyModel.increment_bucket b r)) =
    foldr Z.add 0 (LatencyModel.buckets r) + 1.
Proof.
  intros Hb.
  assert (b = 0 ∨ b = 1 ∨ b = 2 ∨ b = 3 ∨ b = 4 ∨ b = 5 ∨ b = 6 ∨ b = 7 ∨
          b = 8 ∨ b = 9 ∨ b = 10 ∨ b = 11 ∨ b = 12 ∨ b = 13 ∨ b = 14 ∨
          b = 15 ∨ b = 16 ∨ b = 17 ∨ b = 18 ∨ b = 19 ∨ b = 20 ∨ b = 21)
    as Hcases by lia.
  repeat (destruct Hcases as [->|Hcases]; [simpl; lia|]).
  subst b. simpl. lia.
Qed.

Lemma incremented_name (bs : list Z) (r : LatencyModel.t) :
  LatencyModel.name (incremented bs r) = LatencyModel.name r.
Proof. revert r. induction bs as [|b bs IH]; intros r; simpl; [done | by rewrite IH]. Qed.

Lemma incremented_lookup (bs : list Z) (i : Z) (r : LatencyModel.t) :
  0 <= i <= 21 ->
  LatencyModel.buckets (incremented bs r) !! Z.to_nat i =
    (λ v, v + occurrences i bs) <$> LatencyModel.buckets r !! Z.to_nat i.
Proof.
  intros Hi. revert r. induction bs as [|b bs IH]; intros r.
  - simpl. destruct (_ !! _); simpl; [f_equal; unfold occurrences; simpl; lia | done].
  - simpl. rewrite IH, increment_bucket_lookup by done.
    destruct (_ !! _) as [v|]; simpl; [|done]. f_equal.
    unfold occurrences. simpl. destruct (Z.eqb_spec i b); simpl; lia.
Qed.

Lemma incremented_sum (bs : list Z) (r : LatencyModel.t) :
  Forall (λ b, 0 <= b <= 21) bs ->
  foldr Z.add 0 (LatencyModel.buckets (incremented bs r)) =
    foldr Z.add 0 (LatencyModel.buckets r) + Z.of_nat (length bs).
Proof.
  intros Hbs. revert r. induction Hbs as [|b bs Hb _ IH]; intros r.
  - simpl. lia.
  - cbn [incremented foldl]. fold (incremented bs (LatencyModel.increment_bucket b r)).
    rewrite IH, increment_bucket_sum by done. cbn [length]. lia.
Qed.

Lemma no_latency_named (name : string) (rows : list LatencyModel.t) :
  Forall (λ r, LatencyModel.name r ≠ name) rows ->
  List.filter (latency_named name) rows = [].
Proof.
  intros Hno. apply filter_none. eapply Forall_impl; [exact Hno|].
  intros r Hr. by apply String.eqb_neq.
Qed.

Lemma inc_latency_out_of_range (w : World) (name : string) (b : Z) :
  b < 0 ∨ 21 < b -> inc_latency name b w = (Returned tt, w).
Proof.
  intros Hb. unfold inc_latency.
  destruct (Z.leb_spec 0 b), (Z.leb_spec b 21); simpl; try reflexivity; lia.
Qed.

Lemma inc_latency_first (w : World) (name : string) (b : Z) :
  0 <= b <= 21 ->
  Forall (λ r, LatencyModel.name r ≠ name) (split_latencies (db w)) ->
  inc_latency name b w =
    (Returned tt,
     with_latencies (split_latencies (db w) ++
       [incremented [b]
          (LatencyModel.create name (DbClient.fresh_pk (split_latencies (db w))))]) w).
Proof.
  intros Hb Hno. unfold inc_latency.
  destruct (Z.leb_spec 0 b), (Z.leb_spec b 21); try lia. cbn [andb].
  unfold mbind, M_bind, gets, lift, modify, DbClient.increment_or_create. cbv beta.
  fold (latency_named name). rewrite (no_latency_named _ _ Hno). cbn [DbClient.one_or_none].
  rewrite (update_where_pk_last (LatencyModel.increment_bucket b) _
             (LatencyModel.create name _)); [done|].
  apply pk_below_fresh.
Qed.

Lemma inc_latency_next (w : World) (name : string) (b : Z)
    (old : list LatencyModel.t) (r : LatencyModel.t) :
  0 <= b <= 21 ->
  Forall (λ r, LatencyModel.name r ≠ name) old ->
  LatencyModel.name r = name ->
  LatencyModel.id r = DbClient.fresh_pk old ->
  split_latencies (db w) = old ++ [r] ->
  inc_latency name b w =
    (Returned tt, with_latencies (old ++ [LatencyModel.increment_bucket b r]) w).
Proof.
  intros Hb Hno Hname Hid Hrows. unfold inc_latency.
  destruct (Z.leb_spec 0 b), (Z.leb_spec b 21); try lia. cbn [andb].
  unfold mbind, M_bind, gets, lift, modify, DbClient.increment_or_create. cbv beta.
  rewrite Hrows. fold (latency_named name).
  rewrite List.filter_app, (no_latency_named _ _ Hno).
  cbn [List.filter app]. unfold latency_named at 1. rewrite Hname, String.eqb_refl.
  cbn [DbClient.one_or_none].
  rewrite (update_where_pk_last (LatencyModel.increment_bucket b) old r); [done|].
  unfold pk, LatencyModel_pk. rewrite Hid. apply pk_below_fresh.
Qed.

(** The calls [bs] on a name whose row is the last of the table. *)
Lemma inc_latency_calls_next (bs : list Z) (w : World) (name : string)
    (old : list LatencyModel.t) (r : LatencyModel.t) :
  Forall (λ r, LatencyModel.name r ≠ name) old ->
  LatencyModel.name r = name ->
  LatencyModel.id r = DbClient.fresh_pk old ->
  split_latencies (db w) = old ++ [r] ->
  for_each bs (inc_latency name) w =
    (Returned tt, with_latencies (old ++ [incremented (List.filter in_range bs) r]) w).
Proof.
  revert w r. induction bs as [|b bs IH]; intros w r Hno Hname Hid Hrows.
  - simpl. unfold mret, M_ret, with_latencies. rewrite <- Hrows. by destruct w as [[]].
  - cbn [for_each List.filter].
    destruct (in_range b) eqn:Hb.
    + assert (0 <= b <= 21) as Hb' by (unfold in_range in Hb; lia).
      rewrite (bind_Returned _ _ _ _ _ (inc_latency_next w name b old r Hb' Hno Hname Hid Hrows)).
      rewrite (IH _ (LatencyModel.increment_bucket b r)); try done.
    + assert (b < 0 ∨ 21 < b) as Hb' by (unfold in_range in Hb; lia).
      rewrite (bind_Returned _ _ _ _ _ (inc_latency_out_of_range w name b Hb')).
      by apply IH.
Qed.

(** The calls [bs] on a name that has no row. *)
Lemma inc_latency_calls_first (bs : list Z) (w : World) (name : string) :
  Forall (λ r, LatencyModel.name r ≠ name) (split_latencies (db w)) ->
  for_each bs (inc_latency name) w =
    (Returned tt,
     match List.filter in_range bs with
     | [] => w
     | valid =>
         with_latencies (split_latencies (db w) ++
           [incremented valid
              (LatencyModel.create name (DbClient.fresh_pk (split_latencies (db w))))]) w
     end).
Proof.
  revert w. induction bs as [|b bs IH]; intros w Hno.
  - reflexivity.
  - cbn [for_each List.filter].
    destruct (in_range b) eqn:Hb.
    + assert (0 <= b <= 21) as Hb' by (unfold in_range in Hb; lia).
      rewrite (bind_Returned _ _ _ _ _ (inc_latency_first w name b Hb' Hno)).
      rewrite (inc_latency_calls_next bs _ name (split_latencies (db w))
                 (incremented [b] (LatencyModel.create name
                    (DbClient.fresh_pk (split_latencies (db w)))))); try done.
    + assert (b < 0 ∨ 21 < b) as Hb' by (unfold in_range in Hb; lia).
      rewrite (bind_Returned _ _ _ _ _ (inc_latency_out_of_range w name b Hb')).
      by apply IH.
Qed.

Lemma latencies_dict_snoc (rows : list LatencyModel.t) (r : LatencyModel.t) :
  latencies_dict (rows ++ [r]) =
    <[LatencyModel.name r := LatencyModel.buckets r]> (latencies_dict rows).
Proof. unfold latencies_dict. by rewrite foldl_app. Qed.

Lemma latencies_dict_absent (name : string) (rows : list LatencyModel.t) :
  Forall (λ r, LatencyModel.name r ≠ name) rows ->
  latencies_dict rows !! name = None.
Proof.
  induction rows as [|r rows IH] using rev_ind; intros Hno; [done|].
  apply Forall_app in Hno as [Hrows Hr]. inversion_clear Hr as [|?? Hr' _].
  rewrite latencies_dict_snoc, lookup_insert_ne by done. auto.
Qed.

Lemma pop_latencies_all (w : World) :
  pop_latencies w =
    (Returned (latencies_dict (split_latencies (db w))), with_latencies [] w).
Proof.
  unfold pop_latencies, mbind, M_bind, gets. cbv beta.
  by rewrite pop_everything.
Qed.

Lemma occurrences_in_range (b : Z) (bs : list Z) :
  0 <= b <= 21 -> occurrences b (List.filter in_range bs) = occurrences b bs.
Proof.
  intros Hb. unfold occurrences. f_equal. f_equal.
  induction bs as [|x bs IH]; [done|]. simpl.
  destruct (in_range x) eqn:Hx; simpl; rewrite IH; [done|].
  destruct (Z.eqb_spec b x); [|done]. subst x. unfold in_range in Hx. lia.
Qed.
End Latencies.

(** C5.  [inc_latency name bucket] with [bucket] outside 0..21 returns
    without error and leaves the world as it was.  From a state with no
    latency row of [name], after any sequence [calls] of [inc_latency name]
    calls the histogram of [name] that [pop_latencies] returns has 22
    buckets, bucket [b] holds the number of calls made with [b], and the
    buckets add up to the number of calls with a bucket in 0..21; there is no
    histogram of [name] when no call was in range, and the histograms of
    other names are as they were. *)
Theorem inc_latency_bucket_counts (w : World) (name : string) (calls : list Z) :
  Forall (λ r, LatencyModel.name r ≠ name) (split_latencies (db w)) ->
  (∀ (w0 : World) (bucket : Z),
     bucket < 0 ∨ 21 < bucket ->
     SqlTelemetryStorage.inc_latency name bucket w0 = (Returned tt, w0))
  ∧ ∃ (latencies : gmap string (list Z)) (w' : World),
      (for_each calls (SqlTelemetryStorage.inc_latency name);;
       SqlTelemetryStorage.pop_latencies) w = (Returned latencies, w')
      ∧ (∀ other : string,
           other ≠ name ->
           latencies !! other =
             SqlTelemetryStorage.latencies_dict (split_latencies (db w)) !! other)
      ∧ match latencies !! name with
        | Some buckets =>
            length buckets = 22%nat
            ∧ (∀ b, 0 <= b <= 21 -> buckets !! Z.to_nat b = Some (occurrences b calls))
            ∧ foldr Z.add 0 buckets = Z.of_nat (length (List.filter in_range calls))
            ∧ List.filter in_range calls ≠ []
        | None => List.filter in_range calls = []
        end.
Proof.
  intros Hno. split.
  { intros w0 b Hb. by apply inc_latency_out_of_range. }
  eexists _, _. split.
  { rewrite (bind_Returned _ _ _ _ _ (inc_latency_calls_first calls w name Hno)).
    apply pop_latencies_all. }
  destruct (List.filter in_range calls) as [|v valid] eqn:Hvalid.
  { split; [done|]. by rewrite latencies_dict_absent. }
  cbn [db set_db with_latencies split_latencies set_split_latencies].
  rewrite latencies_dict_snoc, incremented_name. cbn [LatencyModel.create LatencyModel.name].
  split; [intros other Hother; by rewrite lookup_insert_ne|].
  rewrite lookup_insert_eq.
  split; [apply buckets_length|]. split; [|split; [|done]].
  - intros b Hb. rewrite incremented_lookup by done.
    rewrite <- Hvalid, occurrences_in_range by done.
    assert (Z.to_nat b < 22)%nat as Hn by lia.
    generalize dependent (Z.to_nat b). intros n Hn.
    do 22 (destruct n as [|n]; [reflexivity|]). lia.
  - rewrite incremented_sum; [simpl; lia|].
    rewrite <- Hvalid. apply Forall_forall. intros b Hb.
    apply list_elem_of_In, filter_In in Hb as [_ Hb]. unfold in_range in Hb. lia.
Qed.

Lemma inc_latency_bucket_counts_witness :
  Forall (λ r, LatencyModel.name r ≠ "sdk.get_treatment"%string)
    (split_latencies (db (new_world Z.of_nat)))
  ∧ ∃ (latencies : gmap string (list Z)) (w' : World) (buckets : list Z),
      (for_each [-1; 0; 1; 5; 5; 22]
         (SqlTelemetryStorage.inc_latency "sdk.get_treatment");;
       SqlTelemetryStorage.pop_latencies) (new_world Z.of_nat) = (Returned latencies, w')
      ∧ latencies !! "sdk.get_treatment"%string = Some buckets
      ∧ length buckets = 22%nat
      ∧ buckets !! 0%nat = Some 1
      ∧ buckets !! 1%nat = Some 1
      ∧ buckets !! 5%nat = Some 2
      ∧ foldr Z.add 0 buckets = 4.
Proof.
  assert (Forall (λ r, LatencyModel.name r ≠ "sdk.get_treatment"%string)
            (split_latencies (db (new_world Z.of_nat)))) as Hno by constructor.
  split; [exact Hno |].
  destruct (inc_latency_bucket_counts (new_world Z.of_nat) "sdk.get_treatment"
              [-1; 0; 1; 5; 5; 22] Hno) as (_ & latencies & w' & Hrun & _ & Hhist).
  destruct (latencies !! "sdk.get_treatment"%string) as [buckets|] eqn:Hlookup.
  - destruct Hhist as (Hlen & Hb & Hsum & _).
    exists latencies, w', buckets.
    split; [exact Hrun | split; [exact Hlookup | split; [exact Hlen |]]].
    split; [exact (Hb 0 ltac:(lia)) |].
    split; [exact (Hb 1 ltac:(lia)) |].
    split; [exact (Hb 5 ltac:(lia)) | exact Hsum].
  - discriminate Hhist.
Defined.

(** ** Queues: tables ordered by a creation stamp *)
Section QueueTable.
Context {R : Type} `{Model R}.
Variable created_at : R -> Z.

Lemma filter_everything (f : R -> bool) (rows : list R) :
  Forall (λ r, f r = true) rows -> List.filter f rows = rows.
Proof. induction 1 as [|r rows Hr _ IH]; simpl; [done | by rewrite Hr, IH]. Qed.

(** The rows that [ORDER BY created_at] returns, and their order. *)
Lemma ordered_insert_Permutation (r : R) (sorted : list R) :
  DbClient.ordered_insert created_at r sorted ≡ₚ r :: sorted.
Proof.
  induction sorted as [|x sorted IH]; [done|]. cbn [DbClient.ordered_insert].
  destruct (decide _); [done|]. rewrite IH. apply Permutation_swap.
Qed.

Lemma order_by_asc_Permutation (rows : list R) :
  DbClient.order_by_asc created_at rows ≡ₚ rows.
Proof.
  induction rows as [|r rows IH]; [done|].
  cbn [DbClient.order_by_asc foldr]. fold (DbClient.order_by_asc created_at rows).
  by rewrite ordered_insert_Permutation, IH.
Qed.

Lemma ordered_insert_sorted (r : R) (sorted : list R) :
  StronglySorted (DbClient.asc created_at) sorted ->
  StronglySorted (DbClient.asc created_at) (DbClient.ordered_insert created_at r sorted).
Proof.
  induction 1 as [|x sorted Hs IH Hx]; cbn [DbClient.ordered_insert].
  - repeat constructor.
  - destruct (decide (DbClient.asc created_at r x)) as [Hle|Hgt].
    + constructor; [by constructor|]. constructor; [done|].
      eapply Forall_impl; [exact Hx|]. unfold DbClient.asc in *. intros; lia.
    + constructor; [done|]. apply Forall_forall. intros y Hy.
      rewrite ordered_insert_Permutation in Hy.
      apply elem_of_cons in Hy as [->|Hy].
      * unfold DbClient.asc in *. lia.
      * rewrite Forall_forall in Hx. auto.
Qed.

Lemma order_by_asc_sorted (rows : list R) :
  StronglySorted (DbClient.asc created_at) (DbClient.order_by_asc created_at rows).
Proof.
  induction rows as [|r rows IH]; [constructor|].
  cbn [DbClient.order_by_asc foldr]. by apply ordered_insert_sorted.
Qed.

(** Rows of equal stamp keep their place: a table whose stamps do not
    decrease comes back from [ORDER BY created_at] as it is. *)
Lemma order_by_created_at (rows : list R) :
  StronglySorted (DbClient.asc created_at) rows ->
  DbClient.order_by_asc created_at rows = rows.
Proof.
  induction 1 as [|r rows Hs IH Hr]; [done|].
  cbn [DbClient.order_by_asc foldr]. fold (DbClient.order_by_asc created_at rows).
  rewrite IH. destruct Hr as [|x rows' Hx _]; [done|].
  cbn [DbClient.ordered_insert]. by rewrite decide_True.
Qed.

Lemma delete_front (front back : list R) :
  NoDup (map pk (front ++ back)) ->
  List.filter (λ r, negb (bool_decide (pk r ∈ map pk front))) (front ++ back) = back.
Proof.
  intros Hnodup.
  rewrite map_app in Hnodup. apply NoDup_app in Hnodup as (_ & Hdisj & _).
  rewrite List.filter_app, filter_none, filter_everything; [done| |].
  - apply Forall_forall. intros r Hr.
    rewrite bool_decide_eq_false_2; [done|]. intros Hin.
    apply (Hdisj (pk r)); [done|]. apply list_elem_of_fmap. by exists r.
  - apply Forall_forall. intros r Hr.
    rewrite bool_decide_eq_true_2; [done|]. apply list_elem_of_fmap. by exists r.
Qed.

Lemma delete_popped (k : nat) (rows : list R) :
  NoDup (map pk rows) ->
  List.filter (λ r, negb (bool_decide (pk r ∈ map pk (take k rows)))) rows =
    drop k rows.
Proof.
  intros Hnodup.
  pose proof (delete_front (take k rows) (drop k rows)) as Hdel.
  rewrite take_drop in Hdel. auto.
Qed.

Lemma pop_oldest (k : nat) (rows : list R) :
  StronglySorted (DbClient.asc created_at) rows ->
  NoDup (map pk rows) ->
  DbClient.pop (Some k) (λ _, true) (Some created_at) rows = (take k rows, drop k rows).
Proof.
  intros Hs Hnodup. unfold DbClient.pop.
  rewrite filter_all, order_by_created_at by done.
  by rewrite delete_popped.
Qed.

Lemma queue_ok_nil (bound : Z) : queue_ok created_at bound [].
Proof. repeat split; constructor. Qed.

Lemma queue_ok_add (bound bound' : Z) (create : Z -> R) (rows : list R) :
  queue_ok created_at bound rows ->
  pk (create (DbClient.fresh_pk rows)) = DbClient.fresh_pk rows ->
  created_at (create (DbClient.fresh_pk rows)) = bound ->
  bound <= bound' ->
  queue_ok created_at bound' (DbClient.add create rows).
Proof.
  intros (Hs & Hb & Hnodup) Hpk Hstamp Hlt. unfold DbClient.add.
  rewrite Forall_forall in Hb. repeat split.
  - apply StronglySorted_app_2; [| done | repeat constructor].
    intros x y Hx Hy. apply list_elem_of_singleton in Hy as ->.
    unfold DbClient.asc. rewrite Hstamp. auto.
  - apply Forall_app. split.
    + apply Forall_forall. intros r Hr. specialize (Hb _ Hr). lia.
    + repeat constructor. lia.
  - rewrite map_app. apply NoDup_app. repeat split; [done | | apply NoDup_singleton].
    intros k Hk Hk'. apply list_elem_of_singleton in Hk'. subst k.
    apply list_elem_of_fmap in Hk as (r & Hr & Hin).
    pose proof (pk_below_fresh rows) as Hfresh. rewrite Forall_forall in Hfresh.
    specialize (Hfresh _ Hin). lia.
Qed.

Lemma queue_ok_drop (bound : Z) (k : nat) (rows : list R) :
  queue_ok created_at bound rows -> queue_ok created_at bound (drop k rows).
Proof.
  intros (Hs & Hb & Hnodup). repeat split.
  - rewrite <- (take_drop k rows) in Hs. by apply StronglySorted_app_1_r in Hs.
  - by apply Forall_drop.
  - rewrite <- (take_drop k rows), map_app in Hnodup.
    by apply NoDup_app in Hnodup as (_ & _ & ?).
Qed.

End QueueTable.

(** ** The impression queue *)
Section Impressions.
Context {A : Type}.
Variable dumps : A -> string.
Variable loads : string -> A.

Lemma impression_inserted (json_data : string) (w : World) :
  SqlImpressionStorage.insert json_data w =
    (Returned tt,
     impressions_added
       [ImpressionModel.mk (DbClient.fresh_pk (split_impressions (db w)))
          (wall_clock w (clock_calls w)) json_data] 1 w).
Proof.
  unfold SqlImpressionStorage.insert, impressions_added, now, mbind, M_bind, modify.
  simpl. by rewrite Nat.add_1_r.
Qed.

Lemma impressions_inserted (impressions : list A) (w : World) :
  ∃ new : list ImpressionModel.t,
    for_each impressions (λ i, SqlImpressionStorage.insert (dumps i)) w =
      (Returned tt, impressions_added new (length impressions) w)
    ∧ map ImpressionModel.json_data new = map dumps impressions
    ∧ (never_set_back (wall_clock w) ->
       queue_ok ImpressionModel.created_at (wall_clock w (clock_calls w))
         (split_impressions (db w)) ->
       queue_ok ImpressionModel.created_at
         (wall_clock w (clock_calls w + length impressions))
         (split_impressions (db w) ++ new)).
Proof.
  revert w. induction impressions as [|i impressions IH]; intros w.
  - exists []. split; [|split; [done|]].
    + simpl. unfold mret, M_ret, impressions_added.
      rewrite app_nil_r, Nat.add_0_r. destruct w as [[]]. reflexivity.
    + intros _. by rewrite app_nil_r, Nat.add_0_r.
  - set (row := ImpressionModel.mk (DbClient.fresh_pk (split_impressions (db w)))
                  (wall_clock w (clock_calls w)) (dumps i)).
    set (w1 := impressions_added [row] 1 w).
    destruct (IH w1) as (new & Hrun & Hjson & Hok).
    exists (row :: new). split; [|split].
    + cbn [for_each].
      rewrite (bind_Returned _ _ _ _ _ (impression_inserted (dumps i) w)).
      fold row. fold w1. rewrite Hrun. f_equal.
      unfold impressions_added, w1. simpl.
      rewrite <- app_assoc. simpl. f_equal. lia.
    + simpl. by rewrite Hjson.
    + intros Hclock Hq.
      replace (clock_calls w + length (i :: impressions))%nat
        with (clock_calls w1 + length impressions)%nat by (simpl; lia).
      replace (split_impressions (db w) ++ row :: new)
        with (split_impressions (db w1) ++ new)
        by (simpl; by rewrite <- app_assoc).
      apply Hok; [exact Hclock|].
      apply (queue_ok_add _ (wall_clock w (clock_calls w)) _
               (λ id, ImpressionModel.mk id (wall_clock w (clock_calls w)) (dumps i)));
        [done | reflexivity | reflexivity |].
      apply Hclock. simpl. lia.
Qed.

(** What [put] does: the rows are inserted, then the hook is called when
    the table has more rows than [_queue_size]. *)
Lemma impression_put_outcome (self : SqlImpressionStorage.t) (impressions : list A)
    (w : World) :
  ∃ new : list ImpressionModel.t,
    let w1 := impressions_added new (length impressions) w in
    SqlImpressionStorage.put dumps self impressions w =
      (if Z.of_nat (length (split_impressions (db w) ++ new))
            >? SqlImpressionStorage._queue_size self
       then match SqlImpressionStorage._table_full_hook self with
            | PyFunction f => (Returned true, hook_called f w1)
            | _ => (Raised TypeError, w1)
            end
       else (Returned true, w1))
    ∧ map ImpressionModel.json_data new = map dumps impressions
    ∧ (never_set_back (wall_clock w) ->
       queue_ok ImpressionModel.created_at (wall_clock w (clock_calls w))
         (split_impressions (db w)) ->
       queue_ok ImpressionModel.created_at
         (wall_clock w (clock_calls w + length impressions))
         (split_impressions (db w) ++ new)).
Proof.
  destruct (impressions_inserted impressions w) as (new & Hrun & Hjson & Hok).
  exists new. split; [|by split].
  unfold SqlImpressionStorage.put.
  rewrite (bind_Returned _ _ _ _ _ Hrun).
  unfold mbind, M_bind, gets, DbClient.get_count. cbv beta.
  rewrite filter_all.
  cbn [db impressions_added split_impressions set_split_impressions].
  destruct (_ >? _); [|reflexivity].
  by destruct (SqlImpressionStorage._table_full_hook self).
Qed.

(** What [put] of one entry leaves: its row at the end of the table, stamped
    with the clock's reading, whether or not the hook is then called. *)
Lemma impression_put_one (self : SqlImpressionStorage.t) (a : A) (w : World) :
  ∃ hooks : list string,
    snd (SqlImpressionStorage.put dumps self [a] w) =
      mkWorld
        (set_split_impressions
           (split_impressions (db w) ++
              [ImpressionModel.mk (DbClient.fresh_pk (split_impressions (db w)))
                 (wall_clock w (clock_calls w)) (dumps a)]) (db w))
        (wall_clock w) (S (clock_calls w)) hooks (lock_held w).
Proof.
  unfold SqlImpressionStorage.put. cbn [for_each].
  unfold mbind at 1, M_bind at 1. unfold mbind at 1, M_bind at 1.
  rewrite impression_inserted.
  unfold mbind, M_bind, gets, mret, M_ret, impressions_added. cbv beta.
  rewrite Nat.add_1_r.
  destruct (_ >? _); [destruct (SqlImpressionStorage._table_full_hook self)|];
    eexists; reflexivity.
Qed.

Lemma impression_pop_many_oldest (count : nat) (w : World) (bound : Z) :
  queue_ok ImpressionModel.created_at bound (split_impressions (db w)) ->
  SqlImpressionStorage.pop_many loads count w =
    (Returned (map (λ r, loads (ImpressionModel.json_data r))
                   (take count (split_impressions (db w)))),
     with_impressions (drop count (split_impressions (db w))) w).
Proof.
  intros (Hs & _ & Hnodup).
  unfold SqlImpressionStorage.pop_many, mbind, M_bind, gets. cbv beta.
  by rewrite pop_oldest.
Qed.

Lemma loads_json_data (new : list ImpressionModel.t) (impressions : list A) :
  map ImpressionModel.json_data new = map dumps impressions ->
  map (λ r, loads (ImpressionModel.json_data r)) new =
    map (λ a, loads (dumps a)) impressions.
Proof.
  intros Hjson.
  by rewrite <- (map_map ImpressionModel.json_data loads), Hjson, map_map.
Qed.

Lemma impression_history_fifo (self : SqlImpressionStorage.t)
    (history : list (queue_call A)) (w : World) :
  never_set_back (wall_clock w) ->
  queue_ok ImpressionModel.created_at (wall_clock w (clock_calls w))
    (split_impressions (db w)) ->
  fst (impression_history dumps loads self history w) =
    map Returned
      (fifo (λ a, loads (dumps a))
            (map (λ r, loads (ImpressionModel.json_data r)) (split_impressions (db w)))
            history).
Proof.
  revert w. induction history as [|[items|count] history IH]; intros w Hclock Hq.
  - reflexivity.
  - cbn [impression_history fifo].
    destruct (impression_put_outcome self items w) as (new & Hput & Hjson & Hok).
    specialize (Hok Hclock Hq).
    set (w1 := snd (SqlImpressionStorage.put dumps self items w)).
    assert (wall_clock w1 = wall_clock w
            ∧ clock_calls w1 = (clock_calls w + length items)%nat
            ∧ split_impressions (db w1) = split_impressions (db w) ++ new)
      as (Hw & Hc & Hrows).
    { unfold w1. simpl in Hput. rewrite Hput.
      destruct (_ >? _); [|done].
      by destruct (SqlImpressionStorage._table_full_hook self). }
    rewrite IH.
    + by rewrite Hrows, map_app, (loads_json_data new items Hjson).
    + by rewrite Hw.
    + by rewrite Hw, Hc, Hrows.
  - cbn [impression_history fifo].
    rewrite (impression_pop_many_oldest count w _ Hq).
    destruct (impression_history dumps loads self history _) as [later w2] eqn:Hrest.
    cbn [fst map]. f_equal; [by rewrite firstn_map|].
    change later with (fst (later, w2)). rewrite <- Hrest. rewrite IH.
    + cbn [db with_impressions set_db split_impressions set_split_impressions].
      by rewrite skipn_map.
    + done.
    + by apply queue_ok_drop.
Qed.
End Impressions.

(** ** The event queue *)
Section Events.
Context {A : Type}.
Variable dumps : A -> string.
Variable loads : string -> A.

Lemma event_inserted (json_data : string) (size : Z) (w : World) :
  SqlEventStorage.insert json_data size w =
    (Returned tt,
     events_added
       [EventModel.mk (DbClient.fresh_pk (split_events (db w)))
          (wall_clock w (clock_calls w)) json_data size] 1 w).
Proof.
  unfold SqlEventStorage.insert, events_added, now, mbind, M_bind, modify.
  simpl. by rewrite Nat.add_1_r.
Qed.

Lemma events_inserted (events : list (A * Z)) (w : World) :
  ∃ new : list EventModel.t,
    for_each events (λ e, SqlEventStorage.insert (dumps (fst e)) (snd e)) w =
      (Returned tt, events_added new (length events) w)
    ∧ map EventModel.json_data new = map (λ e, dumps (fst e)) events
    ∧ map EventModel.size new = map snd events
    ∧ (never_set_back (wall_clock w) ->
       queue_ok EventModel.created_at (wall_clock w (clock_calls w))
         (split_events (db w)) ->
       queue_ok EventModel.created_at
         (wall_clock w (clock_calls w + length events))
         (split_events (db w) ++ new)).
Proof.
  revert w. induction events as [|e events IH]; intros w.
  - exists []. split; [|split; [done|split; [done|]]].
    + simpl. unfold mret, M_ret, events_added.
      rewrite app_nil_r, Nat.add_0_r. destruct w as [[]]. reflexivity.
    + intros _. by rewrite app_nil_r, Nat.add_0_r.
  - set (row := EventModel.mk (DbClient.fresh_pk (split_events (db w)))
                  (wall_clock w (clock_calls w)) (dumps (fst e)) (snd e)).
    set (w1 := events_added [row] 1 w).
    destruct (IH w1) as (new & Hrun & Hjson & Hsize & Hok).
    exists (row :: new). split; [|split; [|split]].
    + cbn [for_each].
      rewrite (bind_Returned _ _ _ _ _ (event_inserted (dumps (fst e)) (snd e) w)).
      fold row. fold w1. rewrite Hrun. f_equal.
      unfold events_added, w1. simpl.
      rewrite <- app_assoc. simpl. f_equal. lia.
    + simpl. by rewrite Hjson.
    + simpl. by rewrite Hsize.
    + intros Hclock Hq.
      replace (clock_calls w + length (e :: events))%nat
        with (clock_calls w1 + length events)%nat by (simpl; lia).
      replace (split_events (db w) ++ row :: new)
        with (split_events (db w1) ++ new)
        by (simpl; by rewrite <- app_assoc).
      apply Hok; [exact Hclock|].
      apply (queue_ok_add _ (wall_clock w (clock_calls w)) _
               (λ id, EventModel.mk id (wall_clock w (clock_calls w))
                        (dumps (fst e)) (snd e)));
        [done | reflexivity | reflexivity |].
      apply Hclock. simpl. lia.
Qed.

(** What [put] does: the rows are inserted, then the hook is called when
    the table has more rows than [_queue_size] or its sizes add up to
    [MAX_SIZE_BYTES] or more. *)
Lemma event_put_outcome (self : SqlEventStorage.t) (events : list (A * Z))
    (w : World) :
  ∃ new : list EventModel.t,
    let w1 := events_added new (length events) w in
    SqlEventStorage.put dumps self events w =
      (if (Z.of_nat (length (split_events (db w) ++ new))
             >? SqlEventStorage._queue_size self)
          || (foldr Z.add 0 (map EventModel.size (split_events (db w) ++ new))
                >=? SqlEventStorage.MAX_SIZE_BYTES)
       then match SqlEventStorage._table_full_hook self with
            | PyFunction f => (Returned true, hook_called f w1)
            | _ => (Raised TypeError, w1)
            end
       else (Returned true, w1))
    ∧ map EventModel.json_data new = map (λ e, dumps (fst e)) events
    ∧ map EventModel.size new = map snd events
    ∧ (never_set_back (wall_clock w) ->
       queue_ok EventModel.created_at (wall_clock w (clock_calls w))
         (split_events (db w)) ->
       queue_ok EventModel.created_at
         (wall_clock w (clock_calls w + length events))
         (split_events (db w) ++ new)).
Proof.
  destruct (events_inserted events w) as (new & Hrun & Hjson & Hsize & Hok).
  exists new. split; [|split; [done|split; [done|exact Hok]]].
  unfold SqlEventStorage.put.
  rewrite (bind_Returned _ _ _ _ _ Hrun).
  unfold mbind, M_bind, gets, DbClient.get_count, SqlEventStorage.total_size,
    DbClient.get_all. cbv beta.
  rewrite !filter_all.
  cbn [db events_added split_events set_split_events].
  destruct (_ || _); [|reflexivity].
  by destruct (SqlEventStorage._table_full_hook self).
Qed.

Lemma event_put_one (self : SqlEventStorage.t) (a : A) (size : Z) (w : World) :
  ∃ hooks : list string,
    snd (SqlEventStorage.put dumps self [(a, size)] w) =
      mkWorld
        (set_split_events
           (split_events (db w) ++
              [EventModel.mk (DbClient.fresh_pk (split_events (db w)))
                 (wall_clock w (clock_calls w)) (dumps a) size]) (db w))
        (wall_clock w) (S (clock_calls w)) hooks (lock_held w).
Proof.
  unfold SqlEventStorage.put. cbn [for_each].
  unfold mbind at 1, M_bind at 1. unfold mbind at 1, M_bind at 1.
  rewrite event_inserted.
  unfold mbind, M_bind, gets, mret, M_ret, events_added. cbv beta.
  rewrite Nat.add_1_r.
  destruct (_ || _); [destruct (SqlEventStorage._table_full_hook self)|];
    eexists; reflexivity.
Qed.
Lemma event_pop_many_oldest (count : nat) (w : World) (bound : Z) :
  queue_ok EventModel.created_at bound (split_events (db w)) ->
  SqlEventStorage.pop_many loads count w =
    (Returned (map (λ r, loads (EventModel.json_data r))
                   (take count (split_events (db w)))),
     with_events (drop count (split_events (db w))) w).
Proof.
  intros (Hs & _ & Hnodup).
  unfold SqlEventStorage.pop_many, mbind, M_bind, gets. cbv beta.
  by rewrite pop_oldest.
Qed.

Lemma loads_event_json_data (new : list EventModel.t) (events : list (A * Z)) :
  map EventModel.json_data new = map (λ e, dumps (fst e)) events ->
  map (λ r, loads (EventModel.json_data r)) new =
    map (λ e, loads (dumps (fst e))) events.
Proof.
  intros Hjson.
  by rewrite <- (map_map EventModel.json_data loads), Hjson, map_map.
Qed.

Lemma event_history_fifo (self : SqlEventStorage.t)
    (history : list (queue_call (A * Z))) (w : World) :
  never_set_back (wall_clock w) ->
  queue_ok EventModel.created_at (wall_clock w (clock_calls w))
    (split_events (db w)) ->
  fst (event_history dumps loads self history w) =
    map Returned
      (fifo (λ e, loads (dumps (fst e)))
            (map (λ r, loads (EventModel.json_data r)) (split_events (db w)))
            history).
Proof.
  revert w. induction history as [|[items|count] history IH]; intros w Hclock Hq.
  - reflexivity.
  - cbn [event_history fifo].
    destruct (event_put_outcome self items w) as (new & Hput & Hjson & _ & Hok).
    specialize (Hok Hclock Hq).
    set (w1 := snd (SqlEventStorage.put dumps self items w)).
    assert (wall_clock w1 = wall_clock w
            ∧ clock_calls w1 = (clock_calls w + length items)%nat
            ∧ split_events (db w1) = split_events (db w) ++ new)
      as (Hw & Hc & Hrows).
    { unfold w1. simpl in Hput. rewrite Hput.
      destruct (_ || _); [|done].
      by destruct (SqlEventStorage._table_full_hook self). }
    rewrite IH.
    + by rewrite Hrows, map_app, (loads_event_json_data new items Hjson).
    + by rewrite Hw.
    + by rewrite Hw, Hc, Hrows.
  - cbn [event_history fifo].
    rewrite (event_pop_many_oldest count w _ Hq).
    destruct (event_history dumps loads self history _) as [later w2] eqn:Hrest.
    cbn [fst map]. f_equal; [by rewrite firstn_map|].
    change later with (fst (later, w2)). rewrite <- Hrest. rewrite IH.
    + cbn [db with_events set_db split_events set_split_events].
      by rewrite skipn_map.
    + done.
    + by apply queue_ok_drop.
Qed.
End Events.

(** ** First-in first-out queues *)

(** Along a history, what was popped so far is a prefix of what the queue held
    and was put so far: nothing is returned twice, skipped or reordered. *)
Lemma fifo_prefix {X A} (payload : X -> A) (history : list (queue_call X)) (queue : list A) :
  concat (fifo payload queue history) `prefix_of` queue ++ entries_put payload history.
Proof.
  revert queue. induction history as [|[items|count] history IH]; intros queue.
  - simpl. apply prefix_nil.
  - cbn [fifo entries_put]. rewrite (app_assoc queue). apply IH.
  - cbn [fifo concat entries_put].
    rewrite <- (take_drop count queue) at 3. rewrite <- app_assoc.
    apply prefix_app, IH.
Qed.

(** C1: the code at a failing input.  [pop_many] orders by [created_at], the
    reading of the wall clock at the insert, and not by the order of the
    inserts.  [a] is put, then [b]: [pop_many 1] returns [b], the entry put
    last, as soon as the clock was set back between the two puts (its second
    reading is below the first), on the impression store and on the event
    store alike; a first-in first-out queue, and the docstring of [pop_many]
    ("pop the oldest"), have it return [a].  So with the readings 10 and then
    5, [A] and [B] come back as [B]. *)
Theorem pop_many_follows_created_at {A : Type} (dumps : A -> string) (loads : string -> A)
    (a b : A) (clock : nat -> Z) :
  (∀ self : SqlImpressionStorage.t,
     fst (impression_history dumps loads self [Put [a]; Put [b]; PopMany 1]
            (new_world clock))
     = [Returned [loads (dumps (if clock 1%nat <? clock 0%nat then b else a))]])
  ∧ (∀ (self : SqlEventStorage.t) (size_a size_b : Z),
       fst (event_history dumps loads self
              [Put [(a, size_a)]; Put [(b, size_b)]; PopMany 1] (new_world clock))
       = [Returned [loads (dumps (if clock 1%nat <? clock 0%nat then b else a))]])
  ∧ fifo (λ x, loads (dumps x)) [] [Put [a]; Put [b]; PopMany 1] = [[loads (dumps a)]]
  ∧ fst (impression_history id id (SqlImpressionStorage.__init__ 100)
           [Put ["A"%string]; Put ["B"%string]; PopMany 1]
           (new_world (λ i, match i with O => 10 | S _ => 5 end)))
    = [Returned ["B"%string]].
Proof.
  split; [|split; [|split; reflexivity]].
  - intros self. cbn [impression_history].
    destruct (impression_put_one dumps self a (new_world clock)) as [hooks ->].
    destruct (impression_put_one dumps self b
                (mkWorld
                   (set_split_impressions
                      (split_impressions (db (new_world clock)) ++
                         [ImpressionModel.mk
                            (DbClient.fresh_pk (split_impressions (db (new_world clock))))
                            (wall_clock (new_world clock) (clock_calls (new_world clock)))
                            (dumps a)]) (db (new_world clock)))
                   (wall_clock (new_world clock)) (S (clock_calls (new_world clock)))
                   hooks (lock_held (new_world clock)))) as [hooks' ->].
    unfold SqlImpressionStorage.pop_many, mbind, M_bind, gets. cbv beta.
    cbn [db new_world empty_db split_impressions set_split_impressions wall_clock
         clock_calls app].
    unfold DbClient.pop, DbClient.order_by_asc.
    cbn [List.filter foldr DbClient.ordered_insert].
    unfold DbClient.asc. cbn [ImpressionModel.created_at].
    destruct (decide (clock 0%nat ≤ clock 1%nat)) as [Hle|Hgt];
      destruct (Z.ltb_spec (clock 1%nat) (clock 0%nat)); try lia; reflexivity.
  - intros self size_a size_b. cbn [event_history].
    destruct (event_put_one dumps self a size_a (new_world clock)) as [hooks ->].
    destruct (event_put_one dumps self b size_b
                (mkWorld
                   (set_split_events
                      (split_events (db (new_world clock)) ++
                         [EventModel.mk
                            (DbClient.fresh_pk (split_events (db (new_world clock))))
                            (wall_clock (new_world clock) (clock_calls (new_world clock)))
                            (dumps a) size_a]) (db (new_world clock)))
                   (wall_clock (new_world clock)) (S (clock_calls (new_world clock)))
                   hooks (lock_held (new_world clock)))) as [hooks' ->].
    unfold SqlEventStorage.pop_many, mbind, M_bind, gets. cbv beta.
    cbn [db new_world empty_db split_events set_split_events wall_clock
         clock_calls app].
    unfold DbClient.pop, DbClient.order_by_asc.
    cbn [List.filter foldr DbClient.ordered_insert].
    unfold DbClient.asc. cbn [EventModel.created_at].
    destruct (decide (clock 0%nat ≤ clock 1%nat)) as [Hle|Hgt];
      destruct (Z.ltb_spec (clock 1%nat) (clock 0%nat)); try lia; reflexivity.
Qed.

(** X28.  As long as the wall clock is not set back (it may stand still), the
    impression store and the event store are first-in first-out queues.  From
    a table in good order, which an empty table is and which every call
    keeps, each [pop_many count] of a sequential history of [put] and
    [pop_many] calls returns the [count] oldest entries still present, in the
    order of their inserts (all of them when fewer are present, none when
    the queue is empty), and removes exactly those; entries stamped with the
    same reading keep the order of their inserts.  An entry comes back as
    [loads] reads what [dumps] wrote for it.  Hence what the pops of a
    history return, put end to end, is a prefix of what was queued and put:
    no entry is returned twice, skipped or reordered. *)
Theorem pop_many_is_fifo_while_clock_is_not_set_back
    {A : Type} (dumps : A -> string) (loads : string -> A) (w : World) :
  never_set_back (wall_clock w) ->
  (∀ (self : SqlImpressionStorage.t) (history : list (queue_call A)),
     queue_ok ImpressionModel.created_at (wall_clock w (clock_calls w))
       (split_impressions (db w)) ->
     fst (impression_history dumps loads self history w) =
       map Returned
         (fifo (λ a, loads (dumps a))
            (map (λ r, loads (ImpressionModel.json_data r)) (split_impressions (db w)))
            history))
  ∧ (∀ (self : SqlEventStorage.t) (history : list (queue_call (A * Z))),
       queue_ok EventModel.created_at (wall_clock w (clock_calls w))
         (split_events (db w)) ->
       fst (event_history dumps loads self history w) =
         map Returned
           (fifo (λ e, loads (dumps (fst e)))
              (map (λ r, loads (EventModel.json_data r)) (split_events (db w)))
              history))
  ∧ (∀ (X : Type) (payload : X -> A) (queue : list A) (history : list (queue_call X)),
       concat (fifo payload queue history)
         `prefix_of` queue ++ entries_put payload history).
Proof.
  intros Hclock. split; [|split].
  - intros self history Hq. by apply impression_history_fifo.
  - intros self history Hq. by apply event_history_fifo.
  - intros X payload queue history. apply fifo_prefix.
Qed.

Lemma pop_many_is_fifo_while_clock_is_not_set_back_witness :
  never_set_back (wall_clock (new_world (λ _, 0)))
  ∧ queue_ok ImpressionModel.created_at 0 (split_impressions (db (new_world (λ _, 0))))
  ∧ fst (impression_history id id (SqlImpressionStorage.__init__ 100)
           [Put ["A"; "B"; "C"]%string; PopMany 2; PopMany 2; PopMany 1]
           (new_world (λ _, 0)))
    = [Returned ["A"; "B"]%string; Returned ["C"%string]; Returned []].
Proof.
  assert (never_set_back (wall_clock (new_world (λ _, 0)))) as Hclock
    by (intros i j Hij; simpl; lia).
  assert (queue_ok ImpressionModel.created_at 0
            (split_impressions (db (new_world (λ _, 0))))) as Hq
    by apply queue_ok_nil.
  split; [exact Hclock | split; [exact Hq |]].
  exact (proj1 (pop_many_is_fifo_while_clock_is_not_set_back id id (new_world (λ _, 0))
                  Hclock)
           (SqlImpressionStorage.__init__ 100)
           [Put ["A"; "B"; "C"]%string; PopMany 2; PopMany 2; PopMany 1] Hq).
Defined.

(** Without a callable hook, a [put] that leaves more rows than
    [_queue_size] raises. *)
Lemma impression_put_without_hook {A} (dumps : A -> string)
    (self : SqlImpressionStorage.t) (impressions : list A) (w : World) :
  callable (SqlImpressionStorage._table_full_hook self) = false ->
  Z.of_nat (length (split_impressions (db w)) + length impressions)
    > SqlImpressionStorage._queue_size self ->
  fst (SqlImpressionStorage.put dumps self impressions w) = Raised TypeError.
Proof.
  intros Hhook Hfull.
  destruct (impression_put_outcome dumps self impressions w) as (new & Hput & Hjson & _).
  simpl in Hput. rewrite Hput.
  assert (length new = length impressions) as Hlen
    by (rewrite <- (length_map ImpressionModel.json_data), Hjson; apply length_map).
  rewrite length_app, Hlen.
  destruct (Z.gtb_spec (Z.of_nat (length (split_impressions (db w)) + length impressions))
              (SqlImpressionStorage._queue_size self)); [|lia].
  by destruct (SqlImpressionStorage._table_full_hook self).
Qed.

Lemma event_put_without_hook {A} (dumps : A -> string)
    (self : SqlEventStorage.t) (events : list (A * Z)) (w : World) :
  callable (SqlEventStorage._table_full_hook self) = false ->
  Z.of_nat (length (split_events (db w)) + length events)
    > SqlEventStorage._queue_size self ->
  fst (SqlEventStorage.put dumps self events w) = Raised TypeError.
Proof.
  intros Hhook Hfull.
  destruct (event_put_outcome dumps self events w) as (new & Hput & Hjson & _).
  simpl in Hput. rewrite Hput.
  assert (length new = length events) as Hlen
    by (rewrite <- (length_map EventModel.json_data), Hjson; apply length_map).
  rewrite length_app, Hlen.
  destruct (Z.gtb_spec (Z.of_nat (length (split_events (db w)) + length events))
              (SqlEventStorage._queue_size self)); [|lia].
  cbn [orb]. by destruct (SqlEventStorage._table_full_hook self).
Qed.

(** C2: the code at a failing input.  On a store of capacity 1 whose hook was
    never set ([set_table_full_hook None] leaves it unset), [put] of two
    entries inserts both rows and then raises [TypeError], because it calls
    the hook, which is [None]; the claim has it return true.  The same on
    the event store. *)
Theorem put_without_hook_raises_when_full :
  SqlImpressionStorage.set_table_full_hook (SqlImpressionStorage.__init__ 1) PyNone
    = SqlImpressionStorage.__init__ 1
  ∧ fst (SqlImpressionStorage.put id (SqlImpressionStorage.__init__ 1)
           ["A"; "B"]%string (new_world Z.of_nat)) = Raised TypeError
  ∧ length (split_impressions (db (snd
      (SqlImpressionStorage.put id (SqlImpressionStorage.__init__ 1)
         ["A"; "B"]%string (new_world Z.of_nat))))) = 2%nat
  ∧ fst (SqlEventStorage.put id (SqlEventStorage.__init__ 1)
           [("A", 10); ("B", 10)]%string (new_world Z.of_nat)) = Raised TypeError.
Proof. repeat split; reflexivity. Qed.

(** C3.  With a function [f] registered as the hook, [put] returns true and
    calls [f] exactly once, within the call, when the table holds more rows
    than [_queue_size] after the insert, and not at all otherwise; on the
    event store it calls [f] exactly once when the table holds more rows
    than [_queue_size] or the sizes of all stored events add up to at least
    5 * 1024 * 1024, and not at all otherwise. *)
Theorem put_calls_hook_once_iff_full {A : Type} (dumps : A -> string)
    (f : string) (w : World) :
  (∀ (self0 : SqlImpressionStorage.t) (impressions : list A),
     ∃ w' : World,
       SqlImpressionStorage.put dumps
         (SqlImpressionStorage.set_table_full_hook self0 (PyFunction f)) impressions w
         = (Returned true, w')
       ∧ length (split_impressions (db w')) =
           (length (split_impressions (db w)) + length impressions)%nat
       ∧ hook_calls w' =
           hook_calls w ++
             (if Z.of_nat (length (split_impressions (db w')))
                   >? SqlImpressionStorage._queue_size self0
              then [f] else []))
  ∧ (∀ (self0 : SqlEventStorage.t) (events : list (A * Z)),
       ∃ w' : World,
         SqlEventStorage.put dumps
           (SqlEventStorage.set_table_full_hook self0 (PyFunction f)) events w
           = (Returned true, w')
         ∧ map EventModel.size (split_events (db w')) =
             map EventModel.size (split_events (db w)) ++ map snd events
         ∧ hook_calls w' =
             hook_calls w ++
               (if (Z.of_nat (length (split_events (db w')))
                      >? SqlEventStorage._queue_size self0)
                   || (foldr Z.add 0 (map EventModel.size (split_events (db w')))
                         >=? 5 * 1024 * 1024)
                then [f] else [])).
Proof.
  split.
  - intros self0 impressions.
    destruct (impression_put_outcome dumps
                (SqlImpressionStorage.set_table_full_hook self0 (PyFunction f))
                impressions w) as (new & Hput & Hjson & _).
    simpl in Hput.
    assert (length new = length impressions) as Hlen
      by (rewrite <- (length_map ImpressionModel.json_data), Hjson; apply length_map).
    destruct (_ >? _) eqn:Hfull; eexists; (split; [exact Hput|]); simpl;
      rewrite ?Hfull, ?app_nil_r, length_app, Hlen; done.
  - intros self0 events.
    destruct (event_put_outcome dumps
                (SqlEventStorage.set_table_full_hook self0 (PyFunction f))
                events w) as (new & Hput & _ & Hsize & _).
    simpl in Hput.
    change SqlEventStorage.MAX_SIZE_BYTES with (5 * 1024 * 1024) in Hput.
    destruct (_ || _) eqn:Hfull; eexists; (split; [exact Hput|]); simpl;
      rewrite ?Hfull, ?app_nil_r, map_app, Hsize; done.
Qed.

(** ** The split storage *)
Section Splits.
Context {Split : Type}.
Variable split_name : Split -> string.
Variable split_traffic_type_name : Split -> string.
Variable dumps_to_json : Split -> string.
Variable from_raw_loads : string -> Split.
Variable local_kill : string -> Z -> Split -> Split.

#[local] Abbreviation kill_locally :=
  (SqlSplitStorage.kill_locally split_name split_traffic_type_name
     dumps_to_json from_raw_loads local_kill).
#[local] Abbreviation put :=
  (SqlSplitStorage.put split_name split_traffic_type_name dumps_to_json).

Lemma lock_released (w : World) :
  lock_held w = false -> set_lock_held false (set_lock_held true w) = w.
Proof. destruct w. simpl. by intros ->. Qed.

Lemma no_split_named (name : string) (rows : list SplitModel.t) :
  Forall (λ r, SplitModel.name r ≠ name) rows ->
  List.filter (split_named name) rows = [].
Proof.
  intros Hno. apply filter_none. eapply Forall_impl; [exact Hno|].
  intros r Hr. by apply String.eqb_neq.
Qed.

(** A superseded kill returns at once. *)
Lemma kill_locally_superseded (w : World) (name default_treatment : string)
    (change_number stored : Z) :
  lock_held w = false ->
  split_metadata (db w) !! "change_number"%string = Some stored ->
  stored > change_number ->
  kill_locally name default_treatment change_number w = (Returned tt, w).
Proof.
  intros Hlock Hstored Hgt.
  unfold SqlSplitStorage.kill_locally, with_lock. rewrite Hlock.
  unfold mbind, M_bind, SqlSplitStorage.get_change_number, gets. cbv beta.
  cbn [db set_lock_held]. rewrite Hstored.
  destruct (Z.gtb_spec stored change_number); [|lia].
  unfold mret, M_ret. by rewrite lock_released.
Qed.

(** A kill of a split that is not stored returns at once. *)
Lemma kill_locally_absent (w : World) (name default_treatment : string)
    (change_number : Z) :
  lock_held w = false ->
  Forall (λ r, SplitModel.name r ≠ name) (split_splits (db w)) ->
  kill_locally name default_treatment change_number w = (Returned tt, w).
Proof.
  intros Hlock Hno.
  unfold SqlSplitStorage.kill_locally, with_lock. rewrite Hlock.
  unfold mbind, M_bind, SqlSplitStorage.get_change_number, gets. cbv beta.
  cbn [db set_lock_held].
  destruct (_ >? _).
  - unfold mret, M_ret. by rewrite lock_released.
  - unfold SqlSplitStorage.get, SqlSplitStorage._get_split_record,
      mbind, M_bind, gets, lift, DbClient.get_one_or_none. cbv beta.
    cbn [db set_lock_held]. fold (split_named name). rewrite (no_split_named _ _ Hno).
    cbn [DbClient.one_or_none]. unfold mret, M_ret. by rewrite lock_released.
Qed.

(** A kill that applies never returns: it holds [_lock] when it calls
    [put], which waits for [_lock]. *)
Lemma kill_locally_blocks (w : World) (name default_treatment : string)
    (change_number : Z) (record : SplitModel.t) :
  lock_held w = false ->
  match split_metadata (db w) !! "change_number"%string with
  | Some stored => stored <= change_number
  | None => 0 <= change_number
  end ->
  List.filter (split_named name) (split_splits (db w)) = [record] ->
  kill_locally name default_treatment change_number w =
    (Blocked, set_lock_held true w).
Proof.
  intros Hlock Hle Hrow.
  unfold SqlSplitStorage.kill_locally, with_lock. rewrite Hlock.
  unfold mbind, M_bind, SqlSplitStorage.get_change_number, gets. cbv beta.
  cbn [db set_lock_held].
  destruct (Z.gtb_spec (match split_metadata (db w) !! "change_number"%string with
                        | Some number => number | None => 0 end) change_number)
    as [Hgt|_].
  { destruct (split_metadata (db w) !! _); lia. }
  unfold SqlSplitStorage.get, SqlSplitStorage._get_split_record,
    mbind, M_bind, gets, lift, DbClient.get_one_or_none. cbv beta.
  cbn [db set_lock_held]. fold (split_named name). rewrite Hrow.
  cbn [DbClient.one_or_none]. unfold mret, M_ret.
  unfold SqlSplitStorage.put, with_lock. reflexivity.
Qed.
End Splits.

(** C7: the code at a failing input.  A split is stored and the stored change
    number (0) does not supersede the given one (5), so the kill applies:
    [kill_locally] takes [_lock], reads the split, and calls [put], which
    waits for [_lock].  The call never returns, the lock stays held, and the
    stored split is not rewritten; the claim has the override applied
    through [put]. *)
Theorem kill_locally_waits_for_its_own_lock
    {Split : Type} (split_name split_traffic_type_name : Split -> string)
    (dumps_to_json : Split -> string) (from_raw_loads : string -> Split)
    (local_kill : string -> Z -> Split -> Split)
    (split : Split) (default_treatment : string) (clock : nat -> Z) :
  ∃ w : World,
    SqlSplitStorage.put split_name split_traffic_type_name dumps_to_json split
      (new_world clock) = (Returned tt, w)
    ∧ lock_held w = false
    ∧ fst (SqlSplitStorage.get_change_number w) = Returned 0
    ∧ split_splits (db w) =
        [SplitModel.mk 1 (split_name split) (split_traffic_type_name split)
           (dumps_to_json split)]
    ∧ SqlSplitStorage.kill_locally split_name split_traffic_type_name
        dumps_to_json from_raw_loads local_kill
        (split_name split) default_treatment 5 w
      = (Blocked, set_lock_held true w).
Proof.
  exists (mkWorld
            (set_split_splits
               [SplitModel.mk 1 (split_name split) (split_traffic_type_name split)
                  (dumps_to_json split)] empty_db)
            clock 0 [] false).
  split; [reflexivity|]. split; [reflexivity|]. split; [reflexivity|].
  split; [reflexivity|].
  eapply kill_locally_blocks; [reflexivity | |].
  - cbn [db split_metadata set_split_splits empty_db]. rewrite lookup_empty. lia.
  - cbn [db split_splits set_split_splits List.filter].
    unfold split_named. cbn [SplitModel.name]. by rewrite String.eqb_refl.
Qed.

(** C9.  When no split named [name] is stored (and no other call holds the
    storage's lock), [kill_locally name default_treatment change_number]
    returns without error, whatever the treatment and the change number, and
    leaves the world as it was: every table, the change-number row of the
    metadata included, and the lock released. *)
Theorem kill_locally_unknown_split_is_noop
    {Split : Type} (split_name split_traffic_type_name : Split -> string)
    (dumps_to_json : Split -> string) (from_raw_loads : string -> Split)
    (local_kill : string -> Z -> Split -> Split)
    (w : World) (name default_treatment : string) (change_number : Z) :
  lock_held w = false ->
  Forall (λ r, SplitModel.name r ≠ name) (split_splits (db w)) ->
  SqlSplitStorage.kill_locally split_name split_traffic_type_name
    dumps_to_json from_raw_loads local_kill
    name default_treatment change_number w = (Returned tt, w).
Proof. apply kill_locally_absent. Qed.

Lemma kill_locally_unknown_split_is_noop_witness :
  lock_held (mkWorld (set_split_splits [SplitModel.mk 1 "x" "user" "x"] empty_db)
               Z.of_nat 0 [] false) = false
  ∧ Forall (λ r, SplitModel.name r ≠ "y"%string)
      (split_splits (db (mkWorld (set_split_splits [SplitModel.mk 1 "x" "user" "x"] empty_db)
                           Z.of_nat 0 [] false)))
  ∧ SqlSplitStorage.kill_locally (λ s : string, s) (λ _, "user"%string) (λ s, s) (λ s, s)
      (λ _ _ s, s) "y" "off" 5
      (mkWorld (set_split_splits [SplitModel.mk 1 "x" "user" "x"] empty_db)
         Z.of_nat 0 [] false)
    = (Returned tt,
       mkWorld (set_split_splits [SplitModel.mk 1 "x" "user" "x"] empty_db)
         Z.of_nat 0 [] false).
Proof.
  assert (Forall (λ r, SplitModel.name r ≠ "y"%string)
            (split_splits (db (mkWorld
               (set_split_splits [SplitModel.mk 1 "x" "user" "x"] empty_db)
               Z.of_nat 0 [] false)))) as Hno
    by (repeat constructor; discriminate).
  split; [reflexivity | split; [exact Hno |]].
  apply kill_locally_unknown_split_is_noop; [reflexivity | exact Hno].
Defined.

(** ** The segment storage *)
Section Segments.
Import SqlSegmentStorage.

(** [update] leaves the record with the members it had, less [to_remove],
    plus [to_add], and with the given change number when there is one. *)
Lemma updated_members (to_add to_remove : list string) (change_number : option Z)
    (record : SegmentModel.t) :
  members (updated to_add to_remove change_number record) =
    (members record ∖ list_to_set to_remove) ∪ list_to_set to_add
  ∧ SegmentModel.change_number (updated to_add to_remove change_number record) =
      match change_number with
      | Some n => Some n
      | None => SegmentModel.change_number record
      end
  ∧ SegmentModel.name (updated to_add to_remove change_number record) =
      SegmentModel.name record.
Proof.
  split; [|by destruct change_number].
  assert (members (SegmentModel.set_keys
            (List.filter (λ key, negb (bool_decide (SegmentKeyModel.name key ∈ to_remove)))
               (SegmentModel.keys record) ++ map SegmentKeyModel.mk to_add) record)
          = (members record ∖ list_to_set to_remove) ∪ list_to_set to_add) as Hm.
  { unfold members. cbn [SegmentModel.keys SegmentModel.set_keys].
    apply set_eq. intros x.
    rewrite elem_of_union, elem_of_difference, !elem_of_list_to_set, map_app.
    rewrite elem_of_app, !list_elem_of_fmap. split.
    - intros [(k & -> & Hk)|(k & -> & Hk)].
      + apply list_elem_of_In, filter_In in Hk as [Hk Hkeep].
        apply negb_true_iff, bool_decide_eq_false in Hkeep.
        left. split; [|done]. exists k. split; [done|]. by apply list_elem_of_In.
      + apply list_elem_of_fmap in Hk as (y & -> & Hy). by right.
    - intros [[(k & -> & Hk) Hkeep]|Hadd].
      + left. exists k. split; [done|]. apply list_elem_of_In, filter_In.
        split; [by apply list_elem_of_In|].
        by apply negb_true_iff, bool_decide_eq_false.
      + right. exists (SegmentKeyModel.mk x). split; [done|].
        apply list_elem_of_fmap. by exists x. }
  unfold updated. by destruct change_number.
Qed.
Lemma one_or_none_found {R} (found : list R) (r : R) :
  DbClient.one_or_none found = Returned (Some r) -> found = [r].
Proof. destruct found as [|x [|y l]]; simpl; congruence. Qed.

Lemma one_or_none_absent {R} (found : list R) :
  DbClient.one_or_none found = Returned None -> found = [].
Proof. destruct found as [|x [|y l]]; simpl; congruence. Qed.

Lemma updated_name (to_add to_remove : list string) (change_number : option Z)
    (record : SegmentModel.t) :
  SegmentModel.name (updated to_add to_remove change_number record) =
    SegmentModel.name record
  ∧ SegmentModel.id (updated to_add to_remove change_number record) =
      SegmentModel.id record.
Proof. unfold updated. by destruct change_number. Qed.

(** [update] then [get]: the segment is there, created from nothing when it
    was absent, with the record that [updated] computes. *)
Lemma update_then_get (w : World) (segment_name : string) (to_add to_remove : list string)
    (change_number : option Z) (found : option SegmentModel.t) :
  NoDup (map pk (split_segments (db w))) ->
  DbClient.get_one_or_none (named segment_name) (split_segments (db w)) = Returned found ->
  ∃ (record : SegmentModel.t) (w' : World),
    (update segment_name to_add to_remove change_number;; get segment_name) w =
      (Returned (Some (mkSegment segment_name
                         (map SegmentKeyModel.name (SegmentModel.keys record))
                         (SegmentModel.change_number record))), w')
    ∧ record = updated to_add to_remove change_number
                 match found with
                 | Some r => r
                 | None => SegmentModel.mk (DbClient.fresh_pk (split_segments (db w)))
                             segment_name change_number []
                 end.
Proof.
  intros Hnodup Hfound. unfold DbClient.get_one_or_none in Hfound.
  destruct found as [r|]; eexists _, _; (split; [|reflexivity]);
    unfold update, get, mbind, M_bind, gets, lift, modify, DbClient.get_one_or_none;
    cbv beta; rewrite Hfound;
    cbn [db set_db split_segments set_split_segments].
  - apply one_or_none_found in Hfound.
    assert (named segment_name r = true) as Hr.
    { assert (In r (List.filter (named segment_name) (split_segments (db w)))) as Hin
        by (rewrite Hfound; by left).
      by apply filter_In in Hin as [_ ?]. }
    rewrite (filter_merge (named segment_name) _ r
               (updated to_add to_remove change_number r)); [reflexivity | done | done | |].
    + apply updated_name.
    + unfold named in *. by rewrite (proj1 (updated_name _ _ _ _)).
  - apply one_or_none_absent in Hfound.
    unfold DbClient.add.
    rewrite List.filter_app, Hfound. cbn [app List.filter].
    unfold named at 1. rewrite (proj1 (updated_name _ _ _ _)). cbn [SegmentModel.name].
    rewrite String.eqb_refl. reflexivity.
Qed.
End Segments.

(** C6: the code at a failing input.  The segment [s] has the one member
    [a]; [update s [a] [] None] appends a second member row [a], so the
    segment then has the member rows [a; a], and [segment_contains s a]
    raises [MultipleResultsFound]; the claim has no duplicate member rows. *)
Theorem update_duplicates_members_already_present :
  fst ((SqlSegmentStorage.put (SqlSegmentStorage.mkSegment "s" ["a"%string] (Some 1));;
        SqlSegmentStorage.update "s" ["a"%string] [] None;;
        SqlSegmentStorage.get "s") (new_world Z.of_nat))
    = Returned (Some (SqlSegmentStorage.mkSegment "s" ["a"; "a"]%string (Some 1)))
  ∧ fst ((SqlSegmentStorage.put (SqlSegmentStorage.mkSegment "s" ["a"%string] (Some 1));;
          SqlSegmentStorage.update "s" ["a"%string] [] None;;
          SqlSegmentStorage.segment_contains "s" "a") (new_world Z.of_nat))
    = Raised MultipleResultsFound.
Proof. split; reflexivity. Qed.

(** C10.  When no segment named [segment_name] is stored, the segment
    storage's [get_change_number segment_name] returns [None], no number and
    no error, and changes nothing; the split storage's [get_change_number]
    returns 0 when the metadata has no [change_number] row. *)
Theorem get_change_number_of_unknown_segment (w : World) (segment_name : string) :
  Forall (λ r, SegmentModel.name r ≠ segment_name) (split_segments (db w)) ->
  SqlSegmentStorage.get_change_number segment_name w = (Returned None, w)
  ∧ (split_metadata (db w) !! "change_number"%string = None ->
     SqlSplitStorage.get_change_number w = (Returned 0, w)).
Proof.
  intros Hno. split.
  - unfold SqlSegmentStorage.get_change_number, SqlSegmentStorage.get,
      mbind, M_bind, gets, lift, DbClient.get_one_or_none. cbv beta.
    rewrite filter_none; [reflexivity|].
    eapply Forall_impl; [exact Hno|]. intros r Hr. by apply String.eqb_neq.
  - intros Hnone. unfold SqlSplitStorage.get_change_number, gets. by rewrite Hnone.
Qed.

Lemma get_change_number_of_unknown_segment_witness :
  Forall (λ r, SegmentModel.name r ≠ "some_segment"%string)
    (split_segments (db (new_world Z.of_nat)))
  ∧ SqlSegmentStorage.get_change_number "some_segment" (new_world Z.of_nat)
    = (Returned None, new_world Z.of_nat)
  ∧ SqlSplitStorage.get_change_number (new_world Z.of_nat)
    = (Returned 0, new_world Z.of_nat).
Proof.
  assert (Forall (λ r, SegmentModel.name r ≠ "some_segment"%string)
            (split_segments (db (new_world Z.of_nat)))) as Hno by constructor.
  split; [exact Hno|].
  destruct (get_change_number_of_unknown_segment (new_world Z.of_nat)
              "some_segment" Hno) as [Hsegment Hsplit].
  split; [exact Hsegment | exact (Hsplit eq_refl)].
Defined.

(** ** Parallel callers *)
Section ParallelThreads.
Import Parallel.
Variable name : string.

Lemma done_count_insert (ps : list pc) (i : nat) (p q : pc) :
  ps !! i = Some p ->
  (done_count (<[i := q]> ps) + (if is_done p then 1 else 0) =
   done_count ps + (if is_done q then 1 else 0))%nat.
Proof.
  unfold done_count. revert i. induction ps as [|x ps IH]; intros i Hi; [done|].
  destruct i as [|i]; simpl in *.
  - injection Hi as ->. destruct (is_done p), (is_done q); simpl; lia.
  - specialize (IH i Hi). destruct (is_done x); simpl; lia.
Qed.

Lemma done_count_same (ps : list pc) (i : nat) (p q : pc) :
  ps !! i = Some p -> is_done p = false -> is_done q = false ->
  done_count (<[i := q]> ps) = done_count ps.
Proof.
  intros Hi Hp Hq. pose proof (done_count_insert ps i p q Hi) as H.
  rewrite Hp, Hq in H. lia.
Qed.

Lemma thread_step_length (j : nat) (s : system) :
  length (threads (thread_step name j s)) = length (threads s).
Proof.
  unfold thread_step, at_pc.
  destruct (threads s !! j) as [[]|]; try done;
    try (destruct (session_lock s));
    try (destruct (DbClient.get_one_or_none _ _) as [[]| |]);
    cbn [threads]; by rewrite ?length_insert.
Qed.

Lemma run_length (schedule : list nat) (s : system) :
  length (threads (run name schedule s)) = length (threads s).
Proof.
  revert s. induction schedule as [|j schedule IH]; intros s; [done|].
  simpl. by rewrite IH, thread_step_length.
Qed.

Lemma done_count_all_done (ps : list pc) :
  Forall (λ p, p = Done) ps -> done_count ps = length ps.
Proof.
  unfold done_count. induction 1 as [|p ps -> _ IH]; simpl; [done | by rewrite IH].
Qed.
End ParallelThreads.

(** ** Parallel callers on an engine that may refuse an insert *)
Section RacingCallers.
Import Racing.
Variable rejects : list CounterModel.t -> CounterModel.t -> bool.
Variable old : list CounterModel.t.
Variable name : string.
Hypothesis engine_conflicts : refuses_only_conflicts rejects.
Hypothesis old_has_no_row : Forall (λ r, CounterModel.name r ≠ name) old.

Lemma calls_through_insert (ps : list pc) (i : nat) (p q : pc) :
  ps !! i = Some p ->
  (calls_through (<[i := q]> ps) + (if is_done p then 1 else 0) =
   calls_through ps + (if is_done q then 1 else 0))%nat.
Proof using Type.
  unfold calls_through. revert i. induction ps as [|x ps IH]; intros i Hi; [done|].
  destruct i as [|i]; simpl in *.
  - injection Hi as ->. destruct (is_done p), (is_done q); simpl; lia.
  - specialize (IH i Hi). destruct (is_done x); simpl; lia.
Qed.

Lemma calls_through_same (ps : list pc) (i : nat) (p q : pc) :
  ps !! i = Some p -> is_done p = false -> is_done q = false ->
  calls_through (<[i := q]> ps) = calls_through ps.
Proof using Type.
  intros Hi Hp Hq. pose proof (calls_through_insert ps i p q Hi) as H.
  rewrite Hp, Hq in H. lia.
Qed.

Lemma invariant_init (n : nat) : invariant old name (init n old).
Proof using Type.
  unfold invariant, init. simpl. split.
  - apply Forall_replicate. by left.
  - replace (calls_through (replicate n Start)) with O; [done|].
    unfold calls_through. induction n; simpl; auto.
Qed.

Lemma query_finds_none :
  DbClient.get_one_or_none (λ r, String.eqb (CounterModel.name r) name) (table old name 0)
    = Returned None.
Proof using old_has_no_row.
  unfold DbClient.get_one_or_none, table. fold (counter_named name).
  by rewrite (no_counter_named name old old_has_no_row).
Qed.

Lemma query_finds_row (k : nat) :
  DbClient.get_one_or_none (λ r, String.eqb (CounterModel.name r) name) (table old name (S k))
    = Returned (Some (row old name (S k))).
Proof using old_has_no_row.
  unfold DbClient.get_one_or_none, table. fold (counter_named name).
  rewrite List.filter_app, (no_counter_named name old old_has_no_row).
  simpl. unfold counter_named. simpl. by rewrite String.eqb_refl.
Qed.

(** The thread that found no row of [name] holds [_db_session_lock] from its
    query to its insert: the table is still the one it queried, and the
    engine has no row of that name to refuse the insert for. *)
Lemma insert_not_refused :
  rejects old (CounterModel.create name (DbClient.fresh_pk old)) = false.
Proof using engine_conflicts old_has_no_row.
  destruct (rejects old _) eqn:Hrejects; [|done].
  destruct (engine_conflicts _ _ Hrejects) as (r & Hr & Hname).
  rewrite Forall_forall in old_has_no_row. by destruct (old_has_no_row r Hr).
Qed.

Lemma thread_step_invariant (j : nat) (s : system) :
  invariant old name s -> invariant old name (thread_step rejects name j s).
Proof using engine_conflicts old_has_no_row.
  destruct s as [rows lock ps]. unfold invariant, thread_step, at_pc.
  cbn [counters session_lock threads]. intros Hinv.
  destruct (ps !! j) as [p|] eqn:Hj; [|done].
  assert (j < length ps)%nat as Hlt by (by eapply lookup_lt_Some).
  destruct lock.
  - (* some thread holds the lock *)
    destruct Hinv as (i & p0 & Hi & Hcrit & Hothers).
    destruct (decide (j = i)) as [->|Hne].
    + rewrite Hj in Hi. injection Hi as <-.
      inversion Hcrit as [Hp Hr | Hk Hp Hr | Hp Hr | Hp Hr]; subst p rows;
        cbn [counters session_lock threads].
      * (* Query *)
        destruct (calls_through ps) as [|k] eqn:Hk.
        -- rewrite query_finds_none. cbn [counters session_lock threads].
           exists i, Insert. split; [by apply list_lookup_insert_eq|]. split.
           ++ rewrite (calls_through_same _ _ Query Insert), Hk by done.
              by constructor.
           ++ intros j' q Hj' Hq. rewrite list_lookup_insert_ne in Hq by done. eauto.
        -- rewrite query_finds_row. cbn [counters session_lock threads].
           exists i, (Increment (DbClient.fresh_pk old)).
           split; [by apply list_lookup_insert_eq|]. split.
           ++ rewrite (calls_through_same _ _ Query (Increment _)), Hk by done.
              constructor.
           ++ intros j' q Hj' Hq. rewrite list_lookup_insert_ne in Hq by done. eauto.
      * (* Insert: the engine accepts the row *)
        rewrite insert_not_refused. cbn [counters session_lock threads].
        exists i, (Increment (DbClient.fresh_pk old)).
        split; [by apply list_lookup_insert_eq|]. split.
        -- rewrite (calls_through_same _ _ Insert (Increment _)), Hk by done.
           constructor.
        -- intros j' q Hj' Hq. rewrite list_lookup_insert_ne in Hq by done. eauto.
      * (* Increment *)
        exists i, Release.
        split; [by apply list_lookup_insert_eq|]. split.
        -- rewrite (calls_through_same _ _ (Increment (DbClient.fresh_pk old)) Release)
             by done.
           change (DbClient.fresh_pk old) with (pk (row old name (calls_through ps))) at 1.
           rewrite update_where_pk_last by apply pk_below_fresh.
           replace (CounterModel.increment_value (row old name (calls_through ps)))
             with (row old name (S (calls_through ps)))
             by (unfold row, CounterModel.increment_value; simpl; f_equal; lia).
           constructor.
        -- intros j' q Hj' Hq. rewrite list_lookup_insert_ne in Hq by done. eauto.
      * (* Release *)
        split.
        -- apply Forall_forall. intros q Hq.
           apply list_elem_of_lookup in Hq as [j' Hq].
           destruct (decide (j' = i)) as [->|Hne].
           ++ rewrite list_lookup_insert_eq in Hq by done. injection Hq as <-. by right.
           ++ rewrite list_lookup_insert_ne in Hq by done. eauto.
        -- pose proof (calls_through_insert ps i Release Done Hj) as Hcount.
           simpl in Hcount.
           replace (calls_through (<[i:=Done]> ps)) with (S (calls_through ps)) by lia.
           done.
    + (* another thread: it is idle, and waits or is through *)
      destruct (Hothers j p Hne Hj) as [-> | ->];
        cbn [counters session_lock threads]; eauto 10.
  - (* the lock is free *)
    destruct Hinv as [Hidle Hrows]. rewrite Forall_forall in Hidle.
    assert (idle p) as [-> | ->]
      by (apply Hidle; by eapply list_elem_of_lookup_2);
      cbn [counters session_lock threads].
    + exists j, Query. split; [by apply list_lookup_insert_eq|]. split.
      * rewrite (calls_through_same _ _ Start Query) by done. rewrite Hrows. constructor.
      * intros j' q Hj' Hq. rewrite list_lookup_insert_ne in Hq by done.
        apply Hidle. by eapply list_elem_of_lookup_2.
    + split; [by apply Forall_forall | done].
Qed.

Lemma run_invariant (schedule : list nat) (s : system) :
  invariant old name s -> invariant old name (run rejects name schedule s).
Proof using engine_conflicts old_has_no_row.
  revert s. induction schedule as [|j schedule IH]; intros s Hinv; [done|].
  simpl. apply IH. by apply thread_step_invariant.
Qed.

Lemma racing_step_length (j : nat) (s : system) :
  length (threads (thread_step rejects name j s)) = length (threads s).
Proof using Type.
  unfold thread_step, at_pc.
  destruct (threads s !! j) as [[]|]; try done;
    try (destruct (session_lock s));
    try (destruct (DbClient.get_one_or_none _ _) as [[]| |]);
    try (destruct (rejects _ _));
    try (destruct (DbClient.one _));
    cbn [threads]; by rewrite ?length_insert.
Qed.

Lemma racing_run_length (schedule : list nat) (s : system) :
  length (threads (run rejects name schedule s)) = length (threads s).
Proof using Type.
  revert s. induction schedule as [|j schedule IH]; intros s; [done|].
  simpl. by rewrite IH, racing_step_length.
Qed.

Lemma calls_through_all_done (ps : list pc) :
  Forall (λ p, p = Done) ps -> calls_through ps = length ps.
Proof using Type.
  unfold calls_through. induction 1 as [|p ps -> _ IH]; simpl; [done | by rewrite IH].
Qed.

(** When every call is through, the table holds the one row, at the number
    of calls. *)
Lemma invariant_all_done (s : system) :
  invariant old name s -> all_done s -> counters s = table old name (length (threads s)).
Proof using Type.
  unfold invariant, all_done. intros Hinv Hdone.
  destruct (session_lock s).
  - destruct Hinv as (i & p & Hi & Hcrit & _).
    rewrite Forall_forall in Hdone.
    assert (p = Done) as -> by (apply Hdone; by eapply list_elem_of_lookup_2).
    inversion Hcrit.
  - destruct Hinv as [_ ->]. by rewrite calls_through_all_done.
Qed.

(** No insert is refused and no call raises. *)
Lemma invariant_no_failure (s : system) :
  invariant old name s ->
  Forall (λ p, p ≠ Recover ∧ ∀ e, p ≠ Failed e) (threads s).
Proof using Type.
  unfold invariant. intros Hinv. apply Forall_forall. intros p Hp.
  apply list_elem_of_lookup in Hp as [j Hj].
  assert (idle p ∨ ∃ k rows, critical old name k p rows) as [[-> | ->]|(k & rows & Hcrit)].
  { destruct (session_lock s).
    - destruct Hinv as (i & p0 & Hi & Hcrit & Hothers).
      destruct (decide (j = i)) as [->|Hne].
      + rewrite Hj in Hi. injection Hi as <-. right. eauto.
      + left. eauto.
    - destruct Hinv as [Hidle _]. rewrite Forall_forall in Hidle.
      left. apply Hidle. by eapply list_elem_of_lookup_2. }
  - done.
  - done.
  - by inversion Hcrit.
Qed.

Lemma idle_not_all_done (ps : list pc) :
  Forall idle ps -> ¬ Forall (λ p, p = Done) ps -> ∃ j, ps !! j = Some Start.
Proof using Type.
  induction 1 as [|p ps Hp _ IH]; intros Hnot.
  - destruct Hnot. constructor.
  - destruct Hp as [-> | ->]; [by exists O|].
    destruct IH as [j Hj].
    + intros Hall. apply Hnot. by constructor.
    + by exists (S j).
Qed.

(** While a call is not through, some thread can move. *)
Lemma invariant_progress (s : system) :
  invariant old name s -> ¬ all_done s -> ∃ j, thread_step rejects name j s ≠ s.
Proof using engine_conflicts old_has_no_row.
  destruct s as [rows lock ps]. unfold invariant, all_done, thread_step, at_pc.
  cbn [counters session_lock threads]. intros Hinv Hnot.
  destruct lock.
  - destruct Hinv as (i & p & Hi & Hcrit & _). exists i. rewrite Hi.
    assert (i < length ps)%nat as Hlt by (by eapply lookup_lt_Some).
    assert (∀ rows' lock' q, q ≠ p -> mkSystem rows' lock' (<[i:=q]> ps)
              ≠ mkSystem rows true ps) as Hmoved.
    { intros rows' lock' q Hq Heq. injection Heq as _ _ Heq.
      apply (f_equal (λ l, l !! i)) in Heq.
      rewrite list_lookup_insert_eq, Hi in Heq by done. congruence. }
    inversion Hcrit as [Hp Hr | Hk Hp Hr | Hp Hr | Hp Hr]; subst p rows.
    + destruct (calls_through ps).
      * rewrite query_finds_none. by apply Hmoved.
      * rewrite query_finds_row. by apply Hmoved.
    + rewrite insert_not_refused. by apply Hmoved.
    + by apply Hmoved.
    + by apply Hmoved.
  - destruct Hinv as [Hidle _].
    destruct (idle_not_all_done ps Hidle Hnot) as [j Hj].
    exists j. by rewrite Hj.
Qed.

Lemma work_left_insert (ps : list pc) (i : nat) (p q : pc) :
  ps !! i = Some p ->
  (work_left (<[i := q]> ps) + steps_left p = work_left ps + steps_left q)%nat.
Proof using Type.
  unfold work_left. revert i. induction ps as [|x ps IH]; intros i Hi; [done|].
  destruct i as [|i]; simpl in *.
  - injection Hi as ->. lia.
  - specialize (IH i Hi). lia.
Qed.

(** A thread that moves has less work left. *)
Lemma thread_step_work_left (j : nat) (s : system) :
  thread_step rejects name j s ≠ s ->
  (work_left (threads (thread_step rejects name j s)) < work_left (threads s))%nat.
Proof using Type.
  unfold thread_step, at_pc. intros Hmoved.
  destruct (threads s !! j) as [p|] eqn:Hj; [|done].
  destruct p; try done.
  - destruct (session_lock s); [done|]. cbn [threads].
    pose proof (work_left_insert _ j _ Query Hj). simpl in *. lia.
  - destruct (DbClient.get_one_or_none _ _) as [[record|]|e|]; try done; cbn [threads].
    + pose proof (work_left_insert _ j _ (Increment (pk record)) Hj). simpl in *. lia.
    + pose proof (work_left_insert _ j _ Insert Hj). simpl in *. lia.
    + pose proof (work_left_insert _ j _ (Failed e) Hj). simpl in *. lia.
  - destruct (rejects _ _); cbn [threads].
    + pose proof (work_left_insert _ j _ Recover Hj). simpl in *. lia.
    + pose proof (work_left_insert _ j _
                    (Increment (pk (CounterModel.create name
                                      (DbClient.fresh_pk (counters s))))) Hj).
      simpl in *. lia.
  - destruct (DbClient.one _) as [record|e|]; try done; cbn [threads].
    + pose proof (work_left_insert _ j _ (Increment (pk record)) Hj). simpl in *. lia.
    + pose proof (work_left_insert _ j _ (Failed e) Hj). simpl in *. lia.
  - cbn [threads]. pose proof (work_left_insert _ j _ Release Hj). simpl in *. lia.
  - cbn [threads]. pose proof (work_left_insert _ j _ Done Hj). simpl in *. lia.
Qed.

Lemma all_done_dec (s : system) : {all_done s} + {¬ all_done s}.
Proof using Type.
  unfold all_done. apply Forall_dec. intros p.
  destruct p; (by left) || (by right).
Defined.

(** From a state of the invariant, the calls can all be brought through. *)
Lemma invariant_completes (m : nat) (s : system) :
  invariant old name s ->
  (work_left (threads s) <= m)%nat ->
  ∃ schedule : list nat, all_done (run rejects name schedule s).
Proof using engine_conflicts old_has_no_row.
  revert s. induction m as [|m IH]; intros s Hinv Hwork.
  - destruct (all_done_dec s) as [Hdone|Hnot]; [by exists []|].
    destruct (invariant_progress s Hinv Hnot) as [j Hj].
    pose proof (thread_step_work_left j s Hj). lia.
  - destruct (all_done_dec s) as [Hdone|Hnot]; [by exists []|].
    destruct (invariant_progress s Hinv Hnot) as [j Hj].
    pose proof (thread_step_work_left j s Hj) as Hless.
    destruct (IH (thread_step rejects name j s)) as [schedule Hdone].
    + by apply thread_step_invariant.
    + lia.
    + by exists (j :: schedule).
Qed.

Lemma run_app (schedule schedule' : list nat) (s : system) :
  run rejects name (schedule ++ schedule') s
    = run rejects name schedule' (run rejects name schedule s).
Proof using Type. unfold run. apply foldl_app. Qed.

(** What [n >= 1] sequential [inc_counter name] calls leave of the table
    [old]. *)
Lemma sequential_calls_leave_one_row (n : nat) (w : World) :
  repeat_call (S n) (SqlTelemetryStorage.inc_counter name) (with_counters old w)
    = (Returned tt, with_counters (table old name (S n)) w).
Proof using old_has_no_row.
  rewrite inc_counter_repeat_first by (by destruct w as [[]]).
  by destruct w as [[]].
Qed.
End RacingCallers.

(** Both engines refuse an insert only when a row of the name is stored. *)
Lemma engines_refuse_only_conflicts :
  refuses_only_conflicts Racing.unconstrained
  ∧ refuses_only_conflicts Racing.unique_name.
Proof.
  split; intros rows record Hrejects; [discriminate|].
  unfold Racing.unique_name in Hrejects. apply bool_decide_eq_true in Hrejects.
  apply list_elem_of_fmap in Hrejects as (r & Hname & Hr). by exists r.
Qed.



(** ** Tables keyed by a name *)
Section KeyedTables.
Context {R V : Type} `{Model R}.
Variable name : R -> string.
Variable value : R -> V.

Lemma table_of_nil : table_of name value [] ∅.
Proof. split; [constructor | intros n; by rewrite lookup_empty]. Qed.

Lemma keyed_by_true (n : string) (r : R) : keyed_by name n r = true ↔ name r = n.
Proof. apply String.eqb_eq. Qed.

Lemma keyed_by_false (n : string) (r : R) : keyed_by name n r = false ↔ name r ≠ n.
Proof. apply String.eqb_neq. Qed.

Lemma table_of_found (rows : list R) (m : gmap string V) (n : string) (v : V) :
  table_of name value rows m -> m !! n = Some v ->
  ∃ r : R, List.filter (keyed_by name n) rows = [r] ∧ value r = v ∧ name r = n.
Proof.
  intros [_ Hrows] Hn. specialize (Hrows n). rewrite Hn in Hrows. simpl in Hrows.
  destruct (List.filter (keyed_by name n) rows) as [|r [|r' l]] eqn:Hf; try done.
  exists r. split; [done|]. split; [by injection Hrows|].
  assert (In r (List.filter (keyed_by name n) rows)) as Hin by (rewrite Hf; by left).
  apply filter_In in Hin as [_ Hr]. by apply keyed_by_true.
Qed.

Lemma table_of_absent (rows : list R) (m : gmap string V) (n : string) :
  table_of name value rows m -> m !! n = None ->
  List.filter (keyed_by name n) rows = [].
Proof.
  intros [_ Hrows] Hn. specialize (Hrows n). rewrite Hn in Hrows. simpl in Hrows.
  by destruct (List.filter (keyed_by name n) rows).
Qed.

Lemma table_of_add (rows : list R) (m : gmap string V) (create : Z -> R) (n : string) :
  table_of name value rows m -> m !! n = None ->
  name (create (DbClient.fresh_pk rows)) = n ->
  pk (create (DbClient.fresh_pk rows)) = DbClient.fresh_pk rows ->
  table_of name value (DbClient.add create rows)
    (<[n := value (create (DbClient.fresh_pk rows))]> m).
Proof.
  intros [Hnodup Hrows] Hn Hname Hpk. unfold DbClient.add. split.
  - rewrite map_app. simpl. apply NoDup_app. split; [done|]. split; [|apply NoDup_singleton].
    intros k Hk Hk'. apply list_elem_of_singleton in Hk'. subst k. rewrite Hpk in Hk.
    apply list_elem_of_fmap in Hk as (r & Hr & Hin).
    pose proof (pk_below_fresh rows) as Hlt.
    rewrite Forall_forall in Hlt. specialize (Hlt r Hin). lia.
  - intros n'. rewrite List.filter_app, map_app, Hrows. simpl.
    destruct (decide (n' = n)) as [->|Hne].
    + rewrite lookup_insert_eq, Hn. simpl.
      by rewrite (proj2 (keyed_by_true n _) Hname).
    + rewrite lookup_insert_ne by done.
      rewrite (proj2 (keyed_by_false n' _)); [by rewrite app_nil_r | by rewrite Hname].
Qed.

Lemma table_of_update (rows : list R) (m : gmap string V) (r : R) (f : R -> R)
    (n : string) :
  table_of name value rows m ->
  List.filter (keyed_by name n) rows = [r] ->
  name (f r) = n -> pk (f r) = pk r ->
  table_of name value (DbClient.update_where_pk (pk r) f rows) (<[n := value (f r)]> m).
Proof.
  intros [Hnodup Hrows] Hfound Hname Hpk.
  assert (In r (List.filter (keyed_by name n) rows)) as Hin by (rewrite Hfound; by left).
  apply filter_In in Hin as [Hin Hr]. apply keyed_by_true in Hr.
  assert (∀ x, In x rows -> pk x = pk r -> x = r) as Hunique.
  { clear Hrows Hfound. induction rows as [|y rows IH]; [done|].
    cbn [map] in Hnodup. apply NoDup_cons in Hnodup as [Hy Hnodup].
    intros x [->|Hx] Hk.
    - destruct Hin as [|Hin]; [done|]. destruct Hy. rewrite Hk.
      apply list_elem_of_fmap. exists r. split; [done | by apply list_elem_of_In].
    - destruct Hin as [->|Hin]; [|by apply IH].
      destruct Hy. rewrite <- Hk.
      apply list_elem_of_fmap. exists x. split; [done | by apply list_elem_of_In]. }
  unfold DbClient.update_where_pk. split.
  - rewrite map_map. erewrite map_ext_in; [exact Hnodup|].
    intros x Hx. simpl. destruct (Z.eqb_spec (pk x) (pk r)) as [Hk|]; [|done].
    by rewrite (Hunique x Hx Hk).
  - intros n'. specialize (Hrows n').
    assert (List.filter (keyed_by name n')
              (map (λ x, if pk x =? pk r then f x else x) rows)
            = map (λ x, if pk x =? pk r then f x else x)
                (List.filter (keyed_by name n') rows)) as ->.
    { clear Hrows Hfound Hin Hnodup.
      induction rows as [|y rows IH]; [done|]. cbn [map List.filter].
      assert (keyed_by name n' (if pk y =? pk r then f y else y) = keyed_by name n' y) as ->.
      { destruct (Z.eqb_spec (pk y) (pk r)) as [Hk|]; [|done].
        rewrite (Hunique y (or_introl eq_refl) Hk). unfold keyed_by. by rewrite Hname, Hr. }
      rewrite IH; [by destruct (keyed_by name n' y)|].
      intros x Hx. apply Hunique. by right. }
    destruct (decide (n' = n)) as [->|Hne].
    + rewrite lookup_insert_eq, Hfound. simpl. by rewrite Z.eqb_refl.
    + rewrite lookup_insert_ne by done. rewrite <- Hrows. rewrite map_map.
      apply map_ext_in. intros x Hx. apply filter_In in Hx as [Hx Hn'].
      apply keyed_by_true in Hn'.
      destruct (Z.eqb_spec (pk x) (pk r)) as [Hk|]; [|done].
      rewrite (Hunique x Hx Hk) in Hn'. congruence.
Qed.

Lemma table_of_delete (rows : list R) (m : gmap string V) (n : string) :
  table_of name value rows m ->
  table_of name value (DbClient.delete_all (keyed_by name n) rows) (delete n m).
Proof.
  intros [Hnodup Hrows]. unfold DbClient.delete_all. split.
  - clear Hrows. induction rows as [|y rows IH]; [constructor|].
    cbn [map] in Hnodup. apply NoDup_cons in Hnodup as [Hy Hnodup].
    cbn [List.filter]. destruct (negb _); [|by apply IH].
    cbn [map]. apply NoDup_cons. split; [|by apply IH].
    intros Hin. destruct Hy. apply list_elem_of_fmap in Hin as (x & -> & Hx).
    apply list_elem_of_fmap. exists x. split; [done|].
    apply list_elem_of_In. apply list_elem_of_In, filter_In in Hx. tauto.
  - intros n'. specialize (Hrows n').
    destruct (decide (n' = n)) as [->|Hne].
    + rewrite lookup_delete_eq. simpl.
      rewrite filter_none; [done|]. apply Forall_forall. intros x Hx.
      apply list_elem_of_In, filter_In in Hx as [_ Hx].
      by apply negb_true_iff in Hx.
    + rewrite lookup_delete_ne by done. rewrite <- Hrows. f_equal.
      clear Hrows Hnodup. induction rows as [|y rows IH]; [done|].
      cbn [List.filter]. destruct (keyed_by name n y) eqn:Hy; cbn [negb List.filter].
      * apply keyed_by_true in Hy.
        rewrite (proj2 (keyed_by_false n' y)); [done | congruence].
      * by rewrite IH.
Qed.

(** The names of a table are those of its map. *)
Lemma table_of_names (rows : list R) (m : gmap string V) (n : string) :
  table_of name value rows m -> n ∈ map name rows ↔ is_Some (m !! n).
Proof.
  intros [_ Hrows]. specialize (Hrows n). split.
  - intros Hin. apply list_elem_of_fmap in Hin as (r & -> & Hr).
    destruct (m !! name r); [done|]. simpl in Hrows.
    assert (In r (List.filter (keyed_by name (name r)) rows)) as Hin.
    { apply filter_In. split; [by apply list_elem_of_In | by apply keyed_by_true]. }
    destruct (List.filter _ rows); [done | discriminate].
  - intros [v Hv]. rewrite Hv in Hrows. simpl in Hrows.
    destruct (List.filter (keyed_by name n) rows) as [|r l] eqn:Hf; [done|].
    assert (In r (List.filter (keyed_by name n) rows)) as Hin by (rewrite Hf; by left).
    apply filter_In in Hin as [Hin Hr]. apply keyed_by_true in Hr.
    apply list_elem_of_fmap. exists r. split; [done | by apply list_elem_of_In].
Qed.

Lemma table_of_NoDup (rows : list R) (m : gmap string V) :
  table_of name value rows m -> NoDup (map name rows).
Proof.
  intros [_ Hrows].
  assert (∀ n, (length (List.filter (keyed_by name n) rows) ≤ 1)%nat) as Hle.
  { intros n. rewrite <- (length_map value), Hrows. destruct (m !! n); simpl; lia. }
  clear Hrows. induction rows as [|r rows IH]; [constructor|].
  cbn [map]. apply NoDup_cons. split.
  - intros Hin. apply list_elem_of_fmap in Hin as (x & Hx & Hin).
    specialize (Hle (name r)). cbn [List.filter] in Hle.
    rewrite (proj2 (keyed_by_true (name r) r) eq_refl) in Hle. cbn [length] in Hle.
    assert (In x (List.filter (keyed_by name (name r)) rows)) as Hin'.
    { apply filter_In. split; [by apply list_elem_of_In | by apply keyed_by_true]. }
    destruct (List.filter _ rows); [done | simpl in Hle; lia].
  - apply IH. intros n. specialize (Hle n). cbn [List.filter] in Hle.
    destruct (keyed_by name n r); simpl in Hle; lia.
Qed.

Lemma table_of_row (rows : list R) (m : gmap string V) (r : R) :
  table_of name value rows m -> In r rows -> m !! name r = Some (value r).
Proof.
  intros Htable Hin.
  assert (is_Some (m !! name r)) as [v Hv].
  { apply (table_of_names rows m (name r) Htable).
    apply list_elem_of_fmap. exists r. split; [done | by apply list_elem_of_In]. }
  destruct (table_of_found rows m (name r) v Htable Hv) as (x & Hf & Hx & _).
  assert (In r (List.filter (keyed_by name (name r)) rows)) as Hin'.
  { apply filter_In. split; [done | by apply keyed_by_true]. }
  rewrite Hf in Hin'. destruct Hin' as [->|[]]. by rewrite Hv, Hx.
Qed.

(** The dict that a comprehension builds from the rows of a table is its
    map. *)
Lemma table_of_dict (rows : list R) (m : gmap string V) :
  table_of name value rows m ->
  foldl (λ d r, <[name r := value r]> d) (∅ : gmap string V) rows = m.
Proof.
  intros Htable.
  assert (∀ n, foldl (λ d r, <[name r := value r]> d) (∅ : gmap string V) rows !! n
               = last (map value (List.filter (keyed_by name n) rows))) as Hlast.
  { intros n. clear Htable. induction rows as [|r rows IH] using rev_ind; [done|].
    rewrite foldl_app, List.filter_app, map_app. simpl.
    destruct (decide (name r = n)) as [Hr|Hr].
    - rewrite (proj2 (keyed_by_true n r) Hr). simpl. rewrite last_snoc.
      subst n. by rewrite lookup_insert_eq.
    - rewrite (proj2 (keyed_by_false n r) Hr). simpl. rewrite app_nil_r.
      by rewrite lookup_insert_ne. }
  apply map_eq. intros n. rewrite Hlast, (proj2 Htable n). by destruct (m !! n).
Qed.

(** The rows of a table are the entries of its map, in some order. *)
Lemma table_of_entries (rows : list R) (m : gmap string V) :
  table_of name value rows m ->
  map (λ r, (name r, value r)) rows ≡ₚ map_to_list m.
Proof.
  intros Htable. apply NoDup_Permutation.
  - apply (NoDup_fmap_1 fst).
    assert (fst <$> map (λ r, (name r, value r)) rows = map name rows) as ->.
    { clear Htable. induction rows as [|r rows IH]; [done|]. simpl. by f_equal. }
    by apply (table_of_NoDup rows m).
  - apply NoDup_map_to_list.
  - intros [n v]. rewrite elem_of_map_to_list. split.
    + intros Hin. apply list_elem_of_fmap in Hin as (r & [= -> ->] & Hr).
      apply (table_of_row rows m r Htable). by apply list_elem_of_In.
    + intros Hn. destruct (table_of_found rows m n v Htable Hn) as (r & Hf & Hv & Hr).
      assert (In r (List.filter (keyed_by name n) rows)) as Hin by (rewrite Hf; by left).
      apply filter_In in Hin as [Hin _].
      apply list_elem_of_fmap. exists r. split; [by rewrite Hv, Hr | by apply list_elem_of_In].
Qed.

(** [increment_or_create] on a table: the row of [n] is created when it is
    missing, and incremented. *)
Lemma increment_or_create_table (rows : list R) (m : gmap string V) (n : string)
    (plus_1 : R -> R) (create : Z -> R) (bump : V -> V) (v0 : V) :
  table_of name value rows m ->
  (∀ id, name (create id) = n ∧ pk (create id) = id ∧ value (create id) = v0) ->
  (∀ r, name (plus_1 r) = name r ∧ pk (plus_1 r) = pk r
        ∧ value (plus_1 r) = bump (value r)) ->
  ∃ rows' : list R,
    DbClient.increment_or_create plus_1 (keyed_by name n) create rows = Returned rows'
    ∧ table_of name value rows' (<[n := bump (default v0 (m !! n))]> m).
Proof.
  intros Htable Hcreate Hplus. unfold DbClient.increment_or_create.
  destruct (m !! n) as [v|] eqn:Hm; cbn [from_option id].
  - destruct (table_of_found rows m n v Htable Hm) as (r & Hfound & Hv & Hr).
    rewrite Hfound. cbn [DbClient.one_or_none]. eexists. split; [reflexivity|].
    destruct (Hplus r) as (Hname & Hpk & Hvalue). rewrite <- Hv, <- Hvalue.
    apply table_of_update; [done | done | congruence | done].
  - rewrite (table_of_absent rows m n Htable Hm). cbn [DbClient.one_or_none].
    eexists. split; [reflexivity|].
    destruct (Hcreate (DbClient.fresh_pk rows)) as (Hname & Hpk & Hvalue).
    rewrite update_where_pk_last
      by (rewrite Hpk; apply pk_below_fresh).
    destruct (Hplus (create (DbClient.fresh_pk rows))) as (Hname' & Hpk' & Hvalue').
    rewrite <- Hvalue, <- Hvalue'.
    apply (table_of_add rows m (λ id, plus_1 (create id)) n);
      [done | done | congruence | congruence].
Qed.

(** [update_or_insert] on a table: the row of [n] is created with the new
    value when it is missing, and set to it otherwise. *)
Lemma update_or_insert_table (rows : list R) (m : gmap string V) (n : string)
    (update : R -> R) (create : Z -> R) (v : V) :
  table_of name value rows m ->
  (∀ id, name (create id) = n ∧ pk (create id) = id ∧ value (create id) = v) ->
  (∀ r, name (update r) = name r ∧ pk (update r) = pk r ∧ value (update r) = v) ->
  ∃ rows' : list R,
    DbClient.update_or_insert (keyed_by name n) create update rows = Returned rows'
    ∧ table_of name value rows' (<[n := v]> m).
Proof.
  intros Htable Hcreate Hupdate. unfold DbClient.update_or_insert.
  destruct (m !! n) as [v'|] eqn:Hm.
  - destruct (table_of_found rows m n v' Htable Hm) as (r & Hfound & Hv & Hr).
    rewrite Hfound. cbn [DbClient.one_or_none]. eexists. split; [reflexivity|].
    destruct (Hupdate r) as (Hname & Hpk & Hvalue). rewrite <- Hvalue.
    apply table_of_update; [done | done | congruence | done].
  - rewrite (table_of_absent rows m n Htable Hm). cbn [DbClient.one_or_none].
    eexists. split; [reflexivity|].
    destruct (Hcreate (DbClient.fresh_pk rows)) as (Hname & Hpk & Hvalue).
    rewrite <- Hvalue. by apply table_of_add.
Qed.
End KeyedTables.

Section NamedRows.
Context {R : Type} `{Model R}.
Variable name : R -> string.

Lemma filter_keeps (f : R -> bool) (rows : list R) :
  Forall (λ r, f r = true) rows -> List.filter f rows = rows.
Proof. induction 1 as [|r rows Hr _ IH]; simpl; [done | by rewrite Hr, IH]. Qed.

Lemma NoDup_filter_names (f : R -> bool) (rows : list R) :
  NoDup (map name rows) -> NoDup (map name (List.filter f rows)).
Proof.
  induction rows as [|r rows IH]; [done|]. cbn [map List.filter].
  intros [Hr Hrows]%NoDup_cons. destruct (f r); [|by apply IH].
  cbn [map]. apply NoDup_cons. split; [|by apply IH].
  intros Hin. destruct Hr. apply list_elem_of_fmap in Hin as (x & -> & Hx).
  apply list_elem_of_fmap. exists x. split; [done|].
  apply list_elem_of_In. apply list_elem_of_In, filter_In in Hx. tauto.
Qed.

(** Grouping by a column whose values are all different keeps every row. *)
Lemma group_by_unique (rows : list R) :
  NoDup (map name rows) -> DbClient.group_by name rows = rows.
Proof.
  induction rows as [|r rows IH]; [done|]. cbn [map DbClient.group_by].
  intros [Hr Hrows]%NoDup_cons. rewrite IH by done. f_equal.
  apply filter_keeps, Forall_forall. intros x Hx.
  apply negb_true_iff, String.eqb_neq. intros Heq. destruct Hr. rewrite <- Heq.
  apply list_elem_of_fmap. by exists x.
Qed.

(** The entry of [n] in a dict to which the rows were written in turn. *)
Lemma dict_lookup {W : Type} (item : R -> W) (d : gmap string W) (rows : list R)
    (n : string) :
  foldl (λ d r, <[name r := item r]> d) d rows !! n =
    match last (List.filter (keyed_by name n) rows) with
    | Some r => Some (item r)
    | None => d !! n
    end.
Proof.
  induction rows as [|r rows IH] using rev_ind; [done|].
  rewrite foldl_app, List.filter_app. cbn [foldl List.filter]. unfold keyed_by at 2.
  destruct (decide (name r = n)) as [Hr|Hr].
  - rewrite (proj2 (String.eqb_eq _ _) Hr). rewrite last_snoc.
    subst n. by rewrite lookup_insert_eq.
  - rewrite (proj2 (String.eqb_neq _ _) Hr), app_nil_r.
    by rewrite lookup_insert_ne.
Qed.
End NamedRows.

(** ** What [pop] returns and what it leaves *)
Section PopFacts.
Context {R : Type} `{Model R}.

Lemma delete_everything (rows : list R) : DbClient.delete_all (λ _, true) rows = [].
Proof. unfold DbClient.delete_all. by induction rows. Qed.

Lemma NoDup_add (create : Z -> R) (rows : list R) :
  NoDup (map pk rows) ->
  pk (create (DbClient.fresh_pk rows)) = DbClient.fresh_pk rows ->
  NoDup (map pk (DbClient.add create rows)).
Proof.
  intros Hnodup Hpk. unfold DbClient.add. rewrite map_app. cbn [map].
  apply NoDup_app. split; [done|]. split; [|apply NoDup_singleton].
  intros k Hk Hk'. apply list_elem_of_singleton in Hk'. subst k. rewrite Hpk in Hk.
  apply list_elem_of_fmap in Hk as (r & Hr & Hin).
  pose proof (pk_below_fresh rows) as Hlt.
  rewrite Forall_forall in Hlt. specialize (Hlt r Hin). lia.
Qed.

Lemma pk_injective (rows : list R) (x y : R) :
  NoDup (map pk rows) -> x ∈ rows -> y ∈ rows -> pk x = pk y -> x = y.
Proof.
  induction rows as [|r rows IH]; [by intros _ ?%elem_of_nil|].
  cbn [map]. intros [Hr Hrows]%NoDup_cons [->|Hx]%elem_of_cons [->|Hy]%elem_of_cons Hpk.
  - done.
  - destruct Hr. rewrite Hpk. apply list_elem_of_fmap. by exists y.
  - destruct Hr. rewrite <- Hpk. apply list_elem_of_fmap. by exists x.
  - by apply IH.
Qed.

Lemma filter_elem_of (f : R -> bool) (rows : list R) (x : R) :
  x ∈ List.filter f rows ↔ x ∈ rows ∧ f x = true.
Proof. rewrite !list_elem_of_In. apply filter_In. Qed.

Lemma NoDup_kept (f : R -> bool) (rows : list R) :
  NoDup rows -> NoDup (List.filter f rows).
Proof.
  induction 1 as [|r rows Hr _ IH]; [constructor|]. cbn [List.filter].
  destruct (f r); [|done]. constructor; [|done].
  intros [Hin _]%filter_elem_of. by destruct Hr.
Qed.

Lemma NoDup_keys_kept (f : R -> bool) (rows : list R) :
  NoDup (map pk rows) -> NoDup (map pk (List.filter f rows)).
Proof.
  induction rows as [|r rows IH]; [done|]. cbn [map List.filter].
  intros [Hr Hrows]%NoDup_cons. destruct (f r); [|by apply IH].
  cbn [map]. apply NoDup_cons. split; [|by apply IH].
  intros Hin. destruct Hr. apply list_elem_of_fmap in Hin as (x & -> & Hx).
  apply list_elem_of_fmap. exists x. split; [done|]. by apply filter_elem_of in Hx as [? _].
Qed.

(** Deleting the rows of [query] by their keys takes exactly these rows out
    of a table whose keys are distinct. *)
Lemma deleted_by_key (query rows : list R) :
  NoDup (map pk rows) -> NoDup query -> (∀ x, x ∈ query -> x ∈ rows) ->
  query ++ List.filter (λ r, negb (bool_decide (pk r ∈ map pk query))) rows ≡ₚ rows.
Proof.
  intros Hkeys Hquery Hsub. apply NoDup_Permutation.
  - apply NoDup_app. split; [done|]. split.
    + intros x Hx [_ Hout]%filter_elem_of.
      apply negb_true_iff, bool_decide_eq_false in Hout. destruct Hout.
      apply list_elem_of_fmap. by exists x.
    + apply NoDup_kept. by apply (NoDup_fmap_1 pk).
  - by apply (NoDup_fmap_1 pk).
  - intros x. rewrite elem_of_app, filter_elem_of. split.
    + intros [Hx|[Hx _]]; [by apply Hsub | done].
    + intros Hx. destruct (decide (pk x ∈ map pk query)) as [Hin|Hout].
      * left. apply list_elem_of_fmap in Hin as (y & Hpk & Hy).
        by rewrite (pk_injective rows x y Hkeys Hx (Hsub y Hy) Hpk).
      * right. split; [done|]. by apply negb_true_iff, bool_decide_eq_false.
Qed.

(** The query of [pop]: the matching rows, ordered and cut. *)
Lemma pop_query (limit : option nat) (filters : R -> bool) (order_by : option (R -> Z))
    (rows : list R) :
  ∃ others : list R,
    fst (DbClient.pop limit filters order_by rows) ++ others ≡ₚ List.filter filters rows
    ∧ length (fst (DbClient.pop limit filters order_by rows)) =
        match limit with
        | Some n => Nat.min n (length (List.filter filters rows))
        | None => length (List.filter filters rows)
        end
    ∧ match order_by with
      | Some column =>
          ∀ a b, a ∈ fst (DbClient.pop limit filters order_by rows) -> b ∈ others ->
                 column a ≤ column b
      | None => True
      end.
Proof.
  unfold DbClient.pop. cbn [fst].
  set (matching := List.filter filters rows).
  set (ordered := match order_by with
                  | Some column => DbClient.order_by_asc column matching
                  | None => matching
                  end).
  assert (ordered ≡ₚ matching) as Hperm.
  { unfold ordered. destruct order_by; [apply order_by_asc_Permutation | done]. }
  assert (match order_by with
          | Some column => StronglySorted (DbClient.asc column) ordered
          | None => True
          end) as Hsorted.
  { unfold ordered. destruct order_by; [apply order_by_asc_sorted | done]. }
  destruct limit as [n|].
  - exists (drop n ordered). rewrite take_drop. split; [done|]. split.
    + by rewrite length_take, Hperm.
    + destruct order_by as [column|]; [|done]. intros a b Ha Hb.
      rewrite <- (take_drop n ordered) in Hsorted.
      by apply (StronglySorted_app_1_elem_of _ _ _ a b Hsorted).
  - exists []. rewrite app_nil_r. split; [done|]. split; [by rewrite Hperm|].
    destruct order_by; [|done]. by intros a b _ ?%elem_of_nil.
Qed.

(** [pop] splits a table with distinct keys into the rows it returns and the
    rows it leaves. *)
Lemma deleted_and_kept (limit : option nat) (filters : R -> bool)
    (order_by : option (R -> Z)) (rows : list R) :
  NoDup (map pk rows) ->
  fst (DbClient.pop limit filters order_by rows)
    ++ snd (DbClient.pop limit filters order_by rows) ≡ₚ rows
  ∧ length (fst (DbClient.pop limit filters order_by rows)) =
      match limit with
      | Some n => Nat.min n (length (List.filter filters rows))
      | None => length (List.filter filters rows)
      end
  ∧ NoDup (map pk (snd (DbClient.pop limit filters order_by rows))).
Proof.
  intros Hkeys.
  destruct (pop_query limit filters order_by rows) as (others & Hperm & Hlen & _).
  assert (NoDup (List.filter filters rows)) as Hmatching
    by (apply NoDup_kept; by apply (NoDup_fmap_1 pk)).
  assert (NoDup (fst (DbClient.pop limit filters order_by rows))) as Hquery.
  { rewrite <- Hperm in Hmatching. by apply NoDup_app in Hmatching as [? _]. }
  split; [|split; [exact Hlen|]].
  - apply deleted_by_key; [done | done |]. intros x Hx.
    assert (x ∈ List.filter filters rows) as [? _]%filter_elem_of; [|done].
    rewrite <- Hperm. apply elem_of_app. by left.
  - unfold DbClient.pop. cbn [snd]. by apply NoDup_keys_kept.
Qed.
End PopFacts.

(** X17.  On a table whose keys are distinct, [pop] returns rows that match
    the filters, as many as the limit allows, and deletes exactly the rows it
    returns: the returned rows and the rows left are together the rows of
    the table, each of them once.  With an [order_by] column, no row that
    matches and is left has a smaller value in that column than a returned
    row. *)
Theorem pop_deletes_exactly_what_it_returns {R : Type} `{Model R}
    (limit : option nat) (filters : R -> bool) (order_by : option (R -> Z))
    (rows : list R) :
  NoDup (map pk rows) ->
  fst (DbClient.pop limit filters order_by rows)
    ++ snd (DbClient.pop limit filters order_by rows) ≡ₚ rows
  ∧ Forall (λ r, filters r = true) (fst (DbClient.pop limit filters order_by rows))
  ∧ length (fst (DbClient.pop limit filters order_by rows)) =
      match limit with
      | Some n => Nat.min n (length (List.filter filters rows))
      | None => length (List.filter filters rows)
      end
  ∧ match order_by with
    | Some column =>
        ∀ a b : R,
          a ∈ fst (DbClient.pop limit filters order_by rows) ->
          b ∈ snd (DbClient.pop limit filters order_by rows) ->
          filters b = true ->
          column a ≤ column b
    | None => True
    end.
Proof.
  intros Hkeys.
  destruct (pop_query limit filters order_by rows) as (others & Hperm & Hlen & Horder).
  assert (NoDup (List.filter filters rows)) as Hmatching
    by (apply NoDup_kept; by apply (NoDup_fmap_1 pk)).
  assert (NoDup (fst (DbClient.pop limit filters order_by rows))) as Hquery.
  { rewrite <- Hperm in Hmatching. by apply NoDup_app in Hmatching as [? _]. }
  assert (∀ x, x ∈ fst (DbClient.pop limit filters order_by rows) ->
               x ∈ rows ∧ filters x = true) as Hsub.
  { intros x Hx. apply filter_elem_of. rewrite <- Hperm. apply elem_of_app. by left. }
  assert (snd (DbClient.pop limit filters order_by rows)
          = List.filter (λ r, negb (bool_decide
                                (pk r ∈ map pk (fst (DbClient.pop limit filters order_by rows)))))
              rows) as Hrest by done.
  split; [|split; [|split]].
  - rewrite Hrest. apply deleted_by_key; [done | done | intros x Hx; by apply Hsub].
  - apply Forall_forall. intros x Hx. by apply Hsub.
  - exact Hlen.
  - destruct order_by as [column|]; [|done]. intros a b Ha Hb Hf.
    apply Horder; [done|].
    rewrite Hrest in Hb. apply filter_elem_of in Hb as [Hb Hout].
    assert (b ∈ fst (DbClient.pop limit filters (Some column) rows) ++ others) as Hin
      by (rewrite Hperm; by apply filter_elem_of).
    apply elem_of_app in Hin as [Hin|Hin]; [|done].
    apply negb_true_iff, bool_decide_eq_false in Hout. destruct Hout.
    apply list_elem_of_fmap. by exists b.
Qed.

Lemma pop_deletes_exactly_what_it_returns_witness :
  NoDup (map pk [ImpressionModel.mk 1 10 "A"; ImpressionModel.mk 2 5 "B";
                 ImpressionModel.mk 3 7 "C"])
  ∧ DbClient.pop (Some 2%nat) (λ _, true) (Some ImpressionModel.created_at)
      [ImpressionModel.mk 1 10 "A"; ImpressionModel.mk 2 5 "B"; ImpressionModel.mk 3 7 "C"]
    = ([ImpressionModel.mk 2 5 "B"; ImpressionModel.mk 3 7 "C"],
       [ImpressionModel.mk 1 10 "A"])
  ∧ length (fst (DbClient.pop (Some 2%nat) (λ _, true) (Some ImpressionModel.created_at)
                   [ImpressionModel.mk 1 10 "A"; ImpressionModel.mk 2 5 "B";
                    ImpressionModel.mk 3 7 "C"]))
    = Nat.min 2 (length (List.filter (λ _, true)
                           [ImpressionModel.mk 1 10 "A"; ImpressionModel.mk 2 5 "B";
                            ImpressionModel.mk 3 7 "C"])).
Proof.
  assert (NoDup (map pk [ImpressionModel.mk 1 10 "A"; ImpressionModel.mk 2 5 "B";
                         ImpressionModel.mk 3 7 "C"])) as Hkeys.
  { repeat constructor; cbn; rewrite ?elem_of_cons, ?elem_of_nil; intuition discriminate. }
  split; [exact Hkeys|]. split; [reflexivity|].
  exact (proj1 (proj2 (proj2
    (pop_deletes_exactly_what_it_returns (Some 2%nat) (λ _, true)
       (Some ImpressionModel.created_at)
       [ImpressionModel.mk 1 10 "A"; ImpressionModel.mk 2 5 "B"; ImpressionModel.mk 3 7 "C"]
       Hkeys)))).
Defined.

(** ** The split storage as a map from names to splits *)
Section SplitStore.
Context {Split : Type}.
Variable split_name : Split -> string.
Variable split_traffic_type_name : Split -> string.
Variable dumps_to_json : Split -> string.
Variable from_raw_loads : string -> Split.
Variable split_get_segment_names : Split -> list string.
Variable local_kill : string -> Z -> Split -> Split.

#[local] Abbreviation split_run :=
  (split_call_run split_name split_traffic_type_name dumps_to_json from_raw_loads).
#[local] Abbreviation split_rows :=
  (fmap (M := gmap string) (split_row split_traffic_type_name dumps_to_json)).
#[local] Abbreviation decoded := (λ split : Split, from_raw_loads (dumps_to_json split)).

#[local] Abbreviation holds := (splits_of split_traffic_type_name dumps_to_json).

Lemma split_put_stored (split : Split) (w : World) (m : gmap string Split) :
  lock_held w = false -> holds w m ->
  ∃ w' : World,
    SqlSplitStorage.put split_name split_traffic_type_name dumps_to_json split w
      = (Returned tt, w')
    ∧ lock_held w' = false
    ∧ holds w' (<[split_name split := split]> m)
    ∧ split_metadata (db w') = split_metadata (db w).
Proof.
  intros Hlock Htable. unfold splits_of in *.
  unfold SqlSplitStorage.put, with_lock. rewrite Hlock.
  unfold SqlSplitStorage._get_split_record, mbind, M_bind, gets, lift, modify,
    DbClient.get_one_or_none. cbv beta. cbn [db set_lock_held].
  change (λ r : SplitModel.t, String.eqb (SplitModel.name r) (split_name split))
    with (keyed_by SplitModel.name (split_name split)).
  destruct (m !! split_name split) as [old|] eqn:Hm.
  - destruct (table_of_found SplitModel.name split_value _ _ (split_name split)
                (split_row split_traffic_type_name dumps_to_json old) Htable)
      as (r & Hfound & _ & Hr); [by rewrite lookup_fmap, Hm|].
    rewrite Hfound. cbn [DbClient.one_or_none]. eexists. split; [reflexivity|].
    cbn [db set_db set_lock_held lock_held split_splits set_split_splits split_metadata].
    split; [done|]. split; [|done].
    rewrite fmap_insert. unfold DbClient.merge.
    change (pk (SplitModel.mk (SplitModel.id r) (SplitModel.name r)
                  (split_traffic_type_name split) (dumps_to_json split)))
      with (pk r).
    apply (table_of_update SplitModel.name split_value _ _ r
             (λ _, SplitModel.mk (SplitModel.id r) (SplitModel.name r)
                     (split_traffic_type_name split) (dumps_to_json split)));
      [done | done | done | done].
  - rewrite (table_of_absent SplitModel.name split_value _ _ (split_name split) Htable);
      [|by rewrite lookup_fmap, Hm].
    cbn [DbClient.one_or_none]. eexists. split; [reflexivity|].
    cbn [db set_db set_lock_held lock_held split_splits set_split_splits split_metadata].
    split; [done|]. split; [|done].
    rewrite fmap_insert.
    apply (table_of_add SplitModel.name split_value _ _
             (λ id, SplitModel.mk id (split_name split)
                      (split_traffic_type_name split) (dumps_to_json split)));
      [done | by rewrite lookup_fmap, Hm | done | done].
Qed.

Lemma split_get_stored (name : string) (w : World) (m : gmap string Split) :
  holds w m ->
  SqlSplitStorage.get from_raw_loads name w = (Returned (decoded <$> m !! name), w).
Proof.
  intros Htable. unfold splits_of in *.
  unfold SqlSplitStorage.get, SqlSplitStorage._get_split_record, mbind, M_bind,
    gets, lift, DbClient.get_one_or_none. cbv beta.
  change (λ r : SplitModel.t, String.eqb (SplitModel.name r) name)
    with (keyed_by SplitModel.name name).
  destruct (m !! name) as [s|] eqn:Hm.
  - destruct (table_of_found SplitModel.name split_value _ _ name
                (split_row split_traffic_type_name dumps_to_json s) Htable)
      as (r & Hfound & Hvalue & _); [by rewrite lookup_fmap, Hm|].
    rewrite Hfound. cbn [DbClient.one_or_none]. unfold mret, M_ret. simpl.
    unfold SqlSplitStorage._get_split_from_record.
    injection Hvalue as _ ->. done.
  - rewrite (table_of_absent SplitModel.name split_value _ _ name Htable);
      [done | by rewrite lookup_fmap, Hm].
Qed.

Lemma split_remove_stored (name : string) (w : World) (m : gmap string Split) :
  lock_held w = false -> holds w m ->
  ∃ w' : World,
    SqlSplitStorage.remove from_raw_loads name w
      = (Returned (bool_decide (is_Some (m !! name))), w')
    ∧ lock_held w' = false
    ∧ holds w' (delete name m)
    ∧ split_metadata (db w') = split_metadata (db w).
Proof.
  intros Hlock Htable.
  unfold SqlSplitStorage.remove, with_lock. rewrite Hlock.
  assert (holds (set_lock_held true w) m) as Htable' by done.
  unfold mbind at 1. unfold M_bind at 1.
  rewrite (split_get_stored name _ m Htable').
  destruct (m !! name) as [s|] eqn:Hm; cbn [fmap option_fmap option_map].
  - unfold mbind, M_bind, modify, mret, M_ret. cbv beta.
    eexists. split; [rewrite bool_decide_eq_true_2 by (by eexists); reflexivity|].
    cbn [db set_db set_lock_held lock_held split_splits set_split_splits split_metadata].
    split; [done|]. split; [|done].
    unfold splits_of. rewrite fmap_delete.
    cbn [db set_db set_lock_held lock_held split_splits set_split_splits].
    apply (table_of_delete SplitModel.name split_value), Htable.
  - unfold mret, M_ret. eexists.
    split; [rewrite bool_decide_eq_false_2 by (by intros [? ?]); reflexivity|].
    rewrite lock_released by done.
    split; [done|]. split; [|done].
    by rewrite delete_id.
Qed.

Lemma split_call_stored_step (c : split_call Split) (w : World) (m : gmap string Split) :
  lock_held w = false -> holds w m ->
  ∃ w' : World,
    split_run c w = (Returned tt, w')
    ∧ lock_held w' = false
    ∧ holds w' (split_call_stored split_name m c)
    ∧ change_number_of w' =
        match c with
        | SplitSetChangeNumber n => n
        | _ => change_number_of w
        end.
Proof.
  intros Hlock Htable. destruct c as [split|name|n]; cbn [split_call_run split_call_stored].
  - destruct (split_put_stored split w m Hlock Htable) as (w' & Hput & ? & ? & Hmeta).
    exists w'. unfold change_number_of. by rewrite Hmeta.
  - destruct (split_remove_stored name w m Hlock Htable) as (w' & Hrm & ? & ? & Hmeta).
    exists w'. unfold change_number_of. rewrite Hmeta.
    split; [|done]. unfold mbind, M_bind. by rewrite Hrm.
  - eexists. split; [reflexivity|]. split; [done|]. split; [exact Htable|].
    unfold change_number_of. cbn [db set_db split_metadata].
    by rewrite lookup_insert_eq.
Qed.

Lemma split_history_stored (calls : list (split_call Split)) (w : World)
    (m : gmap string Split) :
  lock_held w = false -> holds w m ->
  ∃ w' : World,
    for_each calls split_run w = (Returned tt, w')
    ∧ lock_held w' = false
    ∧ holds w' (foldl (split_call_stored split_name) m calls)
    ∧ change_number_of w' =
        foldl (λ z c, match c with SplitSetChangeNumber n => n | _ => z end)
              (change_number_of w) calls.
Proof.
  revert w m. induction calls as [|c calls IH]; intros w m Hlock Htable.
  - by exists w.
  - destruct (split_call_stored_step c w m Hlock Htable) as (w1 & Hc & Hlock1 & Htable1 & Hcn).
    destruct (IH w1 _ Hlock1 Htable1) as (w' & Hrest & ? & ? & Hcn').
    exists w'. cbn [for_each foldl]. split.
    + unfold mbind, M_bind. by rewrite Hc.
    + split; [done|]. split; [done|]. rewrite Hcn', Hcn. by destruct c.
Qed.

Lemma new_world_splits (clock : nat -> Z) : holds (new_world clock) ∅.
Proof. unfold splits_of. rewrite fmap_empty. apply table_of_nil. Qed.

(** A history on a new store returns and leaves the splits it stored. *)
Lemma split_history_new (calls : list (split_call Split)) (clock : nat -> Z) :
  ∃ w' : World,
    for_each calls split_run (new_world clock) = (Returned tt, w')
    ∧ lock_held w' = false
    ∧ holds w' (stored_splits split_name calls)
    ∧ change_number_of w' = last_change_number calls.
Proof.
  apply (split_history_stored calls (new_world clock) ∅); [done | apply new_world_splits].
Qed.

(** *** The readers of a table that holds [m] *)

Lemma split_rows_at (w : World) (m : gmap string Split) (r : SplitModel.t) :
  holds w m -> In r (split_splits (db w)) ->
  ∃ split : Split,
    m !! SplitModel.name r = Some split
    ∧ SplitModel.traffic_type_name r = split_traffic_type_name split
    ∧ SplitModel.json_data r = dumps_to_json split.
Proof.
  intros Htable Hin.
  pose proof (table_of_row SplitModel.name split_value _ _ r Htable Hin) as Hr.
  rewrite lookup_fmap in Hr. destruct (m !! SplitModel.name r) as [split|]; [|done].
  exists split. split; [done|]. by injection Hr as -> ->.
Qed.

Lemma split_stored_row (w : World) (m : gmap string Split) (name : string) (split : Split) :
  holds w m -> m !! name = Some split ->
  In (SplitModel.mk
        (SplitModel.id (default (SplitModel.mk 0 "" "" "")
                          (head (List.filter (keyed_by SplitModel.name name)
                                   (split_splits (db w))))))
        name (split_traffic_type_name split) (dumps_to_json split))
     (split_splits (db w)).
Proof.
  intros Htable Hm.
  destruct (table_of_found SplitModel.name split_value _ _ name
              (split_row split_traffic_type_name dumps_to_json split) Htable)
    as (r & Hfound & Hvalue & Hname); [by rewrite lookup_fmap, Hm|].
  rewrite Hfound. cbn [head default].
  assert (In r (List.filter (keyed_by SplitModel.name name) (split_splits (db w)))) as Hin
    by (rewrite Hfound; by left).
  apply filter_In in Hin as [Hin _].
  destruct r as [id n t j]. cbn in Hvalue, Hname. injection Hvalue as -> ->.
  by subst n.
Qed.

Lemma is_valid_traffic_type_stored (traffic_type_name : string) (w : World)
    (m : gmap string Split) :
  holds w m ->
  ∃ valid : bool,
    SqlSplitStorage.is_valid_traffic_type traffic_type_name w = (Returned valid, w)
    ∧ (valid = true ↔
       ∃ (name : string) (split : Split),
         m !! name = Some split ∧ split_traffic_type_name split = traffic_type_name).
Proof.
  intros Htable.
  unfold SqlSplitStorage.is_valid_traffic_type, mbind, M_bind, gets, mret, M_ret,
    DbClient.get_first. cbv beta.
  eexists. split; [reflexivity|].
  destruct (List.filter _ (split_splits (db w))) as [|r l] eqn:Hf; cbn [head]; split.
  - done.
  - intros (name & split & Hm & Htt).
    pose proof (split_stored_row w m name split Htable Hm) as Hin.
    assert (In (SplitModel.mk
        (SplitModel.id (default (SplitModel.mk 0 "" "" "")
                          (head (List.filter (keyed_by SplitModel.name name)
                                   (split_splits (db w))))))
        name (split_traffic_type_name split) (dumps_to_json split))
      (List.filter (λ r, String.eqb (SplitModel.traffic_type_name r) traffic_type_name)
         (split_splits (db w)))) as Hin'.
    { apply filter_In. split; [done|]. cbn. by apply String.eqb_eq. }
    by rewrite Hf in Hin'.
  - intros _.
    assert (In r (List.filter
                    (λ r, String.eqb (SplitModel.traffic_type_name r) traffic_type_name)
                    (split_splits (db w)))) as Hin by (rewrite Hf; by left).
    apply filter_In in Hin as [Hin Hr]. apply String.eqb_eq in Hr.
    destruct (split_rows_at w m r Htable Hin) as (split & Hm & Htt & _).
    exists (SplitModel.name r), split. split; [done | congruence].
  - done.
Qed.

Lemma get_split_names_stored (w : World) (m : gmap string Split) :
  holds w m ->
  ∃ names : list string,
    SqlSplitStorage.get_split_names w = (Returned names, w)
    ∧ NoDup names
    ∧ ∀ name : string, name ∈ names ↔ is_Some (m !! name).
Proof.
  intros Htable.
  unfold SqlSplitStorage.get_split_names, mbind, M_bind, gets, mret, M_ret,
    DbClient.get_all. cbv beta.
  eexists. split; [reflexivity|]. split; [apply NoDup_elements|].
  intros name. rewrite elem_of_elements, elem_of_list_to_set, filter_all.
  rewrite (table_of_names SplitModel.name split_value _ _ name Htable).
  rewrite lookup_fmap. by rewrite fmap_is_Some.
Qed.

Lemma get_all_splits_stored (w : World) (m : gmap string Split) :
  holds w m ->
  ∃ all_splits : list Split,
    SqlSplitStorage.get_all_splits from_raw_loads w = (Returned all_splits, w)
    ∧ all_splits ≡ₚ map (λ entry, decoded (snd entry)) (map_to_list m).
Proof.
  intros Htable.
  unfold SqlSplitStorage.get_all_splits, mbind, M_bind, gets, mret, M_ret,
    DbClient.get_all. cbv beta.
  eexists. split; [reflexivity|]. rewrite filter_all.
  pose proof (table_of_entries SplitModel.name split_value _ _ Htable) as Hperm.
  apply (Permutation_map (λ entry, from_raw_loads (snd (snd entry)))) in Hperm.
  rewrite map_map in Hperm. cbn [snd split_value] in Hperm.
  etransitivity; [exact Hperm|].
  rewrite map_to_list_fmap.
  change (map (λ entry : string * (string * string), from_raw_loads (snd (snd entry)))
            (prod_map id (split_row split_traffic_type_name dumps_to_json) <$> map_to_list m))
    with (map (λ entry : string * (string * string), from_raw_loads (snd (snd entry)))
            (map (prod_map id (split_row split_traffic_type_name dumps_to_json))
               (map_to_list m))).
  rewrite map_map. apply Permutation_refl'. apply map_ext. by intros [n s].
Qed.

Lemma get_segment_names_stored (w : World) (m : gmap string Split) :
  holds w m ->
  ∃ names : gset string,
    SqlSplitStorage.get_segment_names from_raw_loads split_get_segment_names w
      = (Returned names, w)
    ∧ ∀ segment_name : string,
        segment_name ∈ names ↔
        ∃ (name : string) (split : Split),
          m !! name = Some split
          ∧ segment_name ∈ split_get_segment_names (decoded split).
Proof.
  intros Htable.
  destruct (get_all_splits_stored w m Htable) as (all_splits & Hall & Hperm).
  unfold SqlSplitStorage.get_segment_names, mbind, M_bind. rewrite Hall.
  unfold mret, M_ret. eexists. split; [reflexivity|].
  intros segment_name. rewrite elem_of_list_to_set.
  rewrite list_elem_of_In, in_concat. split.
  - intros (l & Hl & Hin). apply in_map_iff in Hl as (split' & <- & Hsplit').
    apply list_elem_of_In in Hsplit'. rewrite Hperm in Hsplit'.
    apply list_elem_of_fmap in Hsplit' as ([name split] & -> & Hentry).
    apply elem_of_map_to_list in Hentry.
    exists name, split. split; [done | by apply list_elem_of_In].
  - intros (name & split & Hm & Hin).
    exists (split_get_segment_names (decoded split)).
    split; [|by apply list_elem_of_In].
    apply in_map_iff. exists (decoded split). split; [done|].
    apply list_elem_of_In. rewrite Hperm.
    apply list_elem_of_fmap. exists (name, split). split; [done|].
    by apply elem_of_map_to_list.
Qed.

Lemma split_dict_lookup (split_names : list string) (n : string) :
  foldl (λ (d : gmap string (option Split)) name, <[name := None]> d) ∅ split_names !! n
    = if bool_decide (n ∈ split_names) then Some None else None.
Proof.
  induction split_names as [|x l IH] using rev_ind; [done|].
  rewrite foldl_app. simpl. destruct (decide (x = n)) as [->|Hx].
  - rewrite lookup_insert_eq, bool_decide_eq_true_2; [done|].
    apply elem_of_app. right. by apply list_elem_of_singleton.
  - rewrite lookup_insert_ne, IH by done.
    apply option_eq. intros o. rewrite !bool_decide_decide.
    destruct (decide (n ∈ l)) as [Hin|Hin].
    + rewrite decide_True; [done|]. apply elem_of_app. by left.
    + rewrite decide_False; [done|]. intros [?|Hn%list_elem_of_singleton]%elem_of_app; congruence.
Qed.

Lemma fetch_many_stored (split_names : list string) (w : World) (m : gmap string Split) :
  holds w m ->
  ∃ split_dict : gmap string (option Split),
    SqlSplitStorage.fetch_many from_raw_loads split_names w = (Returned split_dict, w)
    ∧ ∀ name : string,
        split_dict !! name =
          if bool_decide (name ∈ split_names) then Some (decoded <$> m !! name) else None.
Proof.
  intros Htable.
  unfold SqlSplitStorage.fetch_many, mbind, M_bind, gets, mret, M_ret,
    DbClient.get_all. cbv beta.
  eexists. split; [reflexivity|]. intros name.
  rewrite group_by_unique
    by (apply NoDup_filter_names, (table_of_NoDup SplitModel.name split_value _ _ Htable)).
  rewrite (dict_lookup SplitModel.name), split_dict_lookup.
  assert (List.filter (keyed_by SplitModel.name name)
            (List.filter (λ r, bool_decide (SplitModel.name r ∈ split_names))
               (split_splits (db w)))
          = if bool_decide (name ∈ split_names)
            then List.filter (keyed_by SplitModel.name name) (split_splits (db w))
            else []) as ->.
  { induction (split_splits (db w)) as [|r rows IH]; [by destruct (bool_decide _)|].
    cbn [List.filter].
    destruct (keyed_by SplitModel.name name r) eqn:Hr.
    - apply keyed_by_true in Hr. rewrite Hr.
      destruct (bool_decide (name ∈ split_names)) eqn:Hin; [|done].
      cbn [List.filter]. rewrite (proj2 (keyed_by_true SplitModel.name name r) Hr).
      by rewrite IH.
    - destruct (bool_decide (SplitModel.name r ∈ split_names)); [|done].
      cbn [List.filter]. by rewrite Hr. }
  destruct (bool_decide (name ∈ split_names)); [|done].
  destruct (m !! name) as [split|] eqn:Hm.
  - destruct (table_of_found SplitModel.name split_value _ _ name
                (split_row split_traffic_type_name dumps_to_json split) Htable)
      as (r & Hfound & Hvalue & _); [by rewrite lookup_fmap, Hm|].
    rewrite Hfound. cbn [last]. unfold SqlSplitStorage._get_split_from_record.
    injection Hvalue as _ ->. done.
  - rewrite (table_of_absent SplitModel.name split_value _ _ name Htable);
      [done | by rewrite lookup_fmap, Hm].
Qed.

(** X1.  On a new split storage, every sequence of [put], [remove] and
    [set_change_number] calls returns, and [get name] then returns the split
    that was put last under [name] and not removed since, as [from_raw] reads
    what [json.dumps(split.to_json())] wrote; it returns [None] when there is
    no such split. *)
Theorem split_get_returns_last_put (calls : list (split_call Split))
    (clock : nat -> Z) (name : string) :
  fst (for_each calls split_run (new_world clock)) = Returned tt
  ∧ fst ((for_each calls split_run;; SqlSplitStorage.get from_raw_loads name)
           (new_world clock))
    = Returned (decoded <$> stored_splits split_name calls !! name).
Proof.
  destruct (split_history_new calls clock) as (w & Hrun & _ & Htable & _).
  split; [by rewrite Hrun|].
  rewrite (bind_Returned _ _ _ _ _ Hrun).
  by rewrite (split_get_stored name w _ Htable).
Qed.

(** X2.  After any such history, [remove name] returns true when a split is
    stored under [name] and false when none is; after it [get name] returns
    [None], and [get] of every other name returns what it returned before. *)
Theorem split_remove_tells_whether_stored (calls : list (split_call Split))
    (clock : nat -> Z) (name : string) :
  fst ((for_each calls split_run;; SqlSplitStorage.remove from_raw_loads name)
         (new_world clock))
    = Returned (bool_decide (is_Some (stored_splits split_name calls !! name)))
  ∧ fst ((for_each calls split_run;; SqlSplitStorage.remove from_raw_loads name;;
          SqlSplitStorage.get from_raw_loads name) (new_world clock))
    = Returned None
  ∧ ∀ other : string,
      other ≠ name ->
      fst ((for_each calls split_run;; SqlSplitStorage.remove from_raw_loads name;;
            SqlSplitStorage.get from_raw_loads other) (new_world clock))
      = fst ((for_each calls split_run;; SqlSplitStorage.get from_raw_loads other)
               (new_world clock)).
Proof.
  destruct (split_history_new calls clock) as (w & Hrun & Hlock & Htable & _).
  destruct (split_remove_stored name w _ Hlock Htable) as (w' & Hrm & _ & Htable' & _).
  rewrite !(bind_Returned _ _ _ _ _ Hrun).
  split; [by rewrite Hrm|].
  rewrite !(bind_Returned _ _ _ _ _ Hrm).
  rewrite !(split_get_stored _ w' _ Htable'). cbn [fst].
  split; [by rewrite lookup_delete_eq|].
  intros other Hother.
  rewrite !(bind_Returned _ _ _ _ _ Hrun), (bind_Returned _ _ _ _ _ Hrm).
  rewrite (split_get_stored other w' _ Htable'), (split_get_stored other w _ Htable).
  cbn [fst]. by rewrite lookup_delete_ne.
Qed.

(** X3.  After any such history, [is_valid_traffic_type traffic_type_name]
    returns true exactly when some split that is still stored has that
    traffic type. *)
Theorem is_valid_traffic_type_iff_stored (calls : list (split_call Split))
    (clock : nat -> Z) (traffic_type_name : string) :
  ∃ valid : bool,
    fst ((for_each calls split_run;;
          SqlSplitStorage.is_valid_traffic_type traffic_type_name) (new_world clock))
      = Returned valid
    ∧ (valid = true ↔
       ∃ (name : string) (split : Split),
         stored_splits split_name calls !! name = Some split
         ∧ split_traffic_type_name split = traffic_type_name).
Proof.
  destruct (split_history_new calls clock) as (w & Hrun & _ & Htable & _).
  destruct (is_valid_traffic_type_stored traffic_type_name w _ Htable)
    as (valid & Hvalid & Hiff).
  exists valid. rewrite (bind_Returned _ _ _ _ _ Hrun), Hvalid. by split.
Qed.

(** X4.  After any such history, [get_split_names] returns the names under
    which a split is stored, each of them once. *)
Theorem get_split_names_are_the_stored_names (calls : list (split_call Split))
    (clock : nat -> Z) :
  ∃ names : list string,
    fst ((for_each calls split_run;; SqlSplitStorage.get_split_names) (new_world clock))
      = Returned names
    ∧ NoDup names
    ∧ ∀ name : string, name ∈ names ↔ is_Some (stored_splits split_name calls !! name).
Proof.
  destruct (split_history_new calls clock) as (w & Hrun & _ & Htable & _).
  destruct (get_split_names_stored w _ Htable) as (names & Hnames & Hnodup & Hiff).
  exists names. rewrite (bind_Returned _ _ _ _ _ Hrun), Hnames. by split.
Qed.

(** X5.  After any such history, [fetch_many split_names] returns a dict
    whose keys are the requested names: a name under which a split is stored
    maps to that split, as [get] returns it, and every other requested name
    maps to [None]. *)
Theorem fetch_many_has_every_requested_name (calls : list (split_call Split))
    (clock : nat -> Z) (split_names : list string) :
  ∃ split_dict : gmap string (option Split),
    fst ((for_each calls split_run;; SqlSplitStorage.fetch_many from_raw_loads split_names)
           (new_world clock))
      = Returned split_dict
    ∧ ∀ name : string,
        split_dict !! name =
          if bool_decide (name ∈ split_names)
          then Some (decoded <$> stored_splits split_name calls !! name)
          else None.
Proof.
  destruct (split_history_new calls clock) as (w & Hrun & _ & Htable & _).
  destruct (fetch_many_stored split_names w _ Htable) as (split_dict & Hfetch & Hlookup).
  exists split_dict. rewrite (bind_Returned _ _ _ _ _ Hrun), Hfetch. by split.
Qed.

(** X6.  After any such history, [get_all_splits] returns the stored splits,
    one for each name, in some order, and [get_segment_names] returns exactly
    the segment names that the stored splits refer to. *)
Theorem get_segment_names_of_stored_splits (calls : list (split_call Split))
    (clock : nat -> Z) :
  ∃ (all_splits : list Split) (names : gset string),
    fst ((for_each calls split_run;; SqlSplitStorage.get_all_splits from_raw_loads)
           (new_world clock))
      = Returned all_splits
    ∧ all_splits ≡ₚ
        map (λ entry, decoded (snd entry)) (map_to_list (stored_splits split_name calls))
    ∧ fst ((for_each calls split_run;;
            SqlSplitStorage.get_segment_names from_raw_loads split_get_segment_names)
             (new_world clock))
      = Returned names
    ∧ ∀ segment_name : string,
        segment_name ∈ names ↔
        ∃ (name : string) (split : Split),
          stored_splits split_name calls !! name = Some split
          ∧ segment_name ∈ split_get_segment_names (decoded split).
Proof.
  destruct (split_history_new calls clock) as (w & Hrun & _ & Htable & _).
  destruct (get_all_splits_stored w _ Htable) as (all_splits & Hall & Hperm).
  destruct (get_segment_names_stored w _ Htable) as (names & Hnames & Hiff).
  exists all_splits, names. rewrite !(bind_Returned _ _ _ _ _ Hrun), Hall, Hnames.
  split; [done|]. split; [exact Hperm|]. split; [done | exact Hiff].
Qed.

(** X7.  After any such history, [get_change_number] returns the number that
    the last [set_change_number] of the history set, whatever splits were put
    or removed since, and 0 when the history set none. *)
Theorem split_change_number_is_the_last_set (calls : list (split_call Split))
    (clock : nat -> Z) :
  fst ((for_each calls split_run;; SqlSplitStorage.get_change_number) (new_world clock))
    = Returned (last_change_number calls).
Proof.
  destruct (split_history_new calls clock) as (w & Hrun & _ & _ & Hcn).
  rewrite (bind_Returned _ _ _ _ _ Hrun).
  unfold SqlSplitStorage.get_change_number, gets. cbn [fst]. by rewrite <- Hcn.
Qed.

(** X20.  [put] and [remove] take the storage's lock for their whole body and
    release it however the body ends, also when the query of the stored
    record raises: called with the lock free they end with the lock free;
    called while the lock is held they wait and change nothing. *)
Theorem split_put_and_remove_release_the_lock (w : World) (split : Split)
    (name : string) :
  if lock_held w
  then SqlSplitStorage.put split_name split_traffic_type_name dumps_to_json split w
         = (Blocked, w)
       ∧ SqlSplitStorage.remove from_raw_loads name w = (Blocked, w)
  else fst (SqlSplitStorage.put split_name split_traffic_type_name dumps_to_json split w)
         ≠ Blocked
       ∧ lock_held
           (snd (SqlSplitStorage.put split_name split_traffic_type_name dumps_to_json
                   split w)) = false
       ∧ fst (SqlSplitStorage.remove from_raw_loads name w) ≠ Blocked
       ∧ lock_held (snd (SqlSplitStorage.remove from_raw_loads name w)) = false.
Proof.
  unfold SqlSplitStorage.put, SqlSplitStorage.remove, SqlSplitStorage.get,
    SqlSplitStorage._get_split_record, with_lock.
  destruct (lock_held w); [done|].
  unfold mbind, M_bind, gets, lift, modify, mret, M_ret, DbClient.get_one_or_none.
  cbv beta. cbn [db set_lock_held].
  split; [|split; [|split]].
  - by destruct (List.filter _ (split_splits (db w))) as [|r [|r' l]].
  - by destruct (List.filter _ (split_splits (db w))) as [|r [|r' l]].
  - by destruct (List.filter _ (split_splits (db w))) as [|r [|r' l]].
  - by destruct (List.filter _ (split_splits (db w))) as [|r [|r' l]].
Qed.

(** X23.  After any such history, [kill_locally] with a change number below
    the stored one (the one set last, 0 when none was set) returns at once and
    changes nothing: the split, the change number and the lock are as they
    were. *)
Theorem kill_locally_superseded_changes_nothing (calls : list (split_call Split))
    (clock : nat -> Z) (name default_treatment : string) (change_number : Z) :
  change_number < last_change_number calls ->
  ∃ w : World,
    for_each calls split_run (new_world clock) = (Returned tt, w)
    ∧ SqlSplitStorage.kill_locally split_name split_traffic_type_name dumps_to_json
        from_raw_loads local_kill name default_treatment change_number w
      = (Returned tt, w).
Proof.
  intros Hlt.
  destruct (split_history_new calls clock) as (w & Hrun & Hlock & _ & Hcn).
  exists w. split; [done|].
  unfold SqlSplitStorage.kill_locally, with_lock. rewrite Hlock.
  unfold mbind, M_bind, SqlSplitStorage.get_change_number, gets. cbv beta.
  cbn [db set_lock_held]. fold (change_number_of w). rewrite Hcn.
  destruct (Z.gtb_spec (last_change_number calls) change_number); [|lia].
  unfold mret, M_ret. by rewrite lock_released.
Qed.
End SplitStore.

Lemma kill_locally_superseded_changes_nothing_witness :
  5 < last_change_number [SplitPut "x"%string; SplitSetChangeNumber 10]
  ∧ ∃ w : World,
      for_each [SplitPut "x"%string; SplitSetChangeNumber 10]
        (split_call_run (λ s : string, s) (λ _, "user"%string) (λ s, s) (λ s, s))
        (new_world Z.of_nat) = (Returned tt, w)
      ∧ SqlSplitStorage.kill_locally (λ s : string, s) (λ _, "user"%string) (λ s, s)
          (λ s, s) (λ _ _ s, s) "x" "off" 5 w
        = (Returned tt, w).
Proof.
  assert (5 < last_change_number [SplitPut "x"%string; SplitSetChangeNumber 10]) as Hlt
    by (cbn; lia).
  split; [exact Hlt|].
  exact (kill_locally_superseded_changes_nothing (λ s : string, s) (λ _, "user"%string)
           (λ s, s) (λ s, s) (λ _ _ s, s)
           [SplitPut "x"%string; SplitSetChangeNumber 10] Z.of_nat "x" "off" 5 Hlt).
Defined.

(** ** The segment storage as a map from names to segments *)
Section SegmentStore.
Import SqlSegmentStorage.

Lemma segment_keys_round_trip (keys : list string) :
  map SegmentKeyModel.name (map SegmentKeyModel.mk keys) = keys.
Proof. rewrite map_map. simpl. by rewrite map_id. Qed.

Lemma segment_value_updated (to_add to_remove : list string) (change_number : option Z)
    (record : SegmentModel.t) :
  segment_value (updated to_add to_remove change_number record) =
    (List.filter (λ key, negb (bool_decide (key ∈ to_remove)))
       (fst (segment_value record)) ++ to_add,
     match change_number with
     | Some z => Some z
     | None => snd (segment_value record)
     end).
Proof.
  assert (map SegmentKeyModel.name
            (List.filter (λ key, negb (bool_decide (SegmentKeyModel.name key ∈ to_remove)))
               (SegmentModel.keys record) ++ map SegmentKeyModel.mk to_add)
          = List.filter (λ key, negb (bool_decide (key ∈ to_remove)))
              (map SegmentKeyModel.name (SegmentModel.keys record)) ++ to_add) as Hkeys.
  { rewrite map_app, segment_keys_round_trip. f_equal.
    induction (SegmentModel.keys record) as [|k ks IH]; [done|]. cbn [map List.filter].
    destruct (negb _); cbn [map]; by rewrite IH. }
  unfold updated, segment_value.
  destruct change_number; cbn [SegmentModel.keys SegmentModel.change_number
    SegmentModel.set_keys SegmentModel.set_change_number fst snd]; by rewrite Hkeys.
Qed.

Lemma segment_found (w : World) (m : gmap string (list string * option Z))
    (segment_name : string) :
  segments_of w m ->
  match m !! segment_name with
  | Some stored =>
      ∃ r : SegmentModel.t,
        List.filter (named segment_name) (split_segments (db w)) = [r]
        ∧ segment_value r = stored ∧ SegmentModel.name r = segment_name
  | None => List.filter (named segment_name) (split_segments (db w)) = []
  end.
Proof.
  intros Htable. destruct (m !! segment_name) as [stored|] eqn:Hm.
  - by apply (table_of_found SegmentModel.name segment_value _ m).
  - by apply (table_of_absent SegmentModel.name segment_value _ m).
Qed.

Lemma segment_call_stored_step (c : segment_call) (w : World)
    (m : gmap string (list string * option Z)) :
  segments_of w m ->
  ∃ w' : World,
    segment_call_run c w = (Returned tt, w')
    ∧ segments_of w' (segment_call_stored m c).
Proof.
  intros Htable. destruct c as [segment|n to_add to_remove cn|n z];
    cbn [segment_call_run segment_call_stored].
  - pose proof (segment_found w m (name segment) Htable) as Hfound.
    unfold put, mbind, M_bind, gets, lift, modify, DbClient.get_one_or_none. cbv beta.
    destruct (m !! name segment) as [[ks cn0]|].
    + destruct Hfound as (r & Hfound & Hvalue & Hname). rewrite Hfound.
      cbn [DbClient.one_or_none]. eexists. split; [reflexivity|].
      unfold segments_of. cbn [db set_db split_segments set_split_segments].
      unfold DbClient.merge.
      change (pk (SegmentModel.set_keys (map SegmentKeyModel.mk (elements (_keys segment))) r))
        with (pk r).
      replace (elements (_keys segment), cn0)
        with (segment_value (SegmentModel.set_keys (map SegmentKeyModel.mk (elements (_keys segment))) r)).
      * apply (table_of_update SegmentModel.name segment_value _ _ r
                 (λ _, SegmentModel.set_keys (map SegmentKeyModel.mk (elements (_keys segment))) r));
          [done | done | done | done].
      * unfold segment_value in *. cbn [SegmentModel.keys SegmentModel.change_number
          SegmentModel.set_keys]. rewrite segment_keys_round_trip.
        by injection Hvalue as _ ->.
    + rewrite Hfound. cbn [DbClient.one_or_none]. eexists. split; [reflexivity|].
      unfold segments_of. cbn [db set_db split_segments set_split_segments].
      replace (elements (_keys segment), change_number segment)
        with (segment_value (SegmentModel.mk (DbClient.fresh_pk (split_segments (db w)))
                (name segment) (change_number segment)
                (map SegmentKeyModel.mk (elements (_keys segment)))))
        by (unfold segment_value; cbn; by rewrite segment_keys_round_trip).
      apply (table_of_add SegmentModel.name segment_value _ _
               (λ id, SegmentModel.mk id (name segment) (change_number segment)
                        (map SegmentKeyModel.mk (elements (_keys segment)))));
        [done | | done | done].
      specialize (proj2 Htable (name segment)) as Hn.
      change (keyed_by SegmentModel.name (name segment)) with (named (name segment)) in Hn.
      rewrite Hfound in Hn. by destruct (m !! name segment).
  - pose proof (segment_found w m n Htable) as Hfound.
    unfold update, mbind, M_bind, gets, lift, modify, DbClient.get_one_or_none. cbv beta.
    destruct (m !! n) as [[ks cn0]|] eqn:Hm; cbn [from_option id].
    + destruct Hfound as (r & Hfound & Hvalue & Hname). rewrite Hfound.
      cbn [DbClient.one_or_none]. eexists. split; [reflexivity|].
      unfold segments_of. cbn [db set_db split_segments set_split_segments].
      unfold DbClient.merge.
      destruct (updated_name to_add to_remove cn r) as [Hn Hid].
      change (pk (updated to_add to_remove cn r))
        with (SegmentModel.id (updated to_add to_remove cn r)).
      rewrite Hid. change (SegmentModel.id r) with (pk r).
      replace (List.filter (λ key, negb (bool_decide (key ∈ to_remove))) ks ++ to_add,
               match cn with Some z => Some z | None => cn0 end)
        with (segment_value (updated to_add to_remove cn r))
        by (rewrite segment_value_updated, Hvalue; done).
      apply (table_of_update SegmentModel.name segment_value _ _ r
               (λ _, updated to_add to_remove cn r));
        [done | done | by rewrite Hn | done].
    + rewrite Hfound. cbn [DbClient.one_or_none]. eexists. split; [reflexivity|].
      unfold segments_of. cbn [db set_db split_segments set_split_segments].
      replace (List.filter (λ key, negb (bool_decide (key ∈ to_remove))) [] ++ to_add,
               match cn with Some z => Some z | None => cn end)
        with (segment_value (updated to_add to_remove cn
                (SegmentModel.mk (DbClient.fresh_pk (split_segments (db w))) n cn [])))
        by (rewrite segment_value_updated; done).
      apply (table_of_add SegmentModel.name segment_value _ _
               (λ id, updated to_add to_remove cn (SegmentModel.mk id n cn [])));
        [done | done | apply updated_name | apply updated_name].
  - pose proof (segment_found w m n Htable) as Hfound.
    unfold set_change_number, mbind, M_bind, gets, lift, modify,
      DbClient.get_one_or_none. cbv beta.
    destruct (m !! n) as [[ks cn0]|] eqn:Hm.
    + destruct Hfound as (r & Hfound & Hvalue & Hname). rewrite Hfound.
      cbn [DbClient.one_or_none]. eexists. split; [reflexivity|].
      unfold segments_of. cbn [db set_db split_segments set_split_segments].
      unfold DbClient.merge.
      change (pk (SegmentModel.set_change_number (Some z) r)) with (pk r).
      replace (ks, Some z)
        with (segment_value (SegmentModel.set_change_number (Some z) r))
        by (unfold segment_value in *; cbn; by injection Hvalue as -> _).
      apply (table_of_update SegmentModel.name segment_value _ _ r
               (λ _, SegmentModel.set_change_number (Some z) r));
        [done | done | done | done].
    + rewrite Hfound. cbn [DbClient.one_or_none]. by eexists.
Qed.

Lemma segment_history_stored (calls : list segment_call) (w : World)
    (m : gmap string (list string * option Z)) :
  segments_of w m ->
  ∃ w' : World,
    for_each calls segment_call_run w = (Returned tt, w')
    ∧ segments_of w' (foldl segment_call_stored m calls).
Proof.
  revert w m. induction calls as [|c calls IH]; intros w m Htable.
  - by exists w.
  - destruct (segment_call_stored_step c w m Htable) as (w1 & Hc & Htable1).
    destruct (IH w1 _ Htable1) as (w' & Hrest & ?).
    exists w'. cbn [for_each foldl]. split; [|done].
    unfold mbind, M_bind. by rewrite Hc.
Qed.

Lemma segment_history_new (calls : list segment_call) (clock : nat -> Z) :
  ∃ w' : World,
    for_each calls segment_call_run (new_world clock) = (Returned tt, w')
    ∧ segments_of w' (stored_segments calls).
Proof. apply segment_history_stored, table_of_nil. Qed.

Lemma segment_get_stored (segment_name : string) (w : World)
    (m : gmap string (list string * option Z)) :
  segments_of w m ->
  get segment_name w = (Returned (segment_of segment_name <$> m !! segment_name), w).
Proof.
  intros Htable. pose proof (segment_found w m segment_name Htable) as Hfound.
  unfold get, mbind, M_bind, gets, lift, DbClient.get_one_or_none. cbv beta.
  destruct (m !! segment_name) as [stored|].
  - destruct Hfound as (r & -> & <- & _). reflexivity.
  - by rewrite Hfound.
Qed.

Lemma segment_contains_stored (segment_name key : string) (w : World)
    (m : gmap string (list string * option Z)) :
  segments_of w m ->
  segment_contains segment_name key w =
    (match multiplicity key (default [] (fst <$> m !! segment_name)) with
     | O => Returned false
     | 1%nat => Returned true
     | _ => Raised MultipleResultsFound
     end, w).
Proof.
  intros Htable. pose proof (segment_found w m segment_name Htable) as Hfound.
  unfold segment_contains, mbind, M_bind, gets, lift. cbv beta.
  destruct (m !! segment_name) as [stored|];
    cbn [fmap option_fmap option_map from_option id].
  - destruct Hfound as (r & -> & <- & _). cbn [map concat]. rewrite app_nil_r.
    unfold multiplicity, segment_value. cbn [fst].
    assert (∀ member_rows : list SegmentKeyModel.t,
              length (List.filter (λ k, String.eqb (SegmentKeyModel.name k) key) member_rows)
              = length (List.filter (String.eqb key)
                          (map SegmentKeyModel.name member_rows)))
      as Hlen.
    { intros member_rows. induction member_rows as [|k ks IH]; [done|].
      cbn [map List.filter].
      rewrite (String.eqb_sym key). destruct (String.eqb _ key); cbn [length]; by rewrite IH. }
    rewrite <- Hlen.
    by destruct (List.filter _ (SegmentModel.keys r)) as [|x [|y l]].
  - by rewrite Hfound.
Qed.

(** X8.  On a new segment storage, every sequence of [put], [update] and
    [set_change_number] calls returns, and [get segment_name] then returns the
    segment stored under that name, with its member names in the order of the
    member rows and its change number, or [None] when no segment of that name
    is stored; [get_change_number] returns the change number of that result. *)
Theorem segment_get_returns_what_is_stored (calls : list segment_call)
    (clock : nat -> Z) (segment_name : string) :
  fst (for_each calls segment_call_run (new_world clock)) = Returned tt
  ∧ fst ((for_each calls segment_call_run;; get segment_name) (new_world clock))
    = Returned (segment_of segment_name <$> stored_segments calls !! segment_name)
  ∧ fst ((for_each calls segment_call_run;; get_change_number segment_name)
           (new_world clock))
    = Returned (stored_segments calls !! segment_name ≫= snd).
Proof.
  destruct (segment_history_new calls clock) as (w & Hrun & Htable).
  split; [by rewrite Hrun|].
  rewrite !(bind_Returned _ _ _ _ _ Hrun).
  unfold get_change_number, mbind at 1, M_bind at 1.
  rewrite (segment_get_stored segment_name w _ Htable).
  split; [done|]. by destruct (stored_segments calls !! segment_name) as [[ks cn]|].
Qed.

(** X9.  [put] of a segment whose name is already stored replaces the member
    rows by the keys of the given segment, each of them once, and keeps the
    stored change number: the change number of the given segment is written
    only when the segment is new. *)
Theorem segment_put_keeps_stored_change_number (calls : list segment_call)
    (clock : nat -> Z) (segment : Segment) :
  fst ((for_each calls segment_call_run;; put segment;; get (name segment))
         (new_world clock))
    = Returned (Some (mkSegment (name segment) (elements (_keys segment))
                        match stored_segments calls !! name segment with
                        | Some stored => snd stored
                        | None => change_number segment
                        end)).
Proof.
  destruct (segment_history_new calls clock) as (w & Hrun & Htable).
  destruct (segment_call_stored_step (SegmentPut segment) w _ Htable)
    as (w' & Hput & Htable').
  cbn [segment_call_run] in Hput.
  rewrite (bind_Returned _ _ _ _ _ Hrun), (bind_Returned _ _ _ _ _ Hput).
  rewrite (segment_get_stored (name segment) w' _ Htable'). cbn [fst segment_call_stored].
  destruct (stored_segments calls !! name segment) as [[ks cn]|];
    by rewrite lookup_insert_eq.
Qed.

Lemma multiplicity_NoDup (key : string) (member_names : list string) :
  NoDup member_names ->
  multiplicity key member_names = if bool_decide (key ∈ member_names) then 1%nat else O.
Proof.
  unfold multiplicity. induction 1 as [|k ks Hk _ IH]; [done|]. cbn [List.filter].
  destruct (String.eqb_spec key k) as [->|Hne].
  - rewrite bool_decide_eq_true_2 by (by left). cbn [length]. f_equal.
    rewrite IH. by rewrite bool_decide_eq_false_2.
  - rewrite IH. apply (f_equal (λ b : bool, if b then 1%nat else O)).
    apply bool_decide_ext. rewrite elem_of_cons. split; [by right | by intros [?|?]].
Qed.

(** X10.  After any such history, [segment_contains segment_name key] returns
    false when [key] is not among the member names stored for the segment (or
    no such segment is stored), returns true when it is there once, and raises
    [MultipleResultsFound] when it is there more than once, which [update]
    brings about and [put] undoes: after [put] of a segment, whatever was
    stored, it returns whether [key] is one of the keys of that segment. *)
Theorem segment_contains_by_multiplicity (calls : list segment_call)
    (clock : nat -> Z) (segment_name key : string) :
  fst ((for_each calls segment_call_run;; segment_contains segment_name key)
         (new_world clock))
    = match multiplicity key
              (default [] (fst <$> stored_segments calls !! segment_name)) with
      | O => Returned false
      | 1%nat => Returned true
      | _ => Raised MultipleResultsFound
      end
  ∧ ∀ segment : Segment,
      fst ((for_each calls segment_call_run;; put segment;;
            segment_contains (name segment) key) (new_world clock))
      = Returned (bool_decide (key ∈ keys segment)).
Proof.
  destruct (segment_history_new calls clock) as (w & Hrun & Htable).
  split.
  - rewrite (bind_Returned _ _ _ _ _ Hrun).
    by rewrite (segment_contains_stored segment_name key w _ Htable).
  - intros segment.
    destruct (segment_call_stored_step (SegmentPut segment) w _ Htable)
      as (w' & Hput & Htable').
    cbn [segment_call_run] in Hput.
    rewrite (bind_Returned _ _ _ _ _ Hrun), (bind_Returned _ _ _ _ _ Hput).
    rewrite (segment_contains_stored (name segment) key w' _ Htable').
    cbn [fst segment_call_stored].
    assert (default [] (fst <$>
              match stored_segments calls !! name segment with
              | Some (_, stored_change_number) =>
                  <[name segment := (elements (_keys segment), stored_change_number)]>
                    (stored_segments calls)
              | None =>
                  <[name segment := (elements (_keys segment), change_number segment)]>
                    (stored_segments calls)
              end !! name segment) = elements (_keys segment)) as ->.
    { destruct (stored_segments calls !! name segment) as [[ks cn]|];
        by rewrite lookup_insert_eq. }
    rewrite (multiplicity_NoDup key _ (NoDup_elements _)).
    assert (bool_decide (key ∈ elements (_keys segment))
            = bool_decide (key ∈ keys segment)) as ->.
    { apply bool_decide_ext. unfold _keys.
      by rewrite elem_of_elements, elem_of_list_to_set. }
    by destruct (bool_decide _).
Qed.

(** X11.  [set_change_number segment_name n] changes the change number of a
    stored segment, which [get_change_number] then returns, and does nothing
    when no segment of that name is stored: it does not create one. *)
Theorem segment_set_change_number_needs_the_segment (calls : list segment_call)
    (clock : nat -> Z) (segment_name : string) (new_change_number : Z) :
  fst ((for_each calls segment_call_run;;
        set_change_number segment_name new_change_number;;
        get_change_number segment_name) (new_world clock))
    = Returned match stored_segments calls !! segment_name with
               | Some _ => Some new_change_number
               | None => None
               end
  ∧ (stored_segments calls !! segment_name = None ->
     (for_each calls segment_call_run;;
      set_change_number segment_name new_change_number) (new_world clock)
     = for_each calls segment_call_run (new_world clock)).
Proof.
  destruct (segment_history_new calls clock) as (w & Hrun & Htable).
  destruct (segment_call_stored_step
              (SegmentSetChangeNumber segment_name new_change_number) w _ Htable)
    as (w' & Hset & Htable').
  cbn [segment_call_run] in Hset. split.
  - rewrite (bind_Returned _ _ _ _ _ Hrun), (bind_Returned _ _ _ _ _ Hset).
    unfold get_change_number, mbind at 1, M_bind at 1.
    rewrite (segment_get_stored segment_name w' _ Htable'). cbn [segment_call_stored].
    destruct (stored_segments calls !! segment_name) as [[ks cn]|] eqn:Hm.
    + by rewrite lookup_insert_eq.
    + by rewrite Hm.
  - intros Hnone. rewrite (bind_Returned _ _ _ _ _ Hrun), Hrun.
    pose proof (segment_found w _ segment_name Htable) as Hfound.
    rewrite Hnone in Hfound.
    unfold set_change_number, mbind, M_bind, gets, lift, DbClient.get_one_or_none.
    cbv beta. by rewrite Hfound.
Qed.

(** X24.  After any such history, [update segment_name to_add to_remove
    change_number] leaves a segment stored under the name, created when none
    was: as a set its members are the members it had (none when it is new)
    less [to_remove], plus [to_add], and its change number is [change_number]
    when one is given and the one it had otherwise (none when it is new). *)
Theorem segment_update_membership_as_a_set (calls : list segment_call)
    (clock : nat -> Z) (segment_name : string) (to_add to_remove : list string)
    (new_change_number : option Z) :
  ∃ segment : Segment,
    fst ((for_each calls segment_call_run;;
          update segment_name to_add to_remove new_change_number;;
          get segment_name) (new_world clock))
      = Returned (Some segment)
    ∧ name segment = segment_name
    ∧ (list_to_set (keys segment) : gset string) =
        (list_to_set (default [] (fst <$> stored_segments calls !! segment_name))
           ∖ list_to_set to_remove) ∪ list_to_set to_add
    ∧ change_number segment =
        match new_change_number with
        | Some z => Some z
        | None => stored_segments calls !! segment_name ≫= snd
        end.
Proof.
  destruct (segment_history_new calls clock) as (w & Hrun & Htable).
  destruct (segment_call_stored_step
              (SegmentUpdate segment_name to_add to_remove new_change_number) w _ Htable)
    as (w' & Hupdate & Htable').
  cbn [segment_call_run] in Hupdate.
  rewrite (bind_Returned _ _ _ _ _ Hrun), (bind_Returned _ _ _ _ _ Hupdate).
  rewrite (segment_get_stored segment_name w' _ Htable'). cbn [fst segment_call_stored].
  assert (∀ member_names : list string,
            (list_to_set (List.filter (λ key, negb (bool_decide (key ∈ to_remove)))
                            member_names ++ to_add) : gset string)
            = (list_to_set member_names ∖ list_to_set to_remove) ∪ list_to_set to_add)
    as Hset.
  { intros member_names. apply set_eq. intros x.
    rewrite list_to_set_app, !elem_of_union, elem_of_difference, !elem_of_list_to_set.
    rewrite list_elem_of_In, filter_In, <- list_elem_of_In.
    rewrite negb_true_iff, bool_decide_eq_false. tauto. }
  destruct (stored_segments calls !! segment_name) as [[ks cn]|];
    cbn [from_option id fmap option_fmap option_map fst snd mbind option_bind];
    rewrite lookup_insert_eq; eexists; (split; [reflexivity|]);
    cbn [segment_of name keys change_number fst snd fmap option_fmap option_map];
    (split; [done|]); (split; [apply Hset|]); by destruct new_change_number.
Qed.
End SegmentStore.

(** ** The telemetry storage as three maps *)
Section TelemetryStore.
Import SqlTelemetryStorage.

Lemma buckets_increment_bucket (b : Z) (r : LatencyModel.t) :
  in_range b = true ->
  LatencyModel.buckets (LatencyModel.increment_bucket b r) =
    alter (λ v, v + 1) (Z.to_nat b) (LatencyModel.buckets r).
Proof.
  intros [Hlo Hhi]%andb_true_iff. apply Z.leb_le in Hlo, Hhi.
  assert (∃ n : nat, (n < 22)%nat ∧ b = Z.of_nat n) as (n & Hn & ->)
    by (exists (Z.to_nat b); lia).
  destruct r.
  do 22 (destruct n as [|n]; [reflexivity|]). lia.
Qed.

Lemma pop_gauges_all (w : World) :
  pop_gauges w =
    (Returned (gauges_dict (split_gauges (db w))),
     set_db (set_split_gauges [] (db w)) w).
Proof.
  unfold pop_gauges, mbind, M_bind, gets. cbv beta.
  by rewrite pop_everything.
Qed.

Lemma telemetry_call_step (call : telemetry_call) (w : World)
    (c g : gmap string Z) (l : gmap string (list Z)) :
  telemetry_of w c g l ->
  ∃ w' : World,
    telemetry_call_run call w = (Returned tt, w')
    ∧ telemetry_of w' (counted c call) (gauged g call) (timed l call).
Proof.
  intros (Hc & Hg & Hl).
  destruct call as [name bucket|name|name value| | | |];
    cbn [telemetry_call_run counted gauged timed].
  - unfold inc_latency. fold (in_range bucket).
    destruct (in_range bucket) eqn:Hrange; [|by exists w].
    destruct (increment_or_create_table LatencyModel.name LatencyModel.buckets
                (split_latencies (db w)) l name
                (LatencyModel.increment_bucket bucket) (LatencyModel.create name)
                (alter (λ v, v + 1) (Z.to_nat bucket)) (replicate 22 0) Hl)
      as (rows' & Hrows & Hl'); [done | |].
    { intros r. split; [done|]. split; [done|]. by apply buckets_increment_bucket. }
    unfold mbind, M_bind, gets, lift, modify. cbv beta.
    change (λ r : LatencyModel.t, String.eqb (LatencyModel.name r) name)
      with (keyed_by LatencyModel.name name).
    rewrite Hrows. eexists. split; [reflexivity|]. by split.
  - destruct (increment_or_create_table CounterModel.name CounterModel.value
                (split_counters (db w)) c name
                CounterModel.increment_value (CounterModel.create name)
                (λ v, v + 1) 0 Hc)
      as (rows' & Hrows & Hc'); [done | done |].
    unfold inc_counter, mbind, M_bind, gets, lift, modify. cbv beta.
    change (λ r : CounterModel.t, String.eqb (CounterModel.name r) name)
      with (keyed_by CounterModel.name name).
    rewrite Hrows. eexists. split; [reflexivity|]. by split.
  - destruct (update_or_insert_table GaugeModel.name GaugeModel.value
                (split_gauges (db w)) g name
                (GaugeModel.set_value value) (λ id, GaugeModel.mk id name value)
                value Hg)
      as (rows' & Hrows & Hg'); [done | done |].
    unfold put_gauge, mbind, M_bind, gets, lift, modify. cbv beta.
    change (λ r : GaugeModel.t, String.eqb (GaugeModel.name r) name)
      with (keyed_by GaugeModel.name name).
    rewrite Hrows. eexists. split; [reflexivity|]. by split.
  - rewrite (bind_Returned _ _ _ _ _ (pop_latencies_all w)).
    eexists. split; [reflexivity|].
    split; [done|]. split; [done | apply table_of_nil].
  - rewrite (bind_Returned _ _ _ _ _ (pop_counters_all w)).
    eexists. split; [reflexivity|].
    split; [apply table_of_nil | by split].
  - rewrite (bind_Returned _ _ _ _ _ (pop_gauges_all w)).
    eexists. split; [reflexivity|].
    split; [done|]. split; [apply table_of_nil | done].
  - unfold clear, mbind, M_bind, modify. cbv beta.
    eexists. split; [reflexivity|].
    unfold telemetry_of.
    cbn [db set_db split_counters split_gauges split_latencies
         set_split_counters set_split_gauges set_split_latencies].
    rewrite !delete_everything. repeat split; try constructor; done.
Qed.

Lemma telemetry_history_stored (calls : list telemetry_call) (w : World)
    (c g : gmap string Z) (l : gmap string (list Z)) :
  telemetry_of w c g l ->
  ∃ w' : World,
    for_each calls telemetry_call_run w = (Returned tt, w')
    ∧ telemetry_of w' (foldl counted c calls) (foldl gauged g calls) (foldl timed l calls).
Proof.
  revert w c g l. induction calls as [|call calls IH]; intros w c g l Htable.
  - by exists w.
  - destruct (telemetry_call_step call w c g l Htable) as (w1 & Hcall & Htable1).
    destruct (IH w1 _ _ _ Htable1) as (w' & Hrest & ?).
    exists w'. cbn [for_each foldl]. split; [|done].
    unfold mbind, M_bind. by rewrite Hcall.
Qed.

Lemma telemetry_history_new (calls : list telemetry_call) (clock : nat -> Z) :
  ∃ w' : World,
    for_each calls telemetry_call_run (new_world clock) = (Returned tt, w')
    ∧ telemetry_of w' (foldl counted ∅ calls) (foldl gauged ∅ calls) (foldl timed ∅ calls).
Proof.
  apply telemetry_history_stored. repeat split; try constructor; done.
Qed.

(** X12.  On a new telemetry storage, every sequence of calls returns, and
    [pop_counters] then returns the counters incremented since the last
    [pop_counters] or [clear], each with the number of [inc_counter] calls
    made for its name since; calls for other names, gauges and latencies do
    not change the count.  A second [pop_counters] returns the empty dict. *)
Theorem pop_counters_counts_since_last_drain (calls : list telemetry_call)
    (clock : nat -> Z) :
  fst (for_each calls telemetry_call_run (new_world clock)) = Returned tt
  ∧ fst ((for_each calls telemetry_call_run;; pop_counters) (new_world clock))
    = Returned (foldl counted ∅ calls)
  ∧ fst ((for_each calls telemetry_call_run;; pop_counters;; pop_counters)
           (new_world clock))
    = Returned ∅.
Proof.
  destruct (telemetry_history_new calls clock) as (w & Hrun & Hc & _ & _).
  split; [by rewrite Hrun|].
  rewrite !(bind_Returned _ _ _ _ _ Hrun).
  rewrite !(bind_Returned _ _ _ _ _ (pop_counters_all w)), !pop_counters_all. cbn [fst].
  split; [|done]. f_equal.
  apply (table_of_dict CounterModel.name CounterModel.value _ _ Hc).
Qed.

(** X13.  On a new telemetry storage, [pop_gauges] returns, for every name
    given to [put_gauge] since the last [pop_gauges] or [clear], the value of
    the last [put_gauge] for that name; a second [pop_gauges] returns the
    empty dict. *)
Theorem pop_gauges_returns_last_values (calls : list telemetry_call)
    (clock : nat -> Z) :
  fst ((for_each calls telemetry_call_run;; pop_gauges) (new_world clock))
    = Returned (foldl gauged ∅ calls)
  ∧ fst ((for_each calls telemetry_call_run;; pop_gauges;; pop_gauges)
           (new_world clock))
    = Returned ∅.
Proof.
  destruct (telemetry_history_new calls clock) as (w & Hrun & _ & Hg & _).
  rewrite !(bind_Returned _ _ _ _ _ Hrun).
  rewrite !(bind_Returned _ _ _ _ _ (pop_gauges_all w)), !pop_gauges_all. cbn [fst].
  split; [|done]. f_equal.
  apply (table_of_dict GaugeModel.name GaugeModel.value _ _ Hg).
Qed.

(** X14.  On a new telemetry storage, [pop_latencies] returns, for every name
    given to [inc_latency] with a bucket in 0..21 since the last
    [pop_latencies] or [clear], the 22 buckets of its histogram, bucket [b]
    holding the number of such calls made with [b]; calls with a bucket
    outside 0..21 create no histogram and change none. *)
Theorem pop_latencies_returns_histograms (calls : list telemetry_call)
    (clock : nat -> Z) :
  fst ((for_each calls telemetry_call_run;; pop_latencies) (new_world clock))
    = Returned (foldl timed ∅ calls)
  ∧ fst ((for_each calls telemetry_call_run;; pop_latencies;; pop_latencies)
           (new_world clock))
    = Returned ∅.
Proof.
  destruct (telemetry_history_new calls clock) as (w & Hrun & _ & _ & Hl).
  rewrite !(bind_Returned _ _ _ _ _ Hrun).
  rewrite !(bind_Returned _ _ _ _ _ (pop_latencies_all w)), !pop_latencies_all. cbn [fst].
  split; [|done]. f_equal.
  apply (table_of_dict LatencyModel.name LatencyModel.buckets _ _ Hl).
Qed.
End TelemetryStore.

(** ** The segments of a traffic key *)
Section MySegments.
Import SqlMySegmentsStorage.

#[local] Abbreviation membership :=
  (λ r : MySegmentModel.t, (MySegmentModel.traffic_key r, MySegmentModel.segment_name r)).

(** The rows that [segment_contains] counts. *)
Lemma members_counted (segment_name key : string) (rows : list MySegmentModel.t) :
  DbClient.get_count
    (λ r, String.eqb (MySegmentModel.traffic_key r) key
          && String.eqb (MySegmentModel.segment_name r) segment_name) rows
  = Z.of_nat (length (List.filter
                        (λ p, String.eqb (fst p) key && String.eqb (snd p) segment_name)
                        (map membership rows))).
Proof.
  unfold DbClient.get_count. f_equal.
  induction rows as [|r rows IH]; [done|]. cbn [map List.filter fst snd].
  destruct (_ && _); cbn [length]; by rewrite IH.
Qed.

(** The inserts of [put]: one row for each name, in order, all of them for
    the traffic key. *)
Lemma my_segments_inserted (traffic_key : string) (segment_names : list string)
    (w : World) :
  ∃ new : list MySegmentModel.t,
    for_each segment_names (λ segment_name,
      modify (λ d, set_split_my_segments
        (DbClient.add (λ id, MySegmentModel.mk id traffic_key segment_name)
                      (split_my_segments d)) d)) w
    = (Returned tt,
       set_db (set_split_my_segments (split_my_segments (db w) ++ new) (db w)) w)
    ∧ map membership new = map (λ segment_name, (traffic_key, segment_name)) segment_names.
Proof.
  revert w. induction segment_names as [|s names IH]; intros w.
  - exists []. split; [|done]. rewrite app_nil_r. by destruct w as [[]].
  - destruct (IH (set_db (set_split_my_segments
                    (DbClient.add (λ id, MySegmentModel.mk id traffic_key s)
                       (split_my_segments (db w))) (db w)) w)) as (new & Hrest & Hnew).
    exists (MySegmentModel.mk (DbClient.fresh_pk (split_my_segments (db w))) traffic_key s
              :: new).
    split; [|cbn [map]; by rewrite Hnew].
    cbn [for_each]. unfold mbind, M_bind, modify at 1. cbv beta. rewrite Hrest.
    cbn [db set_db split_my_segments set_split_my_segments]. unfold DbClient.add.
    rewrite <- app_assoc. by destruct w as [[]].
Qed.

Lemma no_member_left (traffic_key key segment_name : string)
    (rows : list MySegmentModel.t) :
  List.filter (λ p, String.eqb (fst p) key && String.eqb (snd p) segment_name)
    (map membership
       (DbClient.delete_all
          (λ r, String.eqb (MySegmentModel.traffic_key r) traffic_key) rows))
  = if String.eqb key traffic_key then []
    else List.filter (λ p, String.eqb (fst p) key && String.eqb (snd p) segment_name)
           (map membership rows).
Proof.
  unfold DbClient.delete_all.
  induction rows as [|r rows IH]; [by destruct (String.eqb key traffic_key)|].
  cbn [List.filter map].
  destruct (String.eqb_spec (MySegmentModel.traffic_key r) traffic_key) as [Hr|Hr];
    cbn [negb map List.filter fst snd]; rewrite IH.
  - destruct (String.eqb_spec key traffic_key) as [->|Hk]; [done|].
    rewrite (proj2 (String.eqb_neq _ _)); [done | congruence].
  - destruct (String.eqb_spec key traffic_key) as [->|Hk]; [|done].
    by rewrite (proj2 (String.eqb_neq _ _) Hr).
Qed.

Lemma members_put (traffic_key key segment_name : string) (segment_names : list string) :
  length (List.filter (λ p, String.eqb (fst p) key && String.eqb (snd p) segment_name)
            (map (λ s, (traffic_key, s)) segment_names))
  = if String.eqb key traffic_key
    then length (List.filter (String.eqb segment_name) segment_names)
    else O.
Proof.
  induction segment_names as [|s names IH]; [by destruct (String.eqb key traffic_key)|].
  cbn [map List.filter fst snd]. rewrite (String.eqb_sym traffic_key key).
  destruct (String.eqb key traffic_key); cbn [andb]; [|done].
  rewrite (String.eqb_sym s segment_name).
  destruct (String.eqb segment_name s); cbn [length]; by rewrite IH.
Qed.

Lemma occurs_iff (segment_name : string) (segment_names : list string) :
  (Z.of_nat (length (List.filter (String.eqb segment_name) segment_names)) >? 0)
  = bool_decide (segment_name ∈ segment_names).
Proof.
  induction segment_names as [|s names IH]; [done|]. cbn [List.filter].
  destruct (String.eqb_spec segment_name s) as [->|Hs].
  - rewrite bool_decide_eq_true_2; [|by left].
    cbn [length]. apply Z.gtb_gt. lia.
  - rewrite IH. apply bool_decide_ext. rewrite elem_of_cons.
    split; [by right | by intros [?|?]].
Qed.

(** X15.  [put traffic_key segment_names] replaces the segments of the
    traffic key: whatever was stored before, [segment_contains name
    traffic_key] then returns true exactly for the names of [segment_names],
    and for every other key [segment_contains] returns what it returned
    before.  After [clear], [segment_contains] returns false for every name
    and key. *)
Theorem my_segments_put_replaces_the_segments_of_the_key (w : World)
    (traffic_key : string) (segment_names : list string) :
  ∃ w' : World,
    put traffic_key segment_names w = (Returned tt, w')
    ∧ (∀ segment_name : string,
         segment_contains segment_name traffic_key w'
         = (Returned (bool_decide (segment_name ∈ segment_names)), w'))
    ∧ (∀ segment_name key : string,
         key ≠ traffic_key ->
         fst (segment_contains segment_name key w')
         = fst (segment_contains segment_name key w))
    ∧ (∀ segment_name key : string,
         fst (segment_contains segment_name key (snd (clear w'))) = Returned false).
Proof.
  unfold put.
  destruct (my_segments_inserted traffic_key segment_names
              (set_db (set_split_my_segments
                 (DbClient.delete_all
                    (λ r, String.eqb (MySegmentModel.traffic_key r) traffic_key)
                    (split_my_segments (db w))) (db w)) w)) as (new & Hput & Hnew).
  eexists. split.
  { unfold mbind, M_bind, modify at 1. cbv beta. exact Hput. }
  cbn [db set_db split_my_segments set_split_my_segments].
  assert (∀ segment_name key : string,
            DbClient.get_count
              (λ r, String.eqb (MySegmentModel.traffic_key r) key
                    && String.eqb (MySegmentModel.segment_name r) segment_name)
              (DbClient.delete_all
                 (λ r, String.eqb (MySegmentModel.traffic_key r) traffic_key)
                 (split_my_segments (db w)) ++ new)
            = if String.eqb key traffic_key
              then Z.of_nat (length (List.filter (String.eqb segment_name) segment_names))
              else DbClient.get_count
                     (λ r, String.eqb (MySegmentModel.traffic_key r) key
                           && String.eqb (MySegmentModel.segment_name r) segment_name)
                     (split_my_segments (db w))) as Hcount.
  { intros segment_name key.
    rewrite !members_counted, map_app, List.filter_app, length_app, Hnew.
    rewrite no_member_left, members_put.
    destruct (String.eqb key traffic_key); cbn [length]; [done | f_equal; lia]. }
  split; [|split].
  - intros segment_name.
    unfold segment_contains, mbind, M_bind, gets, mret, M_ret. cbv beta.
    cbn [db set_db split_my_segments set_split_my_segments].
    rewrite Hcount, String.eqb_refl, occurs_iff. done.
  - intros segment_name key Hkey.
    unfold segment_contains, mbind, M_bind, gets, mret, M_ret. cbv beta.
    cbn [fst db set_db split_my_segments set_split_my_segments].
    rewrite Hcount. by rewrite (proj2 (String.eqb_neq _ _) Hkey).
  - intros segment_name key.
    unfold segment_contains, clear, mbind, M_bind, gets, modify, mret, M_ret. cbv beta.
    cbn [fst snd db set_db split_my_segments set_split_my_segments].
    by rewrite delete_everything.
Qed.

Lemma none_left {R : Type} (f : R -> bool) (rows : list R) :
  existsb f (DbClient.delete_all f rows) = false.
Proof.
  unfold DbClient.delete_all. induction rows as [|r rows IH]; [done|].
  cbn [List.filter]. destruct (f r) eqn:Hr; cbn [negb existsb]; [done | by rewrite Hr].
Qed.

Lemma attributes_name (records : list MySegmentModel.t) :
  attributes "name" records =
    match records with
    | [] => Value []
    | _ :: _ => AttributeError "name"
    end.
Proof. by destruct records. Qed.

(** X16.  [get traffic_key] reads the attribute [name] of every row stored
    for the traffic key, and [MySegmentModel] has no such attribute (its
    columns are [id], [traffic_key] and [segment_name]): [get] returns the
    empty list when no row is stored for the key and raises [AttributeError]
    when one is, as after every [put] of a list that is not empty. *)
Theorem my_segments_get_raises_when_a_segment_is_stored (d : Db) (w : World)
    (traffic_key : string) (segment_names : list string) :
  get traffic_key d =
    (if existsb (λ r, String.eqb (MySegmentModel.traffic_key r) traffic_key)
          (split_my_segments d)
     then AttributeError "name" else Value [])
  ∧ get traffic_key (db (snd (put traffic_key segment_names w))) =
      match segment_names with
      | [] => Value []
      | _ :: _ => AttributeError "name"
      end.
Proof.
  assert (∀ d', get traffic_key d' =
            if existsb (λ r, String.eqb (MySegmentModel.traffic_key r) traffic_key)
                 (split_my_segments d')
            then AttributeError "name" else Value []) as Hget.
  { intros d'. unfold get, DbClient.get_all. rewrite attributes_name.
    induction (split_my_segments d') as [|r rows IH]; [done|].
    cbn [List.filter existsb].
    by destruct (String.eqb (MySegmentModel.traffic_key r) traffic_key). }
  split; [apply Hget|]. rewrite Hget.
  unfold put.
  destruct (my_segments_inserted traffic_key segment_names
              (set_db (set_split_my_segments
                 (DbClient.delete_all
                    (λ r, String.eqb (MySegmentModel.traffic_key r) traffic_key)
                    (split_my_segments (db w))) (db w)) w)) as (new & Hput & Hnew).
  unfold mbind, M_bind, modify at 1. cbv beta. rewrite Hput.
  cbn [snd db set_db split_my_segments set_split_my_segments].
  rewrite existsb_app.
  rewrite none_left.
  cbn [orb]. destruct segment_names as [|s names]; destruct new as [|r new];
    try discriminate; [done|].
  cbn [map] in Hnew. injection Hnew as Hr _ _. cbn [existsb].
  by rewrite Hr, String.eqb_refl.
Qed.
End MySegments.

(** ** Queues under any clock *)
Section QueueConservation.
Context {A : Type}.
Variable dumps : A -> string.
Variable loads : string -> A.

#[local] Abbreviation impression_of :=
  (λ r : ImpressionModel.t, loads (ImpressionModel.json_data r)).
#[local] Abbreviation event_of :=
  (λ r : EventModel.t, loads (EventModel.json_data r)).

Lemma impressions_inserted_keys (impressions : list A) (w : World) :
  NoDup (map pk (split_impressions (db w))) ->
  ∃ new : list ImpressionModel.t,
    for_each impressions (λ i, SqlImpressionStorage.insert (dumps i)) w =
      (Returned tt, impressions_added new (length impressions) w)
    ∧ map ImpressionModel.json_data new = map dumps impressions
    ∧ NoDup (map pk (split_impressions (db w) ++ new)).
Proof.
  revert w. induction impressions as [|i impressions IH]; intros w Hkeys.
  - exists []. rewrite app_nil_r. split; [|done].
    unfold impressions_added. cbn [for_each length]. rewrite app_nil_r, Nat.add_0_r.
    by destruct w as [[]].
  - cbn [for_each]. unfold mbind at 1, M_bind at 1. rewrite impression_inserted.
    destruct (IH (impressions_added
                    [ImpressionModel.mk (DbClient.fresh_pk (split_impressions (db w)))
                       (wall_clock w (clock_calls w)) (dumps i)] 1 w))
      as (new & Hrest & Hjson & Hnodup).
    { cbn [impressions_added db split_impressions set_split_impressions].
      by apply (NoDup_add (λ id, ImpressionModel.mk id (wall_clock w (clock_calls w))
                                   (dumps i))). }
    rewrite Hrest.
    exists (ImpressionModel.mk (DbClient.fresh_pk (split_impressions (db w)))
              (wall_clock w (clock_calls w)) (dumps i) :: new).
    cbn [impressions_added db split_impressions set_split_impressions] in *.
    split; [|split].
    + unfold impressions_added.
      cbn [db split_impressions set_split_impressions wall_clock clock_calls
           hook_calls lock_held length].
      rewrite <- app_assoc. cbn [app]. do 2 f_equal. lia.
    + cbn [map]. by rewrite Hjson.
    + by rewrite <- app_assoc in Hnodup.
Qed.

Lemma impression_put_rows (self : SqlImpressionStorage.t) (impressions : list A)
    (w : World) :
  NoDup (map pk (split_impressions (db w))) ->
  ∃ new : list ImpressionModel.t,
    split_impressions (db (snd (SqlImpressionStorage.put dumps self impressions w)))
      = split_impressions (db w) ++ new
    ∧ map ImpressionModel.json_data new = map dumps impressions
    ∧ NoDup (map pk (split_impressions (db w) ++ new)).
Proof.
  intros Hkeys.
  destruct (impressions_inserted_keys impressions w Hkeys) as (new & Hins & Hjson & Hnodup).
  exists new. split; [|done].
  unfold SqlImpressionStorage.put. unfold mbind at 1, M_bind at 1. rewrite Hins.
  unfold mbind, M_bind, gets, mret, M_ret. cbv beta.
  destruct (_ >? _); [|done].
  by destruct (SqlImpressionStorage._table_full_hook self).
Qed.

Lemma impression_pop_many_rows (count : nat) (w : World) :
  NoDup (map pk (split_impressions (db w))) ->
  ∃ (popped : list ImpressionModel.t) (w' : World),
    SqlImpressionStorage.pop_many loads count w = (Returned (map impression_of popped), w')
    ∧ popped ++ split_impressions (db w') ≡ₚ split_impressions (db w)
    ∧ length popped = Nat.min count (length (split_impressions (db w)))
    ∧ NoDup (map pk (split_impressions (db w'))).
Proof.
  intros Hkeys.
  destruct (deleted_and_kept (Some count) (λ _, true) (Some ImpressionModel.created_at)
              (split_impressions (db w)) Hkeys) as (Hperm & Hlen & Hrest).
  unfold SqlImpressionStorage.pop_many, mbind, M_bind, gets, modify, mret, M_ret. cbv beta.
  destruct (DbClient.pop _ _ _ _) as [popped rest]. cbn [fst snd] in *.
  exists popped. eexists. split; [reflexivity|].
  cbn [db set_db split_impressions set_split_impressions].
  rewrite filter_all in Hlen. by split.
Qed.

Lemma impression_history_conserves (self : SqlImpressionStorage.t)
    (history : list (queue_call A)) (w : World) :
  NoDup (map pk (split_impressions (db w))) ->
  ∃ (pops : list (list A)) (w' : World),
    impression_history dumps loads self history w = (map Returned pops, w')
    ∧ concat pops ++ map impression_of (split_impressions (db w'))
      ≡ₚ map impression_of (split_impressions (db w))
         ++ entries_put (λ a, loads (dumps a)) history.
Proof.
  revert w. induction history as [|[items|count] history IH]; intros w Hkeys.
  - exists [], w. split; [done|]. cbn [concat entries_put app]. by rewrite app_nil_r.
  - cbn [impression_history entries_put].
    destruct (impression_put_rows self items w Hkeys) as (new & Hrows & Hjson & Hnodup).
    destruct (IH (snd (SqlImpressionStorage.put dumps self items w)))
      as (pops & w' & Hrun & Hperm); [by rewrite Hrows|].
    exists pops, w'. split; [done|].
    rewrite Hperm, Hrows, map_app, <- app_assoc.
    by rewrite (loads_json_data dumps loads new items Hjson).
  - cbn [impression_history entries_put].
    destruct (impression_pop_many_rows count w Hkeys)
      as (popped & w1 & Hpop & Hperm1 & _ & Hkeys1).
    rewrite Hpop.
    destruct (IH w1 Hkeys1) as (pops & w' & Hrun & Hperm).
    rewrite Hrun. exists (map impression_of popped :: pops), w'. split; [done|].
    cbn [concat]. rewrite <- app_assoc, Hperm, app_assoc, <- map_app.
    by rewrite Hperm1.
Qed.

Lemma events_inserted_keys (events : list (A * Z)) (w : World) :
  NoDup (map pk (split_events (db w))) ->
  ∃ new : list EventModel.t,
    for_each events (λ e, SqlEventStorage.insert (dumps (fst e)) (snd e)) w =
      (Returned tt, events_added new (length events) w)
    ∧ map EventModel.json_data new = map (λ e, dumps (fst e)) events
    ∧ NoDup (map pk (split_events (db w) ++ new)).
Proof.
  revert w. induction events as [|e events IH]; intros w Hkeys.
  - exists []. rewrite app_nil_r. split; [|done].
    unfold events_added. cbn [for_each length]. rewrite app_nil_r, Nat.add_0_r.
    by destruct w as [[]].
  - cbn [for_each]. unfold mbind at 1, M_bind at 1. rewrite event_inserted.
    destruct (IH (events_added
                    [EventModel.mk (DbClient.fresh_pk (split_events (db w)))
                       (wall_clock w (clock_calls w)) (dumps (fst e)) (snd e)] 1 w))
      as (new & Hrest & Hjson & Hnodup).
    { cbn [events_added db split_events set_split_events].
      by apply (NoDup_add (λ id, EventModel.mk id (wall_clock w (clock_calls w))
                                   (dumps (fst e)) (snd e))). }
    rewrite Hrest.
    exists (EventModel.mk (DbClient.fresh_pk (split_events (db w)))
              (wall_clock w (clock_calls w)) (dumps (fst e)) (snd e) :: new).
    cbn [events_added db split_events set_split_events] in *.
    split; [|split].
    + unfold events_added.
      cbn [db split_events set_split_events wall_clock clock_calls
           hook_calls lock_held length].
      rewrite <- app_assoc. cbn [app]. do 2 f_equal. lia.
    + cbn [map]. by rewrite Hjson.
    + by rewrite <- app_assoc in Hnodup.
Qed.

Lemma event_put_rows (self : SqlEventStorage.t) (events : list (A * Z)) (w : World) :
  NoDup (map pk (split_events (db w))) ->
  ∃ new : list EventModel.t,
    split_events (db (snd (SqlEventStorage.put dumps self events w)))
      = split_events (db w) ++ new
    ∧ map EventModel.json_data new = map (λ e, dumps (fst e)) events
    ∧ NoDup (map pk (split_events (db w) ++ new)).
Proof.
  intros Hkeys.
  destruct (events_inserted_keys events w Hkeys) as (new & Hins & Hjson & Hnodup).
  exists new. split; [|done].
  unfold SqlEventStorage.put. unfold mbind at 1, M_bind at 1. rewrite Hins.
  unfold mbind, M_bind, gets, mret, M_ret. cbv beta.
  destruct (_ || _); [|done].
  by destruct (SqlEventStorage._table_full_hook self).
Qed.

Lemma event_pop_many_rows (count : nat) (w : World) :
  NoDup (map pk (split_events (db w))) ->
  ∃ (popped : list EventModel.t) (w' : World),
    SqlEventStorage.pop_many loads count w = (Returned (map event_of popped), w')
    ∧ popped ++ split_events (db w') ≡ₚ split_events (db w)
    ∧ length popped = Nat.min count (length (split_events (db w)))
    ∧ NoDup (map pk (split_events (db w'))).
Proof.
  intros Hkeys.
  destruct (deleted_and_kept (Some count) (λ _, true) (Some EventModel.created_at)
              (split_events (db w)) Hkeys) as (Hperm & Hlen & Hrest).
  unfold SqlEventStorage.pop_many, mbind, M_bind, gets, modify, mret, M_ret. cbv beta.
  destruct (DbClient.pop _ _ _ _) as [popped rest]. cbn [fst snd] in *.
  exists popped. eexists. split; [reflexivity|].
  cbn [db set_db split_events set_split_events].
  rewrite filter_all in Hlen. by split.
Qed.

Lemma event_history_conserves (self : SqlEventStorage.t)
    (history : list (queue_call (A * Z))) (w : World) :
  NoDup (map pk (split_events (db w))) ->
  ∃ (pops : list (list A)) (w' : World),
    event_history dumps loads self history w = (map Returned pops, w')
    ∧ concat pops ++ map event_of (split_events (db w'))
      ≡ₚ map event_of (split_events (db w))
         ++ entries_put (λ e, loads (dumps (fst e))) history.
Proof.
  revert w. induction history as [|[items|count] history IH]; intros w Hkeys.
  - exists [], w. split; [done|]. cbn [concat entries_put app]. by rewrite app_nil_r.
  - cbn [event_history entries_put].
    destruct (event_put_rows self items w Hkeys) as (new & Hrows & Hjson & Hnodup).
    destruct (IH (snd (SqlEventStorage.put dumps self items w)))
      as (pops & w' & Hrun & Hperm); [by rewrite Hrows|].
    exists pops, w'. split; [done|].
    rewrite Hperm, Hrows, map_app, <- app_assoc.
    by rewrite (loads_event_json_data dumps loads new items Hjson).
  - cbn [event_history entries_put].
    destruct (event_pop_many_rows count w Hkeys)
      as (popped & w1 & Hpop & Hperm1 & _ & Hkeys1).
    rewrite Hpop.
    destruct (IH w1 Hkeys1) as (pops & w' & Hrun & Hperm).
    rewrite Hrun. exists (map event_of popped :: pops), w'. split; [done|].
    cbn [concat]. rewrite <- app_assoc, Hperm, app_assoc, <- map_app.
    by rewrite Hperm1.
Qed.

(** X18.  Whatever the wall clock reads, on the impression store and on the
    event store, every [pop_many] of a sequential history of [put] and
    [pop_many] calls on a new queue returns, and the items returned by the
    pops together with the items still queued at the end are the items that
    were put, each as often as it was put: no item is lost and none is
    returned by two pops.  Only the order of the pops depends on the clock. *)
Theorem queue_keeps_every_item_under_any_clock (clock : nat -> Z) :
  (∀ (self : SqlImpressionStorage.t) (history : list (queue_call A)),
     ∃ (pops : list (list A)) (w' : World),
       impression_history dumps loads self history (new_world clock)
         = (map Returned pops, w')
       ∧ concat pops ++ map impression_of (split_impressions (db w'))
         ≡ₚ entries_put (λ a, loads (dumps a)) history)
  ∧ (∀ (self : SqlEventStorage.t) (history : list (queue_call (A * Z))),
       ∃ (pops : list (list A)) (w' : World),
         event_history dumps loads self history (new_world clock)
           = (map Returned pops, w')
         ∧ concat pops ++ map event_of (split_events (db w'))
           ≡ₚ entries_put (λ e, loads (dumps (fst e))) history).
Proof.
  split.
  - intros self history.
    destruct (impression_history_conserves self history (new_world clock))
      as (pops & w' & Hrun & Hperm); [constructor|]. by exists pops, w'.
  - intros self history.
    destruct (event_history_conserves self history (new_world clock))
      as (pops & w' & Hrun & Hperm); [constructor|]. by exists pops, w'.
Qed.

(** X19.  [clear] empties the queue whatever it held: it returns, and in
    every history of [put] and [pop_many] calls that follows it, under any
    clock, the pops return only items that were put after the [clear], each
    at most as often as it was put. *)
Theorem queue_clear_forgets_what_was_queued (w : World) :
  (fst (SqlImpressionStorage.clear w) = Returned tt
   ∧ ∀ (self : SqlImpressionStorage.t) (history : list (queue_call A)),
       ∃ (pops : list (list A)) (w' : World),
         impression_history dumps loads self history (snd (SqlImpressionStorage.clear w))
           = (map Returned pops, w')
         ∧ concat pops ++ map impression_of (split_impressions (db w'))
           ≡ₚ entries_put (λ a, loads (dumps a)) history)
  ∧ (fst (SqlEventStorage.clear w) = Returned tt
     ∧ ∀ (self : SqlEventStorage.t) (history : list (queue_call (A * Z))),
         ∃ (pops : list (list A)) (w' : World),
           event_history dumps loads self history (snd (SqlEventStorage.clear w))
             = (map Returned pops, w')
           ∧ concat pops ++ map event_of (split_events (db w'))
             ≡ₚ entries_put (λ e, loads (dumps (fst e))) history).
Proof.
  split; (split; [done|]); intros self history.
  - destruct (impression_history_conserves self history
                (snd (SqlImpressionStorage.clear w)))
      as (pops & w' & Hrun & Hperm).
    { cbn [SqlImpressionStorage.clear modify snd db set_db split_impressions
           set_split_impressions]. rewrite delete_everything. constructor. }
    exists pops, w'. split; [done|]. rewrite Hperm.
    cbn [SqlImpressionStorage.clear modify snd db set_db split_impressions
         set_split_impressions]. by rewrite delete_everything.
  - destruct (event_history_conserves self history (snd (SqlEventStorage.clear w)))
      as (pops & w' & Hrun & Hperm).
    { cbn [SqlEventStorage.clear modify snd db set_db split_events set_split_events].
      rewrite delete_everything. constructor. }
    exists pops, w'. split; [done|]. rewrite Hperm.
    cbn [SqlEventStorage.clear modify snd db set_db split_events set_split_events].
    by rewrite delete_everything.
Qed.
End QueueConservation.

(** ** Parallel callers are served one after the other *)
Section Serialised.
Import Parallel.
Variable name : string.
Variable rows0 : list CounterModel.t.

Lemma in_progress_in_session (before rows : list CounterModel.t) (p : pc) :
  in_progress name before p rows -> in_session p = true.
Proof. by destruct 1. Qed.

Lemma serialised_init (n : nat) : serialised name rows0 (init n rows0).
Proof.
  unfold serialised, init. cbn [threads session_lock counters].
  assert (done_count (replicate n Start) = O) as ->
    by (unfold done_count; induction n; simpl; done).
  split; [done|]. split; [|done].
  apply Forall_forall. by intros p [-> _]%elem_of_replicate.
Qed.

Lemma thread_step_serialised (j : nat) (s : system) :
  serialised name rows0 s -> serialised name rows0 (thread_step name j s).
Proof.
  destruct s as [rows lock ps]. unfold serialised, thread_step, at_pc.
  cbn [counters session_lock threads]. intros [Hreturned Hinv].
  destruct (ps !! j) as [p|] eqn:Hj; [|done].
  assert (j < length ps)%nat as Hlt by (by eapply lookup_lt_Some).
  destruct lock.
  - destruct Hinv as (i & p0 & Hi & Hprogress & Hothers).
    destruct (decide (j = i)) as [->|Hne].
    + rewrite Hj in Hi. injection Hi as <-.
      inversion Hprogress as [Hp Hr | Hnone Hp Hr | id rows' Hinc Hp Hr | rows' Hinc Hp Hr];
        subst p; try subst rows; cbn [counters session_lock threads].
      * (* Query *)
        unfold DbClient.get_one_or_none.
        destruct (DbClient.one_or_none _) as [[record|]|e|] eqn:Hfound;
          cbn [counters session_lock threads].
        -- rewrite (done_count_same _ _ Query (Increment (pk record))) by done.
           split; [done|]. exists i, (Increment (pk record)).
           split; [by apply list_lookup_insert_eq|]. split.
           ++ constructor. unfold counter_increment, DbClient.increment_or_create.
              by rewrite Hfound.
           ++ intros j' q Hj' Hq. rewrite list_lookup_insert_ne in Hq by done. eauto.
        -- rewrite (done_count_same _ _ Query Insert) by done.
           split; [done|]. exists i, Insert.
           split; [by apply list_lookup_insert_eq|]. split.
           ++ constructor. by apply one_or_none_absent.
           ++ intros j' q Hj' Hq. rewrite list_lookup_insert_ne in Hq by done. eauto.
        -- rewrite (done_count_same _ _ Query (Failed e)) by done.
           split; [done|]. split; [|done].
           apply Forall_forall. intros q Hq.
           apply list_elem_of_lookup in Hq as [j' Hq].
           destruct (decide (j' = i)) as [->|Hne].
           ++ rewrite list_lookup_insert_eq in Hq by done.
              by injection Hq as <-.
           ++ rewrite list_lookup_insert_ne in Hq by done. eauto.
        -- split; [done|]. by exists i, Query.
      * (* Insert *)
        rewrite (done_count_same _ _ Insert (Increment _)) by done.
        split; [done|]. eexists i, _.
        split; [by apply list_lookup_insert_eq|]. split.
        -- constructor. unfold counter_increment, DbClient.increment_or_create.
           by rewrite Hnone.
        -- intros j' q Hj' Hq. rewrite list_lookup_insert_ne in Hq by done. eauto.
      * (* Increment *)
        rewrite (done_count_same _ _ (Increment id) Release) by done.
        split; [done|]. exists i, Release.
        split; [by apply list_lookup_insert_eq|]. split.
        -- by constructor.
        -- intros j' q Hj' Hq. rewrite list_lookup_insert_ne in Hq by done. eauto.
      * (* Release *)
        pose proof (done_count_insert ps i Release Done Hj) as Hcount.
        cbn [is_done] in Hcount.
        replace (done_count (<[i:=Done]> ps)) with (S (done_count ps)) by lia.
        split; [by eexists|]. split.
        -- apply Forall_forall. intros q Hq.
           apply list_elem_of_lookup in Hq as [j' Hq].
           destruct (decide (j' = i)) as [->|Hne].
           ++ rewrite list_lookup_insert_eq in Hq by done.
              by injection Hq as <-.
           ++ rewrite list_lookup_insert_ne in Hq by done. eauto.
        -- rewrite Nat.iter_succ. unfold served at 1. by rewrite Hinc.
    + (* another thread: it is outside, and waits or is through *)
      pose proof (Hothers j p Hne Hj) as Hout.
      destruct p; try discriminate; cbn [counters session_lock threads];
        (split; [done|]); by exists i, p0.
  - destruct Hinv as [Houtside Hrows]. rewrite Forall_forall in Houtside.
    assert (in_session p = false) as Hout
      by (apply Houtside; by eapply list_elem_of_lookup_2).
    destruct p; try discriminate; cbn [counters session_lock threads].
    + rewrite (done_count_same _ _ Start Query) by done.
      split; [done|]. exists j, Query. split; [by apply list_lookup_insert_eq|]. split.
      * rewrite Hrows. constructor.
      * intros j' q Hj' Hq. rewrite list_lookup_insert_ne in Hq by done.
        apply Houtside. by eapply list_elem_of_lookup_2.
    + split; [done|]. split; [by apply Forall_forall | done].
    + split; [done|]. split; [by apply Forall_forall | done].
Qed.

Lemma run_serialised (schedule : list nat) (s : system) :
  serialised name rows0 s -> serialised name rows0 (run name schedule s).
Proof.
  revert s. induction schedule as [|j schedule IH]; intros s Hs; [done|].
  apply IH. by apply thread_step_serialised.
Qed.

Lemma one_in_session (ps : list pc) (i : nat) (p : pc) :
  ps !! i = Some p -> in_session p = true ->
  (∀ (j : nat) (q : pc), j ≠ i -> ps !! j = Some q -> in_session q = false) ->
  length (List.filter in_session ps) = 1%nat.
Proof.
  revert i. induction ps as [|x ps IH]; intros i Hi Hp Hothers; [done|].
  destruct i as [|i]; cbn [List.filter].
  - injection Hi as ->. rewrite Hp. cbn [length]. f_equal.
    rewrite filter_none; [done|]. apply Forall_forall. intros q Hq.
    apply list_elem_of_lookup in Hq as [j Hq]. by apply (Hothers (S j) q).
  - rewrite (Hothers O x) by done. apply (IH i); [done | done |].
    intros j q Hj Hq. apply (Hothers (S j) q); [lia | done].
Qed.

(** Sequential calls, the last of which returns, all return. *)
Lemma served_fixed (k : nat) (rows : list CounterModel.t) :
  served name rows = rows -> Nat.iter k (served name) rows = rows.
Proof. intros Hfix. induction k as [|k IH]; [done|]. by rewrite Nat.iter_succ, IH. Qed.

Lemma with_counters_twice (rows rows' : list CounterModel.t) (w : World) :
  with_counters rows' (with_counters rows w) = with_counters rows' w.
Proof. by destruct w as [[]]. Qed.

Lemma inc_counter_served (w : World) (rows' : list CounterModel.t) :
  counter_increment name (split_counters (db w)) = Returned rows' ->
  SqlTelemetryStorage.inc_counter name w = (Returned tt, with_counters rows' w).
Proof.
  intros Hinc. unfold SqlTelemetryStorage.inc_counter, mbind, M_bind, gets, lift, modify.
  cbv beta. unfold counter_increment in Hinc. by rewrite Hinc.
Qed.

Lemma sequential_calls_return (n : nat) (w : World) :
  match n with
  | O => True
  | S k => ∃ rows', counter_increment name
                      (Nat.iter k (served name) (split_counters (db w))) = Returned rows'
  end ->
  repeat_call n (SqlTelemetryStorage.inc_counter name) w
    = (Returned tt, with_counters (Nat.iter n (served name) (split_counters (db w))) w).
Proof.
  revert w. induction n as [|n IH]; intros w Hlast.
  - cbn [repeat_call Nat.iter]. unfold mret, M_ret. by destruct w as [[]].
  - cbn [repeat_call]. rewrite Nat.iter_succ_r.
    destruct (counter_increment name (split_counters (db w))) as [rows1|e|] eqn:Hfirst.
    + unfold mbind, M_bind. rewrite (inc_counter_served w rows1 Hfirst).
      assert (served name (split_counters (db w)) = rows1) as Hserved
        by (unfold served; by rewrite Hfirst).
      rewrite Hserved.
      assert (split_counters (db (with_counters rows1 w)) = rows1) as Hrows by done.
      rewrite IH, Hrows; [by rewrite with_counters_twice|].
      rewrite Hrows. destruct n as [|k]; [done|].
      rewrite Nat.iter_succ_r, Hserved in Hlast. exact Hlast.
    + exfalso. destruct Hlast as [rows' Hlast].
      rewrite served_fixed in Hlast by (unfold served; by rewrite Hfirst). congruence.
    + exfalso. destruct Hlast as [rows' Hlast].
      rewrite served_fixed in Hlast by (unfold served; by rewrite Hfirst). congruence.
Qed.
End Serialised.

(** X21.  [n] threads call [inc_counter name] in parallel on any counter
    table, the row of [name] stored or not.  Whatever the schedule, once all
    of them are through, the table is the one that [n] sequential
    [inc_counter name] calls, which all return, leave on the same table: no
    increment is lost and none is applied twice. *)
Theorem parallel_inc_counter_is_serialised (name : string) (rows : list CounterModel.t)
    (n : nat) (schedule : list nat) (w : World) :
  Parallel.all_done (Parallel.run name schedule (Parallel.init n rows)) ->
  repeat_call n (SqlTelemetryStorage.inc_counter name) (with_counters rows w)
    = (Returned tt,
       with_counters
         (Parallel.counters (Parallel.run name schedule (Parallel.init n rows))) w).
Proof.
  intros Hdone.
  pose proof (run_serialised name rows schedule _ (serialised_init name rows n)) as Hs.
  pose proof (run_length name schedule (Parallel.init n rows)) as Hlen.
  unfold Parallel.init in Hlen at 2. cbn [Parallel.threads] in Hlen.
  rewrite length_replicate in Hlen.
  unfold serialised in Hs. unfold Parallel.all_done in Hdone.
  rewrite (done_count_all_done _ Hdone), Hlen in Hs.
  destruct Hs as [Hreturned Hs].
  assert (Parallel.counters (Parallel.run name schedule (Parallel.init n rows))
          = Nat.iter n (served name) rows) as ->.
  { destruct (Parallel.session_lock _).
    - destruct Hs as (i & p & Hi & Hprogress & _).
      rewrite Forall_forall in Hdone.
      assert (p = Parallel.Done) as -> by (apply Hdone; by eapply list_elem_of_lookup_2).
      inversion Hprogress.
    - by destruct Hs as [_ ->]. }
  rewrite sequential_calls_return; [by rewrite with_counters_twice|].
  exact Hreturned.
Qed.

Lemma parallel_inc_counter_is_serialised_witness :
  Parallel.all_done
    (Parallel.run "c" [0; 1; 0; 0; 1; 0; 1; 1; 1; 1]%nat
       (Parallel.init 2 [CounterModel.mk 1 "c" 5]))
  ∧ Parallel.counters
      (Parallel.run "c" [0; 1; 0; 0; 1; 0; 1; 1; 1; 1]%nat
         (Parallel.init 2 [CounterModel.mk 1 "c" 5]))
    = [CounterModel.mk 1 "c" 7]
  ∧ repeat_call 2 (SqlTelemetryStorage.inc_counter "c")
      (with_counters [CounterModel.mk 1 "c" 5] (new_world Z.of_nat))
    = (Returned tt,
       with_counters
         (Parallel.counters
            (Parallel.run "c" [0; 1; 0; 0; 1; 0; 1; 1; 1; 1]%nat
               (Parallel.init 2 [CounterModel.mk 1 "c" 5])))
         (new_world Z.of_nat)).
Proof.
  assert (Parallel.all_done
            (Parallel.run "c" [0; 1; 0; 0; 1; 0; 1; 1; 1; 1]%nat
               (Parallel.init 2 [CounterModel.mk 1 "c" 5]))) as Hdone
    by (unfold Parallel.all_done; vm_compute; repeat constructor).
  split; [exact Hdone|]. split; [reflexivity|].
  apply parallel_inc_counter_is_serialised. exact Hdone.
Defined.

(** X22.  [db_session] admits one thread at a time: whatever the table and
    the schedule, the number of threads inside a [DbClient] method, between
    taking [_db_session_lock] and releasing it, is one when the lock is held
    and none when it is free. *)
Theorem db_session_admits_one_thread (name : string) (rows : list CounterModel.t)
    (n : nat) (schedule : list nat) :
  length (List.filter in_session
            (Parallel.threads (Parallel.run name schedule (Parallel.init n rows))))
  = if Parallel.session_lock (Parallel.run name schedule (Parallel.init n rows))
    then 1%nat else 0%nat.
Proof.
  pose proof (run_serialised name rows schedule _ (serialised_init name rows n)) as Hs.
  unfold serialised in Hs. destruct Hs as [_ Hs].
  destruct (Parallel.session_lock _).
  - destruct Hs as (i & p & Hi & Hprogress & Hothers).
    apply (one_in_session _ i p); [done | | done].
    by eapply in_progress_in_session.
  - destruct Hs as [Houtside _]. by rewrite filter_none.
Qed.

(** ** Parallel writers of the split storage are served one after the other *)
Section Linearised.
Import Writers.
Context {Split : Type}.
Variable split_name : Split -> string.
Variable split_traffic_type_name : Split -> string.
Variable dumps_to_json : Split -> string.
Variable from_raw_loads : string -> Split.
Variable calls : list (split_call Split).
Variable d0 : Db.
Variable clock : nat -> Z.

#[local] Abbreviation split_run :=
  (split_call_run split_name split_traffic_type_name dumps_to_json from_raw_loads).
#[local] Abbreviation step := (thread_step split_name split_traffic_type_name dumps_to_json calls).
#[local] Abbreviation linear :=
  (linearised split_name split_traffic_type_name dumps_to_json from_raw_loads calls d0 clock).

Lemma for_each_app {A : Type} (xs ys : list A) (body : A -> M unit) (w w' : World) :
  for_each xs body w = (Returned tt, w') ->
  for_each (xs ++ ys) body w = for_each ys body w'.
Proof.
  revert w. induction xs as [|x xs IH]; intros w Hxs.
  - cbn [for_each] in Hxs. unfold mret, M_ret in Hxs. by injection Hxs as ->.
  - cbn [for_each app] in *. unfold mbind, M_bind in *.
    destruct (body x w) as [[[]|e|] w1]; try discriminate. by apply IH.
Qed.

Lemma for_each_one {A : Type} (x : A) (body : A -> M unit) (w : World) :
  for_each [x] body w = body x w.
Proof.
  cbn [for_each]. unfold mbind, M_bind, mret, M_ret.
  by destruct (body x w) as [[[]|e|] w1].
Qed.

(** A call served after the calls [served]. *)
Lemma served_next (served : list nat) (i : nat) (c : split_call Split)
    (d d' : Db) :
  calls !! i = Some c ->
  for_each (calls_of calls served) split_run (set_db d0 (new_world clock))
    = (Returned tt, set_db d (new_world clock)) ->
  split_run c (set_db d (new_world clock)) = (Returned tt, set_db d' (new_world clock)) ->
  for_each (calls_of calls (served ++ [i])) split_run (set_db d0 (new_world clock))
    = (Returned tt, set_db d' (new_world clock)).
Proof.
  intros Hc Hserved Hcall. unfold calls_of. rewrite omap_app.
  rewrite (for_each_app _ _ _ _ _ Hserved). cbn [omap list_omap]. rewrite Hc.
  by rewrite for_each_one.
Qed.

Lemma effected_same (ps : list pc) (i : nat) (p q : pc) (served : list nat) :
  ps !! i = Some p -> effected p = effected q ->
  (∀ j, j ∈ served ↔ ∃ p', ps !! j = Some p' ∧ effected p' = true) ->
  ∀ j, j ∈ served ↔ ∃ p', <[i := q]> ps !! j = Some p' ∧ effected p' = true.
Proof.
  intros Hi Heq Hserved j. rewrite Hserved.
  assert (i < length ps)%nat as Hlt by (by eapply lookup_lt_Some).
  destruct (decide (j = i)) as [->|Hne].
  - rewrite list_lookup_insert_eq by done. rewrite Hi. split.
    + intros (p' & [= <-] & Hp). exists q. by rewrite <- Heq.
    + intros (p' & [= <-] & Hq). exists p. by rewrite Heq.
  - by rewrite list_lookup_insert_ne.
Qed.

Lemma effected_more (ps : list pc) (i : nat) (p q : pc) (served : list nat) :
  ps !! i = Some p -> effected p = false -> effected q = true ->
  NoDup served ->
  (∀ j, j ∈ served ↔ ∃ p', ps !! j = Some p' ∧ effected p' = true) ->
  NoDup (served ++ [i])
  ∧ ∀ j, j ∈ served ++ [i] ↔ ∃ p', <[i := q]> ps !! j = Some p' ∧ effected p' = true.
Proof.
  intros Hi Hp Hq Hnodup Hserved.
  assert (i < length ps)%nat as Hlt by (by eapply lookup_lt_Some).
  assert (i ∉ served) as Hnew.
  { rewrite Hserved. intros (p' & Hp' & Heff). rewrite Hi in Hp'. congruence. }
  split.
  - apply NoDup_app. split; [done|]. split; [|apply NoDup_singleton].
    intros j Hj ->%list_elem_of_singleton. done.
  - intros j. rewrite elem_of_app, list_elem_of_singleton, Hserved.
    destruct (decide (j = i)) as [->|Hne].
    + rewrite list_lookup_insert_eq by done. split; [|by right]. intros _. by exists q.
    + rewrite list_lookup_insert_ne by done. split; [|by left]. by intros [?|?].
Qed.

Lemma holding_released (ps : list pc) (i : nat) (q : pc) :
  (i < length ps)%nat -> holding q = false ->
  (∀ (j : nat) (p' : pc), j ≠ i -> ps !! j = Some p' -> holding p' = false) ->
  Forall (λ p, holding p = false) (<[i := q]> ps).
Proof.
  intros Hlt Hq Hothers. apply Forall_forall. intros p' Hp'.
  apply list_elem_of_lookup in Hp' as [j Hj].
  destruct (decide (j = i)) as [->|Hne].
  - rewrite list_lookup_insert_eq in Hj by done. by injection Hj as <-.
  - rewrite list_lookup_insert_ne in Hj by done. eauto.
Qed.

Lemma holding_others (ps : list pc) (i : nat) (q : pc) :
  (∀ (j : nat) (p' : pc), j ≠ i -> ps !! j = Some p' -> holding p' = false) ->
  ∀ (j : nat) (p' : pc), j ≠ i -> <[i := q]> ps !! j = Some p' -> holding p' = false.
Proof.
  intros Hothers j p' Hne Hj. rewrite list_lookup_insert_ne in Hj by done. eauto.
Qed.

(** The sequential calls at the point where a thread makes its write. *)
Lemma put_found (split : Split) (d : Db) (record : option SplitModel.t) :
  DbClient.get_one_or_none
    (λ r, String.eqb (SplitModel.name r) (split_name split)) (split_splits d)
    = Returned record ->
  SqlSplitStorage.put split_name split_traffic_type_name dumps_to_json split
    (set_db d (new_world clock))
  = (Returned tt,
     set_db (set_split_splits
               match record with
               | None =>
                   DbClient.add (λ id, SplitModel.mk id (split_name split)
                                         (split_traffic_type_name split)
                                         (dumps_to_json split)) (split_splits d)
               | Some r =>
                   DbClient.merge (SplitModel.mk (SplitModel.id r) (SplitModel.name r)
                                     (split_traffic_type_name split)
                                     (dumps_to_json split)) (split_splits d)
               end d) (new_world clock)).
Proof.
  intros Hfound.
  unfold SqlSplitStorage.put, with_lock, SqlSplitStorage._get_split_record,
    mbind, M_bind, gets, lift, modify.
  cbn [lock_held set_db new_world db set_lock_held]. rewrite Hfound.
  by destruct record.
Qed.

Lemma remove_found (name : string) (d : Db) (record : option SplitModel.t) :
  DbClient.get_one_or_none
    (λ r, String.eqb (SplitModel.name r) name) (split_splits d) = Returned record ->
  (SqlSplitStorage.remove from_raw_loads name;; mret tt) (set_db d (new_world clock))
  = (Returned tt,
     set_db match record with
            | None => d
            | Some _ =>
                set_split_splits
                  (DbClient.delete_all (λ r, String.eqb (SplitModel.name r) name)
                     (split_splits d)) d
            end (new_world clock)).
Proof.
  intros Hfound.
  unfold SqlSplitStorage.remove, with_lock, SqlSplitStorage.get,
    SqlSplitStorage._get_split_record, mbind, M_bind, gets, lift, modify, mret, M_ret.
  cbn [lock_held set_db new_world db set_lock_held]. rewrite Hfound.
  by destruct record.
Qed.

Lemma linearised_init (n : nat) : linear (init n d0) [].
Proof.
  unfold linearised, init. cbn [threads storage_lock database].
  split; [constructor|]. split.
  - intros i. split; [by intros ?%elem_of_nil|].
    intros (p & Hp & Heff). apply lookup_replicate in Hp as [-> _]. done.
  - split; [done|]. apply Forall_forall. by intros p [-> _]%elem_of_replicate.
Qed.

Lemma thread_step_linearised (j : nat) (s : system) (served : list nat) :
  linear s served -> ∃ served' : list nat, linear (step j s) served'.
Proof.
  destruct s as [d lock ps]. unfold linearised, thread_step, at_pc.
  cbn [database storage_lock threads].
  intros (Hnodup & Hserved & Hseq & Hlock).
  destruct (calls !! j) as [c|] eqn:Hc; [|by exists served].
  destruct (ps !! j) as [p|] eqn:Hj; [|by destruct c; exists served].
  assert (j < length ps)%nat as Hlt by (by eapply lookup_lt_Some).
  destruct c as [split|name|n].
  - (* put *)
    destruct p as [| |[r|]| | |]; try (by exists served).
    + (* Start *)
      destruct lock; [by exists served|].
      exists served. cbn [database storage_lock threads].
      split; [done|]. split; [by apply (effected_same ps j Start)|]. split; [done|].
      exists j, Locked. split; [by apply list_lookup_insert_eq|]. split; [done|].
      split; [|done].
      intros j' q Hne Hq. rewrite list_lookup_insert_ne in Hq by done.
      rewrite Forall_forall in Hlock. apply Hlock. by eapply list_elem_of_lookup_2.
    + (* Locked *)
      destruct lock; [|by rewrite Forall_forall in Hlock;
        specialize (Hlock Locked (list_elem_of_lookup_2 _ _ _ Hj))].
      destruct Hlock as (i & p0 & Hi & Hhold & Hothers & Hfound).
      assert (i = j) as -> by (destruct (decide (i = j)); [done|];
        by specialize (Hothers j Locked ltac:(done) Hj)).
      unfold DbClient.get_one_or_none.
      destruct (DbClient.one_or_none _) as [record|e|] eqn:Hquery; exists served;
        cbn [database storage_lock threads].
      * split; [done|]. split; [by apply (effected_same ps j Locked)|]. split; [done|].
        exists j, (Found record). split; [by apply list_lookup_insert_eq|].
        split; [done|]. split; [by apply holding_others|].
        intros c r Hc' [= <-]. rewrite Hc in Hc'. by injection Hc' as <-.
      * split; [done|]. split; [by apply (effected_same ps j Locked)|]. split; [done|].
        by apply holding_released.
      * split; [done|]. split; [done|]. split; [done|]. by exists j, p0.
    + (* Found (Some r) *)
      destruct lock; [|by rewrite Forall_forall in Hlock;
        specialize (Hlock _ (list_elem_of_lookup_2 _ _ _ Hj))].
      destruct Hlock as (i & p0 & Hi & Hhold & Hothers & Hfound).
      assert (i = j) as -> by (destruct (decide (i = j)); [done|];
        by specialize (Hothers j _ ltac:(done) Hj)).
      rewrite Hj in Hi. injection Hi as <-.
      specialize (Hfound _ _ Hc eq_refl). cbn [queried] in Hfound.
      destruct (effected_more ps j (Found (Some r)) Written served Hj eq_refl eq_refl
                  Hnodup Hserved) as [Hnodup' Hserved'].
      exists (served ++ [j]). cbn [database storage_lock threads].
      split; [done|]. split; [done|]. split.
      * apply (served_next served j (SplitPut split) d); [done | done |].
        cbn [split_call_run]. by rewrite (put_found split d (Some r) Hfound).
      * exists j, Written. split; [by apply list_lookup_insert_eq|].
        split; [done|]. split; [by apply holding_others | done].
    + (* Found None *)
      destruct lock; [|by rewrite Forall_forall in Hlock;
        specialize (Hlock _ (list_elem_of_lookup_2 _ _ _ Hj))].
      destruct Hlock as (i & p0 & Hi & Hhold & Hothers & Hfound).
      assert (i = j) as -> by (destruct (decide (i = j)); [done|];
        by specialize (Hothers j _ ltac:(done) Hj)).
      rewrite Hj in Hi. injection Hi as <-.
      specialize (Hfound _ _ Hc eq_refl). cbn [queried] in Hfound.
      destruct (effected_more ps j (Found None) Written served Hj eq_refl eq_refl
                  Hnodup Hserved) as [Hnodup' Hserved'].
      exists (served ++ [j]). cbn [database storage_lock threads].
      split; [done|]. split; [done|]. split.
      * apply (served_next served j (SplitPut split) d); [done | done |].
        cbn [split_call_run]. by rewrite (put_found split d None Hfound).
      * exists j, Written. split; [by apply list_lookup_insert_eq|].
        split; [done|]. split; [by apply holding_others | done].
    + (* Written *)
      destruct lock; [|by rewrite Forall_forall in Hlock;
        specialize (Hlock _ (list_elem_of_lookup_2 _ _ _ Hj))].
      destruct Hlock as (i & p0 & Hi & Hhold & Hothers & Hfound).
      assert (i = j) as -> by (destruct (decide (i = j)); [done|];
        by specialize (Hothers j _ ltac:(done) Hj)).
      exists served. cbn [database storage_lock threads].
      split; [done|]. split; [by apply (effected_same ps j Written)|]. split; [done|].
      by apply holding_released.
  - (* remove *)
    destruct p as [| |[r|]| | |]; try (by exists served).
    + destruct lock; [by exists served|].
      exists served. cbn [database storage_lock threads].
      split; [done|]. split; [by apply (effected_same ps j Start)|]. split; [done|].
      exists j, Locked. split; [by apply list_lookup_insert_eq|]. split; [done|].
      split; [|done].
      intros j' q Hne Hq. rewrite list_lookup_insert_ne in Hq by done.
      rewrite Forall_forall in Hlock. apply Hlock. by eapply list_elem_of_lookup_2.
    + destruct lock; [|by rewrite Forall_forall in Hlock;
        specialize (Hlock Locked (list_elem_of_lookup_2 _ _ _ Hj))].
      destruct Hlock as (i & p0 & Hi & Hhold & Hothers & Hfound).
      assert (i = j) as -> by (destruct (decide (i = j)); [done|];
        by specialize (Hothers j Locked ltac:(done) Hj)).
      unfold DbClient.get_one_or_none.
      destruct (DbClient.one_or_none _) as [record|e|] eqn:Hquery; exists served;
        cbn [database storage_lock threads].
      * split; [done|]. split; [by apply (effected_same ps j Locked)|]. split; [done|].
        exists j, (Found record). split; [by apply list_lookup_insert_eq|].
        split; [done|]. split; [by apply holding_others|].
        intros c r Hc' [= <-]. rewrite Hc in Hc'. by injection Hc' as <-.
      * split; [done|]. split; [by apply (effected_same ps j Locked)|]. split; [done|].
        by apply holding_released.
      * split; [done|]. split; [done|]. split; [done|]. by exists j, p0.
    + destruct lock; [|by rewrite Forall_forall in Hlock;
        specialize (Hlock _ (list_elem_of_lookup_2 _ _ _ Hj))].
      destruct Hlock as (i & p0 & Hi & Hhold & Hothers & Hfound).
      assert (i = j) as -> by (destruct (decide (i = j)); [done|];
        by specialize (Hothers j _ ltac:(done) Hj)).
      rewrite Hj in Hi. injection Hi as <-.
      specialize (Hfound _ _ Hc eq_refl). cbn [queried] in Hfound.
      destruct (effected_more ps j (Found (Some r)) Written served Hj eq_refl eq_refl
                  Hnodup Hserved) as [Hnodup' Hserved'].
      exists (served ++ [j]). cbn [database storage_lock threads].
      split; [done|]. split; [done|]. split.
      * apply (served_next served j (SplitRemove name) d); [done | done |].
        cbn [split_call_run]. by rewrite (remove_found name d (Some r) Hfound).
      * exists j, Written. split; [by apply list_lookup_insert_eq|].
        split; [done|]. split; [by apply holding_others | done].
    + destruct lock; [|by rewrite Forall_forall in Hlock;
        specialize (Hlock _ (list_elem_of_lookup_2 _ _ _ Hj))].
      destruct Hlock as (i & p0 & Hi & Hhold & Hothers & Hfound).
      assert (i = j) as -> by (destruct (decide (i = j)); [done|];
        by specialize (Hothers j _ ltac:(done) Hj)).
      rewrite Hj in Hi. injection Hi as <-.
      specialize (Hfound _ _ Hc eq_refl). cbn [queried] in Hfound.
      destruct (effected_more ps j (Found None) Done served Hj eq_refl eq_refl
                  Hnodup Hserved) as [Hnodup' Hserved'].
      exists (served ++ [j]). cbn [database storage_lock threads].
      split; [done|]. split; [done|]. split.
      * apply (served_next served j (SplitRemove name) d); [done | done |].
        cbn [split_call_run]. by rewrite (remove_found name d None Hfound).
      * by apply holding_released.
    + destruct lock; [|by rewrite Forall_forall in Hlock;
        specialize (Hlock _ (list_elem_of_lookup_2 _ _ _ Hj))].
      destruct Hlock as (i & p0 & Hi & Hhold & Hothers & Hfound).
      assert (i = j) as -> by (destruct (decide (i = j)); [done|];
        by specialize (Hothers j _ ltac:(done) Hj)).
      exists served. cbn [database storage_lock threads].
      split; [done|]. split; [by apply (effected_same ps j Written)|]. split; [done|].
      by apply holding_released.
  - (* set_change_number *)
    destruct p; try (by exists served).
    destruct (effected_more ps j Start Done served Hj eq_refl eq_refl Hnodup Hserved)
      as [Hnodup' Hserved'].
    exists (served ++ [j]). cbn [database storage_lock threads].
    split; [done|]. split; [done|]. split.
    + by apply (served_next served j (SplitSetChangeNumber n) d).
    + destruct lock.
      * destruct Hlock as (i & p0 & Hi & Hhold & Hothers & Hfound).
        assert (i ≠ j) as Hne by (intros ->; rewrite Hj in Hi; by injection Hi as <-).
        exists i, p0. split; [by rewrite list_lookup_insert_ne|]. split; [done|].
        split.
        -- intros j' q Hj' Hq. destruct (decide (j' = j)) as [->|Hne'].
           ++ rewrite list_lookup_insert_eq in Hq by done. by injection Hq as <-.
           ++ rewrite list_lookup_insert_ne in Hq by done. eauto.
        -- intros c r Hc' Hp0. by apply Hfound.
      * apply Forall_forall. intros q Hq.
        apply list_elem_of_lookup in Hq as [j' Hq].
        rewrite Forall_forall in Hlock.
        destruct (decide (j' = j)) as [->|Hne'].
        -- rewrite list_lookup_insert_eq in Hq by done. by injection Hq as <-.
        -- rewrite list_lookup_insert_ne in Hq by done.
           apply Hlock. by eapply list_elem_of_lookup_2.
Qed.

Lemma run_linearised (schedule : list nat) (s : system) (served : list nat) :
  linear s served ->
  ∃ served' : list nat,
    linear (run split_name split_traffic_type_name dumps_to_json calls schedule s) served'.
Proof.
  revert s served. induction schedule as [|j schedule IH]; intros s served Hs.
  - by exists served.
  - destruct (thread_step_linearised j s served Hs) as [served1 Hs1].
    by apply (IH _ served1).
Qed.

Lemma writers_step_length (j : nat) (s : system) :
  length (threads (step j s)) = length (threads s).
Proof.
  unfold thread_step, at_pc.
  destruct (calls !! j) as [[split|name|n]|]; [| | |done];
    destruct (threads s !! j) as [[| |[r|]| | |]|]; try done;
    try (destruct (storage_lock s));
    try (destruct (DbClient.get_one_or_none _ _) as [|e|]);
    cbn [threads]; by rewrite ?length_insert.
Qed.

Lemma writers_run_length (schedule : list nat) (s : system) :
  length (threads (run split_name split_traffic_type_name dumps_to_json calls schedule s))
  = length (threads s).
Proof.
  unfold run. revert s. induction schedule as [|j schedule IH]; intros s; [done|].
  cbn [foldl]. by rewrite IH, writers_step_length.
Qed.

Lemma calls_of_all : calls_of calls (seq 0 (length calls)) = calls.
Proof.
  unfold calls_of.
  assert (∀ l2 l1 : list (split_call Split),
            calls = l1 ++ l2 ->
            omap (λ i, calls !! i) (seq (length l1) (length l2)) = l2) as Hgen.
  { induction l2 as [|x l2 IH]; intros l1 Hcalls; [done|].
    cbn [length seq omap list_omap].
    rewrite Hcalls at 1. rewrite list_lookup_middle by done.
    f_equal. specialize (IH (l1 ++ [x])).
    rewrite length_app in IH. cbn [length] in IH.
    replace (length l1 + 1)%nat with (S (length l1)) in IH by lia.
    apply IH. by rewrite <- app_assoc. }
  by apply (Hgen calls []).
Qed.

(** The calls that had their effect are calls of the threads, each at most
    once, and all of them once every thread is through. *)
Lemma served_calls (s : system) (served : list nat) :
  length (threads s) = length calls ->
  NoDup served ->
  (∀ i : nat, i ∈ served ↔ ∃ p, threads s !! i = Some p ∧ effected p = true) ->
  calls_of calls served ⊆+ calls
  ∧ (all_done s -> calls_of calls served ≡ₚ calls).
Proof.
  intros Hlen Hnodup Hserved.
  assert (∀ i, i ∈ served -> i ∈ seq 0 (length calls)) as Hin.
  { intros i (p & Hp & _)%Hserved. apply elem_of_seq.
    apply lookup_lt_Some in Hp. lia. }
  split.
  - destruct (submseteq_Permutation served (seq 0 (length calls)))
      as [rest Hrest]; [by apply NoDup_submseteq|].
    rewrite <- calls_of_all at 2. unfold calls_of. rewrite Hrest, omap_app.
    by apply submseteq_inserts_r.
  - intros Hdone. rewrite <- calls_of_all at 2. unfold calls_of.
    apply omap_Permutation, NoDup_Permutation; [done | apply NoDup_seq |].
    intros i. split; [apply Hin|]. intros [_ Hi]%elem_of_seq.
    apply Hserved. unfold all_done in Hdone. rewrite Forall_forall in Hdone.
    destruct (threads s !! i) as [p|] eqn:Hp.
    + exists p. split; [done|]. by rewrite (Hdone p (list_elem_of_lookup_2 _ _ _ Hp)).
    + apply lookup_ge_None in Hp. lia.
Qed.

(** Some order of the calls that had their effect leads sequential callers
    to the database of the parallel ones. *)
Lemma run_serves (schedule : list nat) :
  ∃ ordered : list (split_call Split),
    ordered ⊆+ calls
    ∧ for_each ordered split_run (set_db d0 (new_world clock))
      = (Returned tt,
         set_db (database (run split_name split_traffic_type_name dumps_to_json calls
                             schedule (init (length calls) d0)))
                (new_world clock))
    ∧ (all_done (run split_name split_traffic_type_name dumps_to_json calls
                   schedule (init (length calls) d0))
       -> ordered ≡ₚ calls).
Proof.
  destruct (run_linearised schedule _ [] (linearised_init (length calls)))
    as (served & Hnodup & Hserved & Hseq & _).
  destruct (served_calls
              (run split_name split_traffic_type_name dumps_to_json calls schedule
                 (init (length calls) d0)) served) as [Hsub Hall]; [| done | done |].
  { rewrite writers_run_length. unfold init. cbn [threads]. apply length_replicate. }
  exists (calls_of calls served). by split.
Qed.
End Linearised.

Section NeverStuck.
Import Writers.
Context {Split : Type}.
Variable split_name : Split -> string.
Variable split_traffic_type_name : Split -> string.
Variable dumps_to_json : Split -> string.
Variable from_raw_loads : string -> Split.
Variable calls : list (split_call Split).
Variable clock : nat -> Z.

#[local] Abbreviation step := (thread_step split_name split_traffic_type_name dumps_to_json calls).

(** *** Writers on a new storage neither fail nor wait for ever *)
#[local] Abbreviation linear_new :=
  (linearised split_name split_traffic_type_name dumps_to_json from_raw_loads calls
     empty_db clock).

(** On a storage written through its calls only, the query of a stored
    record finds one row at most. *)
Lemma linearised_query (s : system) (served : list nat) (name : string) :
  linear_new s served ->
  ∃ record : option SplitModel.t,
    DbClient.get_one_or_none (λ r, String.eqb (SplitModel.name r) name)
      (split_splits (database s)) = Returned record.
Proof.
  intros (_ & _ & Hseq & _).
  destruct (split_history_new split_name split_traffic_type_name dumps_to_json
              from_raw_loads (calls_of calls served) clock) as (w & Hrun & _ & Htable & _).
  change (set_db empty_db (new_world clock)) with (new_world clock) in Hseq.
  rewrite Hseq in Hrun. injection Hrun as <-.
  unfold splits_of in Htable. cbn [db set_db] in Htable.
  pose proof (proj2 Htable name) as Hname. unfold DbClient.get_one_or_none.
  change (keyed_by SplitModel.name name)
    with (λ r : SplitModel.t, String.eqb (SplitModel.name r) name) in Hname.
  destruct (List.filter _ (split_splits (database s))) as [|r [|r' l]];
    [by exists None | by exists (Some r) |].
  cbn [map] in Hname. by destruct (_ !! name).
Qed.

Lemma sound_init : sound calls (init (length calls) empty_db).
Proof.
  unfold sound, init. cbn [threads]. split; [apply length_replicate|]. split.
  - apply Forall_forall. by intros p [-> _]%elem_of_replicate.
  - intros i p [-> _]%lookup_replicate. done.
Qed.

Lemma sound_insert (ps : list pc) (i : nat) (q : pc) :
  length ps = length calls ->
  Forall (λ p, ∀ e, p ≠ Failed e) ps ->
  (∀ (j : nat) (p : pc), ps !! j = Some p -> holding p = true ->
     ∃ c, calls !! j = Some c ∧ locks c = true) ->
  (∀ e, q ≠ Failed e) ->
  (holding q = true -> ∃ c, calls !! i = Some c ∧ locks c = true) ->
  length (<[i := q]> ps) = length calls
  ∧ Forall (λ p, ∀ e, p ≠ Failed e) (<[i := q]> ps)
  ∧ ∀ (j : nat) (p : pc), <[i := q]> ps !! j = Some p -> holding p = true ->
      ∃ c, calls !! j = Some c ∧ locks c = true.
Proof.
  intros Hlen Hok Hcalls Hq Hholds. split; [by rewrite length_insert|]. split.
  - apply Forall_forall. intros p Hp. apply list_elem_of_lookup in Hp as [j Hj].
    destruct (decide (j = i)) as [->|Hne].
    + apply list_lookup_insert_Some in Hj as [(_ & <- & _)|[? _]]; done.
    + rewrite list_lookup_insert_ne in Hj by done.
      rewrite Forall_forall in Hok. apply Hok. by eapply list_elem_of_lookup_2.
  - intros j p Hj Hp. destruct (decide (j = i)) as [->|Hne].
    + apply list_lookup_insert_Some in Hj as [(_ & <- & _)|[? _]]; [|done]. by apply Hholds.
    + rewrite list_lookup_insert_ne in Hj by done. by apply (Hcalls j p).
Qed.

Lemma thread_step_sound (j : nat) (s : system) (served : list nat) :
  linear_new s served -> sound calls s -> sound calls (step j s).
Proof.
  intros Hlinear (Hlen & Hok & Hcalls).
  pose proof (λ name, linearised_query s served name Hlinear) as Hquery.
  clear Hlinear. destruct s as [d lock ps]. unfold sound, thread_step, at_pc in *.
  cbn [database storage_lock threads] in *.
  destruct (calls !! j) as [c|] eqn:Hc; [|done].
  destruct (ps !! j) as [p|] eqn:Hj; [|by destruct c].
  destruct c as [split|name|n].
  - destruct p as [| |[r|]| | |]; try done; cbn [database storage_lock threads].
    + destruct lock; [done|]. apply sound_insert; try done. intros _. by eexists.
    + destruct (Hquery (queried split_name (SplitPut split))) as [record ->].
      apply sound_insert; try done. intros _. by eexists.
    + apply sound_insert; try done. intros _. by eexists.
    + apply sound_insert; try done. intros _. by eexists.
    + by apply sound_insert.
  - destruct p as [| |[r|]| | |]; try done; cbn [database storage_lock threads].
    + destruct lock; [done|]. apply sound_insert; try done. intros _. by eexists.
    + destruct (Hquery (queried split_name (SplitRemove name))) as [record ->].
      apply sound_insert; try done. intros _. by eexists.
    + apply sound_insert; try done. intros _. by eexists.
    + by apply sound_insert.
    + by apply sound_insert.
  - destruct p; try done. cbn [database storage_lock threads]. by apply sound_insert.
Qed.

Lemma run_sound (schedule : list nat) (s : system) (served : list nat) :
  linear_new s served -> sound calls s ->
  ∃ served' : list nat,
    linear_new (run split_name split_traffic_type_name dumps_to_json calls schedule s)
      served'
    ∧ sound calls (run split_name split_traffic_type_name dumps_to_json calls schedule s).
Proof.
  revert s served. induction schedule as [|j schedule IH]; intros s served Hs Hsound.
  - by exists served.
  - destruct (thread_step_linearised split_name split_traffic_type_name dumps_to_json
                from_raw_loads calls empty_db clock j s served Hs) as [served1 Hs1].
    apply (IH _ served1 Hs1). by apply (thread_step_sound j s served).
Qed.

Lemma moved (d d' : Db) (lock lock' : bool) (ps : list pc) (i : nat) (p q : pc) :
  ps !! i = Some p -> q ≠ p -> mkSystem d' lock' (<[i := q]> ps) ≠ mkSystem d lock ps.
Proof.
  intros Hi Hq Heq. injection Heq as _ _ Heq.
  apply (f_equal (λ l, l !! i)) in Heq.
  rewrite list_lookup_insert_eq, Hi in Heq by (by eapply lookup_lt_Some). congruence.
Qed.

Lemma some_start (ps : list pc) :
  Forall (λ p, holding p = false) ps ->
  Forall (λ p, ∀ e, p ≠ Failed e) ps ->
  ¬ Forall (λ p, p = Done) ps ->
  ∃ j : nat, ps !! j = Some Start.
Proof.
  induction ps as [|p ps IH]; intros Hfree Hok Hnot.
  - destruct Hnot. constructor.
  - apply Forall_cons in Hfree as [Hp Hfree]. apply Forall_cons in Hok as [Hpok Hok].
    destruct p; try discriminate Hp; [by exists O | | by destruct (Hpok e)].
    destruct (IH Hfree Hok) as [j Hj]; [|by exists (S j)].
    intros Hall. apply Hnot. by constructor.
Qed.

(** While a call is not through, some thread can move. *)
Lemma writers_progress (s : system) (served : list nat) :
  linear_new s served -> sound calls s -> ¬ all_done s -> ∃ j, step j s ≠ s.
Proof.
  intros Hlinear (Hlen & Hok & Hcalls) Hnot.
  pose proof (λ name, linearised_query s served name Hlinear) as Hquery.
  destruct Hlinear as (_ & _ & _ & Hlock).
  destruct s as [d lock ps]. unfold all_done, thread_step, at_pc in *.
  cbn [database storage_lock threads] in *.
  destruct lock.
  - destruct Hlock as (i & p & Hi & Hhold & _).
    destruct (Hcalls i p Hi Hhold) as (c & Hc & Hlocks).
    exists i. rewrite Hc, Hi.
    destruct c as [split|name|n]; [| |done].
    + destruct p as [| |[r|]| | |]; try discriminate Hhold.
      * destruct (Hquery (queried split_name (SplitPut split))) as [record ->].
        by apply (moved _ _ _ _ _ _ Locked).
      * by apply (moved _ _ _ _ _ _ (Found (Some r))).
      * by apply (moved _ _ _ _ _ _ (Found None)).
      * by apply (moved _ _ _ _ _ _ Written).
    + destruct p as [| |[r|]| | |]; try discriminate Hhold.
      * destruct (Hquery (queried split_name (SplitRemove name))) as [record ->].
        by apply (moved _ _ _ _ _ _ Locked).
      * by apply (moved _ _ _ _ _ _ (Found (Some r))).
      * by apply (moved _ _ _ _ _ _ (Found None)).
      * by apply (moved _ _ _ _ _ _ Written).
  - destruct (some_start ps Hlock Hok Hnot) as [j Hj].
    exists j. rewrite Hj.
    destruct (calls !! j) as [c|] eqn:Hc.
    + destruct c; by apply (moved _ _ _ _ _ _ Start).
    + apply lookup_ge_None in Hc. apply lookup_lt_Some in Hj. lia.
Qed.

Lemma writers_work_left_insert (ps : list pc) (i : nat) (p q : pc) :
  ps !! i = Some p ->
  (writers_work_left (<[i := q]> ps) + writer_steps_left p
   = writers_work_left ps + writer_steps_left q)%nat.
Proof.
  unfold writers_work_left. revert i. induction ps as [|x ps IH]; intros i Hi; [done|].
  destruct i as [|i]; simpl in *.
  - injection Hi as ->. lia.
  - specialize (IH i Hi). lia.
Qed.

(** A thread that moves has less work left. *)
Lemma writers_step_work_left (j : nat) (s : system) :
  step j s ≠ s ->
  (writers_work_left (threads (step j s)) < writers_work_left (threads s))%nat.
Proof.
  unfold thread_step, at_pc. intros Hmoved.
  destruct (calls !! j) as [c|] eqn:Hc; [|done].
  destruct (threads s !! j) as [p|] eqn:Hj; [|by destruct c].
  destruct c as [split|name|n];
    destruct p as [| |[r|]| | |]; try done;
    try (destruct (storage_lock s); [done|]);
    try (destruct (DbClient.get_one_or_none _ _) as [record|e|]; [| |done]);
    cbn [threads];
    match goal with
    | |- context [<[j := ?q]> (threads s)] =>
        pose proof (writers_work_left_insert _ j _ q Hj); simpl in *; lia
    end.
Qed.

Lemma writers_all_done_dec (s : system) : {all_done s} + {¬ all_done s}.
Proof.
  unfold all_done. apply Forall_dec. intros p.
  destruct p; (by left) || (by right).
Defined.

(** From a state that writers on a new storage reach, the calls can all be
    brought through. *)
Lemma writers_complete (m : nat) (s : system) (served : list nat) :
  linear_new s served -> sound calls s ->
  (writers_work_left (threads s) <= m)%nat ->
  ∃ schedule : list nat,
    all_done (run split_name split_traffic_type_name dumps_to_json calls schedule s).
Proof.
  revert s served. induction m as [|m IH]; intros s served Hs Hsound Hwork.
  - destruct (writers_all_done_dec s) as [Hdone|Hnot]; [by exists []|].
    destruct (writers_progress s served Hs Hsound Hnot) as [j Hj].
    pose proof (writers_step_work_left j s Hj). lia.
  - destruct (writers_all_done_dec s) as [Hdone|Hnot]; [by exists []|].
    destruct (writers_progress s served Hs Hsound Hnot) as [j Hj].
    pose proof (writers_step_work_left j s Hj) as Hless.
    destruct (thread_step_linearised split_name split_traffic_type_name dumps_to_json
                from_raw_loads calls empty_db clock j s served Hs) as [served1 Hs1].
    destruct (IH (step j s) served1) as [schedule Hdone];
      [done | by apply (thread_step_sound j s served) | lia |].
    by exists (j :: schedule).
Qed.

(** What writers on a new storage never do: fail, or wait for ever. *)
Lemma writers_never_stuck (schedule : list nat) :
  Forall (λ p, ∀ e, p ≠ Failed e)
    (threads (run split_name split_traffic_type_name dumps_to_json calls schedule
                (init (length calls) empty_db)))
  ∧ (¬ all_done (run split_name split_traffic_type_name dumps_to_json calls schedule
                   (init (length calls) empty_db)) ->
     ∃ j : nat,
       step j (run split_name split_traffic_type_name dumps_to_json calls schedule
                 (init (length calls) empty_db))
       ≠ run split_name split_traffic_type_name dumps_to_json calls schedule
           (init (length calls) empty_db))
  ∧ ∃ more : list nat,
      all_done (run split_name split_traffic_type_name dumps_to_json calls
                  (schedule ++ more) (init (length calls) empty_db)).
Proof.
  destruct (run_sound schedule _ []
              (linearised_init split_name split_traffic_type_name dumps_to_json
                 from_raw_loads calls empty_db clock (length calls)) sound_init)
    as (served & Hs & Hsound).
  split; [apply Hsound|]. split; [by apply (writers_progress _ served)|].
  destruct (writers_complete _ _ served Hs Hsound (Nat.le_refl _)) as [more Hmore].
  exists more. unfold run in *. by rewrite foldl_app.
Qed.
End NeverStuck.

(** X25.  Threads call [put], [remove] and [set_change_number] on one split
    storage in parallel, one call each, on any database.  Under every
    interleaving of their steps, the database is at every point the one that
    the calls which had their effect so far leave when they are made one
    after the other, in some order, and all return; once every thread is
    through, these are all the calls.  No write of a [put] or a [remove] is
    lost or made on a record another thread has changed in between. *)
Theorem parallel_split_writers_are_serialised {Split : Type}
    (split_name split_traffic_type_name dumps_to_json : Split -> string)
    (from_raw_loads : string -> Split) (calls : list (split_call Split))
    (d0 : Db) (clock : nat -> Z) (schedule : list nat) :
  ∃ ordered : list (split_call Split),
    ordered ⊆+ calls
    ∧ for_each ordered
        (split_call_run split_name split_traffic_type_name dumps_to_json from_raw_loads)
        (set_db d0 (new_world clock))
      = (Returned tt,
         set_db (Writers.database
                   (Writers.run split_name split_traffic_type_name dumps_to_json calls
                      schedule (Writers.init (length calls) d0)))
                (new_world clock))
    ∧ (Writers.all_done
         (Writers.run split_name split_traffic_type_name dumps_to_json calls
            schedule (Writers.init (length calls) d0))
       -> ordered ≡ₚ calls).
Proof. apply run_serves. Qed.

(** X26.  Threads call [put], [remove] and [set_change_number] in parallel on
    a new split storage.  Under every interleaving, at every point, the split
    table holds at most one row for each name, and [get name] returns the
    split put last under [name], and not removed since, in some sequential
    order of the calls that had their effect; once every thread is through,
    these are all the calls. *)
Theorem parallel_split_writers_keep_one_row_per_name {Split : Type}
    (split_name split_traffic_type_name dumps_to_json : Split -> string)
    (from_raw_loads : string -> Split) (calls : list (split_call Split))
    (clock : nat -> Z) (schedule : list nat) :
  ∃ ordered : list (split_call Split),
    ordered ⊆+ calls
    ∧ (Writers.all_done
         (Writers.run split_name split_traffic_type_name dumps_to_json calls
            schedule (Writers.init (length calls) empty_db))
       -> ordered ≡ₚ calls)
    ∧ NoDup (map SplitModel.name
               (split_splits
                  (Writers.database
                     (Writers.run split_name split_traffic_type_name dumps_to_json calls
                        schedule (Writers.init (length calls) empty_db)))))
    ∧ ∀ name : string,
        fst (SqlSplitStorage.get from_raw_loads name
               (set_db (Writers.database
                          (Writers.run split_name split_traffic_type_name dumps_to_json
                             calls schedule (Writers.init (length calls) empty_db)))
                       (new_world clock)))
        = Returned ((λ split, from_raw_loads (dumps_to_json split))
                      <$> stored_splits split_name ordered !! name).
Proof.
  destruct (run_serves split_name split_traffic_type_name dumps_to_json from_raw_loads
              calls empty_db clock schedule) as (ordered & Hsub & Hseq & Hall).
  destruct (split_history_new split_name split_traffic_type_name dumps_to_json
              from_raw_loads ordered clock) as (w & Hrun & _ & Htable & _).
  change (set_db empty_db (new_world clock)) with (new_world clock) in Hseq.
  rewrite Hseq in Hrun. injection Hrun as <-.
  exists ordered. split; [done|]. split; [done|]. split.
  - apply (table_of_NoDup SplitModel.name split_value _ _ Htable).
  - intros name.
    by rewrite (split_get_stored split_traffic_type_name dumps_to_json from_raw_loads
                  name _ _ Htable).
Qed.

(** Two threads put a split named [a] and a third removes it, in parallel:
    the schedule below lets the first [put] insert the row, the second
    [put] rewrite it and the [remove] delete it. *)
Example parallel_put_put_remove :
  Writers.run fst (λ _, "user"%string) snd
    [SplitPut ("a", "v1"); SplitPut ("a", "v2"); SplitRemove "a"]%string
    [0; 1; 2; 0; 0; 1; 0; 1; 1; 2; 1; 1; 2; 2; 2; 2]%nat
    (Writers.init 3 empty_db)
  = Writers.mkSystem empty_db false [Writers.Done; Writers.Done; Writers.Done].
Proof. vm_compute. reflexivity. Qed.

(** X27.  Threads call [put], [remove] and [set_change_number] in parallel on
    a new split storage, one call each.  Under every interleaving no call
    fails, while a call is not through some thread can move, and the
    schedule can be continued until every call is through: the lock of [put]
    and [remove] never leaves the threads waiting for one another. *)
Theorem parallel_split_writers_never_deadlock {Split : Type}
    (split_name split_traffic_type_name dumps_to_json : Split -> string)
    (from_raw_loads : string -> Split) (calls : list (split_call Split))
    (schedule : list nat) :
  Forall (λ p, ∀ e, p ≠ Writers.Failed e)
    (Writers.threads
       (Writers.run split_name split_traffic_type_name dumps_to_json calls schedule
          (Writers.init (length calls) empty_db)))
  ∧ (¬ Writers.all_done
         (Writers.run split_name split_traffic_type_name dumps_to_json calls schedule
            (Writers.init (length calls) empty_db)) ->
     ∃ j : nat,
       Writers.thread_step split_name split_traffic_type_name dumps_to_json calls j
         (Writers.run split_name split_traffic_type_name dumps_to_json calls schedule
            (Writers.init (length calls) empty_db))
       ≠ Writers.run split_name split_traffic_type_name dumps_to_json calls schedule
           (Writers.init (length calls) empty_db))
  ∧ ∃ more : list nat,
      Writers.all_done
        (Writers.run split_name split_traffic_type_name dumps_to_json calls
           (schedule ++ more) (Writers.init (length calls) empty_db)).
Proof.
  apply (writers_never_stuck split_name split_traffic_type_name dumps_to_json
           from_raw_loads calls (λ _, 0) schedule).
Qed.
